(** * wp-to-contentful: the rich-text transformer and the migration orchestrator

    A shallow embedding of [lib/rich-text-transformer.js] (class
    [RichTextTransformer]) and of the migration loops of
    [scripts/04-migrate-content.js] ([migrateContent]), with the properties of
    the design document stated and settled against them.

    Conventions of the embedding.
    - A JavaScript string is a [string]; its characters stand for the code
      units 0..255.
    - A JavaScript number that holds an identifier is an integer of [Z], and
      [NaN] is [None]; identifiers are exact in JavaScript below 2^53, which
      is the range the embedding speaks about.
    - A JavaScript object used as a dictionary ([assetMap], [entryMap]) is a
      [gmap string string]; reading a missing key gives [undefined], that is
      [None].
    - The HTML parser ([node-html-parser]) and the two regular-expression
      clean-up passes that run before it are collaborators of [transform]:
      they are Variables of the section that defines it, and the tree walk is
      a function of the parsed nodes. The two passes are embedded on their
      own in [Passes]. *)

From stdpp Require Import gmap strings list pretty.
From Stdlib Require Import ZArith Ascii String Sorted.
From Equations Require Import Equations.

Set Warnings "-register-all".

Local Open Scope string_scope.
Local Open Scope Z_scope.

(** ** JavaScript primitives used by the source *)

Module Js.

(** [!s] is false exactly for the non-empty strings. *)
Definition truthy (s : string) : bool := negb (String.eqb s "").

(** [o] where [o] is a string or [undefined]. *)
Definition truthy_opt (o : option string) : bool :=
  match o with Some s => truthy s | None => false end.

(** [o || ''] *)
Definition or_empty (o : option string) : string :=
  match o with Some s => s | None => "" end.

Definition code (c : ascii) : N := N_of_ascii c.

(** White space of [String.prototype.trim] and of [parseInt], in the range
    of code units 0..255: TAB, LF, VT, FF, CR, SPACE, NBSP. *)
Definition isWhiteSpace (c : ascii) : bool :=
  let n := code c in
  ((9 <=? n)%N && (n <=? 13)%N) || (n =? 32)%N || (n =? 160)%N.

Fixpoint trimStart (s : string) : string :=
  match s with
  | EmptyString => EmptyString
  | String c r => if isWhiteSpace c then trimStart r else s
  end.

Fixpoint trimEnd (s : string) : string :=
  match s with
  | EmptyString => EmptyString
  | String c r =>
      let r' := trimEnd r in
      if isWhiteSpace c && String.eqb r' "" then EmptyString else String c r'
  end.

Definition trim (s : string) : string := trimEnd (trimStart s).

(** [String.prototype.toLowerCase] on code units 0..255: A-Z, and the
    Latin-1 capitals 192..222 without the multiplication sign 215. *)
Definition lowerChar (c : ascii) : ascii :=
  let n := code c in
  if ((65 <=? n)%N && (n <=? 90)%N)
     || ((192 <=? n)%N && (n <=? 222)%N && negb (n =? 215)%N)
  then ascii_of_N (n + 32) else c.

Fixpoint toLowerCase (s : string) : string :=
  match s with
  | EmptyString => EmptyString
  | String c r => String (lowerChar c) (toLowerCase r)
  end.

Definition isDigit (c : ascii) : bool :=
  let n := code c in (48 <=? n)%N && (n <=? 57)%N.

(** Value of a digit in radix 16 (decimal digits included). *)
Definition hexValue (c : ascii) : option Z :=
  let n := code c in
  if (48 <=? n)%N && (n <=? 57)%N then Some (Z.of_N n - 48)
  else if (97 <=? n)%N && (n <=? 102)%N then Some (Z.of_N n - 87)
  else if (65 <=? n)%N && (n <=? 70)%N then Some (Z.of_N n - 55)
  else None.

Definition digitValue (radix : Z) (c : ascii) : option Z :=
  match hexValue c with
  | Some v => if v <? radix then Some v else None
  | None => None
  end.

(** The longest prefix of radix digits, read as a number; [None] when the
    prefix is empty. [acc] is the value read so far, [seen] tells whether a
    digit was read. *)
Fixpoint readDigits (radix : Z) (acc : Z) (seen : bool) (s : string) : option Z :=
  match s with
  | EmptyString => if seen then Some acc else None
  | String c r =>
      match digitValue radix c with
      | Some v => readDigits radix (radix * acc + v) true r
      | None => if seen then Some acc else None
      end
  end.

(** [parseInt(s)] without a radix: leading white space, an optional sign,
    an optional [0x]/[0X] prefix, then the longest run of digits. [None] is
    [NaN]. *)
Definition parseInt (s : string) : option Z :=
  let s1 := trimStart s in
  let '(sign, s2) :=
    match s1 with
    | String "-" r => (-1, r)
    | String "+" r => (1, r)
    | _ => (1, s1)
    end in
  let '(radix, s3) :=
    match s2 with
    | String "0" (String "x" r) => (16, r)
    | String "0" (String "X" r) => (16, r)
    | _ => (10, s2)
    end in
  match readDigits radix 0 false s3 with
  | Some v => Some (sign * v)
  | None => None
  end.

(** Truthiness of a number: neither [NaN] nor zero; [null] is [None] too. *)
Definition truthy_num (n : option Z) : bool :=
  match n with Some z => negb (z =? 0) | None => false end.

(** [String(n)] for an integer. *)
Definition numToString (n : Z) : string := pretty n.

(** [s.substring(0, n)] *)
Definition substring0 (n : nat) (s : string) : string := String.substring 0 n s.

(** *** Regular-expression searches

    [s.match(re)] without the [g] flag returns the leftmost match: the
    first suffix of [s] at which the pattern, anchored, matches. *)
Fixpoint search {A} (anchored : string -> option A) (s : string) : option A :=
  match anchored s with
  | Some x => Some x
  | None =>
      match s with
      | EmptyString => None
      | String _ r => search anchored r
      end
  end.

Fixpoint stripPrefix (p s : string) : option string :=
  match p, s with
  | EmptyString, _ => Some s
  | String a p', String b s' => if Ascii.eqb a b then stripPrefix p' s' else None
  | String _ _, EmptyString => None
  end.

(** [(\d+)] is greedy: the maximal run of digits, and what follows it. *)
Fixpoint spanDigits (s : string) : string * string :=
  match s with
  | String c r =>
      if isDigit c then let '(d, rest) := spanDigits r in (String c d, rest)
      else (EmptyString, s)
  | EmptyString => (EmptyString, EmptyString)
  end.

(** [(\d+)] at the head of [s]: the run must not be empty. *)
Definition digits1 (s : string) : option (string * string) :=
  let '(d, rest) := spanDigits s in
  if String.eqb d "" then None else Some (d, rest).

(** [/wp-image-(\d+)/], capture 1. *)
Definition reWpImage (s : string) : option string :=
  search (fun t =>
    match stripPrefix "wp-image-" t with
    | Some r => match digits1 r with Some (d, _) => Some d | None => None end
    | None => None
    end) s.

(** [/\/(\d+)\//], capture 1: after the greedy run a slash must follow; a
    shorter run would be followed by a digit, so backtracking never helps. *)
Definition reUrlSegment (s : string) : option string :=
  search (fun t =>
    match t with
    | String "/" r =>
        match digits1 r with
        | Some (d, String "/" _) => Some d
        | _ => None
        end
    | _ => None
    end) s.

(** [/[?&]p=(\d+)/], capture 1. *)
Definition rePostParam (s : string) : option string :=
  search (fun t =>
    match t with
    | String c r =>
        if Ascii.eqb c "?" || Ascii.eqb c "&" then
          match stripPrefix "p=" r with
          | Some r' => match digits1 r' with Some (d, _) => Some d | None => None end
          | None => None
          end
        else None
    | EmptyString => None
    end) s.

End Js.

(** ** The parsed HTML tree

    What [parse] of [node-html-parser] returns: text nodes ([nodeType] 3,
    with [text]), comment nodes ([nodeType] 8) and elements ([nodeType] 1,
    with [tagName], attributes and [childNodes]). An element without a tag
    name (the root) has the empty [tagName]. *)

Inductive Node : Type :=
  | TextNode (text : string)
  | CommentNode (text : string)
  | Element (tagName : string) (attrs : list (string * string)) (childNodes : list Node).

Module Dom.

(** [node.tagName?.toLowerCase()]; [undefined] is the empty string: the
    source only tests the result for falsity and for equality with
    non-empty literals. *)
Definition tag (n : Node) : string :=
  match n with
  | Element t _ _ => Js.toLowerCase t
  | _ => ""
  end.

Definition children (n : Node) : list Node :=
  match n with
  | Element _ _ cs => cs
  | _ => []
  end.

Fixpoint assoc (k : string) (l : list (string * string)) : option string :=
  match l with
  | [] => None
  | (k', v) :: r => if String.eqb k k' then Some v else assoc k r
  end.

(** [node.getAttribute(name)]: the value, or [undefined]. *)
Definition getAttribute (n : Node) (name : string) : option string :=
  match n with
  | Element _ a _ => assoc name a
  | _ => None
  end.

Definition tagIn (t : string) (l : list string) : bool :=
  existsb (String.eqb t) l.

(** The descendants of a node in document order. *)
Fixpoint descendants (n : Node) : list Node :=
  match n with
  | Element _ _ cs => flat_map (fun c => c :: descendants c) cs
  | _ => []
  end.

(** [node.querySelectorAll('t1, t2')] for tag selectors. *)
Definition querySelectorAll (tags : list string) (n : Node) : list Node :=
  List.filter (fun d => tagIn (tag d) tags) (descendants n).

Definition querySelector (t : string) (n : Node) : option Node :=
  head (querySelectorAll [t] n).

(** [child.querySelectorAll(':scope > ul, :scope > ol')]: the element
    children with one of the tags. *)
Definition scopeChildren (tags : list string) (n : Node) : list Node :=
  List.filter (fun d => tagIn (tag d) tags) (children n).

(** [cell.textContent]: the text of the text nodes below, concatenated
    (what the library adds for a [<br>] inside a cell is not part of it). *)
Fixpoint textContent (n : Node) : string :=
  match n with
  | TextNode t => t
  | CommentNode _ => ""
  | Element _ _ cs => String.concat "" (map textContent cs)
  end.

End Dom.

(** ** The rich-text document tree

    The objects the transformer builds: a text run
    [{nodeType: 'text', value, marks, data: {}}], or a node
    [{nodeType, data, content}]. [NodeType] lists the constants of
    [BLOCKS] and [INLINES] the source uses, ['document'] and
    [`heading-${level}`]. *)

Inductive Mark : Type := bold | italic | underline | code | subscript | superscript.

Inductive NodeType : Type :=
  | DOCUMENT | PARAGRAPH | HEADING (level : nat) | UL_LIST | OL_LIST | LIST_ITEM
  | QUOTE | HR | EMBEDDED_ASSET | HYPERLINK | ENTRY_HYPERLINK.

Inductive Data : Type :=
  | NoData                                    (* {} *)
  | Uri (uri : string)                        (* { uri } *)
  | Target (linkType : string) (id : string). (* { target: { sys: { type: 'Link', linkType, id } } } *)

Inductive RichNode : Type :=
  | Text (value : string) (marks : list Mark)
  | Block (nodeType : NodeType) (data : Data) (content : list RichNode).

Global Instance Mark_eq_dec : EqDecision Mark.
Proof. solve_decision. Defined.
Global Instance NodeType_eq_dec : EqDecision NodeType.
Proof. solve_decision. Defined.

Definition isType (t : NodeType) (n : RichNode) : bool :=
  match n with
  | Block t' _ _ => bool_decide (t' = t)
  | Text _ _ => false
  end.

Definition isText (n : RichNode) : bool :=
  match n with Text _ _ => true | Block _ _ _ => false end.

Definition newline : string := String (ascii_of_N 10) EmptyString.

(** A value passed to [transform]. *)
Inductive JsValue : Type :=
  | JsUndefined
  | JsNull
  | JsBoolean (b : bool)
  | JsNumber (n : Z)
  | JsString (s : string)
  | JsObject.

(** What [processNode] returns: [null], one node, or an array of nodes. *)
Inductive Processed : Type :=
  | PNull
  | PNode (n : RichNode)
  | PArray (l : list RichNode).

Definition ofOption (o : option RichNode) : Processed :=
  match o with Some n => PNode n | None => PNull end.

(** ** [RichTextTransformer] *)

Section Transformer.

(** The fields of the object: the two maps, and the options. *)
Variable assetMap : gmap string string.
Variable entryMap : gmap string string.
Variable preserveWhitespace : bool.

Definition createTextNode (text : string) : RichNode := Text text [].

Definition emptyParagraph : RichNode :=
  Block PARAGRAPH NoData [createTextNode ""].

Definition emptyDocument : RichNode :=
  Block DOCUMENT NoData [emptyParagraph].

(** [getMarkType]: the table [markMap], read at [tag]. *)
Definition getMarkType (tag : string) : option Mark :=
  if String.eqb tag "strong" then Some bold
  else if String.eqb tag "b" then Some bold
  else if String.eqb tag "em" then Some italic
  else if String.eqb tag "i" then Some italic
  else if String.eqb tag "u" then Some underline
  else if String.eqb tag "code" then Some code
  else if String.eqb tag "mark" then Some bold
  else if String.eqb tag "sub" then Some subscript
  else if String.eqb tag "sup" then Some superscript
  else None.

(** [extractWpPostIdFromUrl] *)
Definition extractWpPostIdFromUrl (url : string) : option Z :=
  if negb (Js.truthy url) then None
  else
    match Js.rePostParam url with
    | Some digits => Js.parseInt digits
    | None => None
    end.

(** The item function of [wrapWithMark]'s [content.map]. *)
Definition addMark (markType : Mark) (item : RichNode) : RichNode :=
  match item with
  | Text value marks => Text value (marks ++ [markType])%list
  | Block _ _ _ => item
  end.

(** The end of [processInlineContent]: at least one text node. *)
Definition ensureTextNode (results : list RichNode) : list RichNode :=
  match results with
  | [] => [createTextNode ""]
  | _ => results
  end.

(** [wrapWithMark], once the inline content of the node is known. *)
Definition wrapContent (markType : option Mark) (content : list RichNode) : list RichNode :=
  match markType with
  | None => content
  | Some m => map (addMark m) content
  end.

(** [createHyperlink], once [href] and the inline content of the anchor
    are known. *)
Definition buildHyperlink (href : string) (content0 : list RichNode) : RichNode :=
  let content :=
    match content0 with
    | [] => [createTextNode (if Js.truthy href then href else "link")]
    | _ => content0
    end in
  let wpPostId := extractWpPostIdFromUrl href in
  let contentfulEntryId :=
    match wpPostId with
    | Some n => if Js.truthy_num wpPostId
                then entryMap !! ("post_" +:+ Js.numToString n) else None
    | None => None
    end in
  match contentfulEntryId with
  | Some id =>
      if Js.truthy id then Block ENTRY_HYPERLINK (Target "Entry" id) content
      else Block HYPERLINK (Uri href) content
  | None => Block HYPERLINK (Uri href) content
  end.

Definition inlineMarkTags : list string :=
  ["strong"; "b"; "em"; "i"; "u"; "code"; "mark"].

(** The body of the loop of [processInlineContent]: what one child adds to
    [results]. The recursive calls of the source go through
    [wrapWithMark], [createHyperlink] and [processInlineContent] itself, each
    on the child; they are [processInlineContent_child] below. *)
Fixpoint inlineChild (excludeNestedLists : bool) (child : Node) {struct child}
  : list RichNode :=
  match child with
  | TextNode text => if Js.truthy text then [createTextNode text] else []
  | CommentNode _ => []
  | Element tagName attrs childNodes =>
      let tag := Js.toLowerCase tagName in
      if excludeNestedLists && (String.eqb tag "ul" || String.eqb tag "ol") then []
      else if Dom.tagIn tag inlineMarkTags then
        wrapContent (getMarkType tag)
          (ensureTextNode (flat_map (inlineChild false) childNodes))
      else if String.eqb tag "a" then
        [buildHyperlink (Js.or_empty (Dom.assoc "href" attrs))
           (ensureTextNode (flat_map (inlineChild false) childNodes))]
      else if String.eqb tag "br" then [createTextNode newline]
      else if String.eqb tag "img" then []
      else ensureTextNode (flat_map (inlineChild excludeNestedLists) childNodes)
  end.

(** [processInlineContent(node, excludeNestedLists)] *)
Definition processInlineContent (node : Node) (excludeNestedLists : bool) : list RichNode :=
  ensureTextNode (flat_map (inlineChild excludeNestedLists) (Dom.children node)).

(** [wrapWithMark(node, markType)] *)
Definition wrapWithMark (node : Node) (markType : option Mark) : list RichNode :=
  match markType with
  | None => processInlineContent node false
  | Some m => map (addMark m) (processInlineContent node false)
  end.

(** [createHyperlink(node)] *)
Definition createHyperlink (node : Node) : RichNode :=
  let href := Js.or_empty (Dom.getAttribute node "href") in
  buildHyperlink href (processInlineContent node false).

(** [createParagraph(node)] *)
Definition createParagraph (node : Node) : option RichNode :=
  let content := processInlineContent node false in
  match content with
  | [] => None
  | [Text "" _] => None
  | _ => Some (Block PARAGRAPH NoData content)
  end.

(** [createHeading(node, level)] *)
Definition createHeading (node : Node) (level : nat) : option RichNode :=
  let content := processInlineContent node false in
  match content with
  | [] => None
  | _ => Some (Block (HEADING level) NoData content)
  end.

Definition isListTag (t : string) : bool := String.eqb t "ul" || String.eqb t "ol".

Definition listTypeOf (t : string) : NodeType :=
  if String.eqb t "ul" then UL_LIST else OL_LIST.

Definition optList {A} (o : option A) : list A :=
  match o with Some x => [x] | None => [] end.

(** [if (content.length > 0) listItemContent.push({paragraph})] *)
Definition paragraphIfAny (content : list RichNode) : list RichNode :=
  match content with
  | [] => []
  | _ => [Block PARAGRAPH NoData content]
  end.

(** [createList(node, listType)]. The loop over [nestedLists] runs over the
    children of the item and keeps the [ul]/[ol] elements, which is the
    order and the content of [querySelectorAll(':scope > ul, :scope > ol')]
    ([createList_nested] below). *)
Fixpoint createList (listType : NodeType) (node : Node) {struct node} : option RichNode :=
  match node with
  | Element _ _ childNodes =>
      let items :=
        flat_map (fun child =>
          match child with
          | Element childTag _ grandChildren =>
              if String.eqb (Js.toLowerCase childTag) "li" then
                let listItemContent :=
                  if existsb (fun g => isListTag (Dom.tag g)) grandChildren then
                    (paragraphIfAny (processInlineContent child true)
                     ++ flat_map (fun nestedList =>
                          if isListTag (Dom.tag nestedList)
                          then optList (createList (listTypeOf (Dom.tag nestedList)) nestedList)
                          else []) grandChildren)%list
                  else paragraphIfAny (processInlineContent child false) in
                match listItemContent with
                | [] => []
                | _ => [Block LIST_ITEM NoData listItemContent]
                end
              else []
          | _ => []
          end) childNodes in
      match items with
      | [] => None
      | _ => Some (Block listType NoData items)
      end
  | _ => None
  end.

(** The three strategies of [createEmbeddedAsset] for the WordPress media
    id, in the order of the source; each later one runs only while [wpId] is
    falsy ([null], [NaN] or 0). *)
Definition findWpId (imgNode : Node) : option Z :=
  let src := Js.or_empty (Dom.getAttribute imgNode "src") in
  let classAttr := Js.or_empty (Dom.getAttribute imgNode "class") in
  let dataId := Dom.getAttribute imgNode "data-id" in
  let wpId0 : option Z := None in
  let wpId1 :=
    match dataId with
    | Some d => if Js.truthy d then Js.parseInt d else wpId0
    | None => wpId0
    end in
  let wpId2 :=
    if negb (Js.truthy_num wpId1) then
      match Js.reWpImage classAttr with
      | Some digits => Js.parseInt digits
      | None => wpId1
      end
    else wpId1 in
  let wpId3 :=
    if negb (Js.truthy_num wpId2) then
      match Js.reUrlSegment src with
      | Some digits => Js.parseInt digits
      | None => wpId2
      end
    else wpId2 in
  wpId3.

(** [wpId ? this.assetMap[wpId] : null], kept when truthy. *)
Definition lookupAsset (wpId : option Z) : option string :=
  match wpId with
  | Some n =>
      if Js.truthy_num wpId then
        match assetMap !! Js.numToString n with
        | Some id => if Js.truthy id then Some id else None
        | None => None
        end
      else None
  | None => None
  end.

Definition imageFallback (imgNode : Node) : RichNode :=
  let src := Js.or_empty (Dom.getAttribute imgNode "src") in
  let alt := Js.or_empty (Dom.getAttribute imgNode "alt") in
  Block PARAGRAPH NoData
    [Text ("[Image: " +:+ (if Js.truthy alt then alt else src) +:+ "]") [italic]].

Definition assetWarning (imgNode : Node) : string :=
  "Asset not found for image: "
  +:+ Js.substring0 100 (Js.or_empty (Dom.getAttribute imgNode "src")).

(** [createEmbeddedAsset(imgNode)]; [warnings] is [this.warnings]. *)
Definition createEmbeddedAsset (imgNode : Node) (warnings : list string)
  : RichNode * list string :=
  match lookupAsset (findWpId imgNode) with
  | None => (imageFallback imgNode, (warnings ++ [assetWarning imgNode])%list)
  | Some contentfulAssetId =>
      (Block EMBEDDED_ASSET (Target "Asset" contentfulAssetId) [], warnings)
  end.

(** [processFigure(node)] *)
Definition processFigure (node : Node) (warnings : list string)
  : list RichNode * list string :=
  let '(results1, warnings1) :=
    match Dom.querySelector "img" node with
    | Some img =>
        let '(asset, w) := createEmbeddedAsset img warnings in ([asset], w)
    | None => ([], warnings)
    end in
  let results2 :=
    match Dom.querySelector "figcaption" node with
    | Some figcaption => (results1 ++ optList (createParagraph figcaption))%list
    | None => results1
    end in
  (results2, warnings1).

(** [tableToText(tableNode)] *)
Definition tableToText (tableNode : Node) : RichNode :=
  let rows := Dom.querySelectorAll ["tr"] tableNode in
  let textRows :=
    map (fun row =>
           String.concat " | "
             (map (fun cell => Js.trim (Dom.textContent cell))
                  (Dom.querySelectorAll ["td"; "th"] row)))
        rows in
  Block PARAGRAPH NoData [Text (String.concat newline textRows) []].

(** The loop of [processNodes]: [results.push(...)] of what [processNode]
    gave for each node, the warnings threaded through. *)
Definition pushProcessed (results : list RichNode) (processed : Processed) : list RichNode :=
  match processed with
  | PNull => results
  | PNode n => (results ++ [n])%list
  | PArray l => (results ++ l)%list
  end.

Definition processNodesWith
    (processNode : Node -> list string -> Processed * list string)
  : list Node -> list RichNode -> list string -> list RichNode * list string :=
  fix loop nodes results warnings :=
    match nodes with
    | [] => (results, warnings)
    | node :: rest =>
        let '(processed, warnings') := processNode node warnings in
        loop rest (pushProcessed results processed) warnings'
    end.

(** [createBlockquote], once the blocks of the children are known. *)
Definition buildBlockquote (node : Node) (blocks : list RichNode) : RichNode :=
  let content :=
    match blocks with
    | [] => [Block PARAGRAPH NoData (processInlineContent node false)]
    | _ => blocks
    end in
  Block QUOTE NoData (List.filter (isType PARAGRAPH) content).

Definition containerTags : list string :=
  ["div"; "section"; "article"; "main"; "aside"; "header"; "footer"; "span"].

Definition markTags : list string :=
  ["strong"; "b"; "em"; "i"; "u"; "code"; "mark"; "sub"; "sup"].

(** [processNode(node)] *)
Fixpoint processNode (node : Node) (warnings : list string) {struct node}
  : Processed * list string :=
  match node with
  | TextNode text =>
      if negb (Js.truthy (Js.trim text)) && negb preserveWhitespace
      then (PNull, warnings)
      else (PNode (createTextNode text), warnings)
  | CommentNode _ => (PNull, warnings)
  | Element tagName _ childNodes =>
      let tag := Js.toLowerCase tagName in
      let processChildren := processNodesWith processNode childNodes [] in
      if negb (Js.truthy tag) then (PNull, warnings)
      else if String.eqb tag "p" then (ofOption (createParagraph node), warnings)
      else if Dom.tagIn tag ["h1"; "h2"] then (ofOption (createHeading node 2), warnings)
      else if String.eqb tag "h3" then (ofOption (createHeading node 3), warnings)
      else if Dom.tagIn tag ["h4"; "h5"; "h6"] then (ofOption (createHeading node 4), warnings)
      else if String.eqb tag "ul" then (ofOption (createList UL_LIST node), warnings)
      else if String.eqb tag "ol" then (ofOption (createList OL_LIST node), warnings)
      else if String.eqb tag "blockquote" then
        let '(blocks, warnings') := processChildren warnings in
        (PNode (buildBlockquote node blocks), warnings')
      else if String.eqb tag "pre" then (ofOption (createParagraph node), warnings)
      else if String.eqb tag "hr" then (PNode (Block HR NoData []), warnings)
      else if String.eqb tag "table" then
        (PNode (tableToText node),
         (warnings ++ ["Table converted to text (not supported in Rich Text)"])%list)
      else if String.eqb tag "img" then
        let '(asset, warnings') := createEmbeddedAsset node warnings in
        (PNode asset, warnings')
      else if String.eqb tag "figure" then
        let '(results, warnings') := processFigure node warnings in
        (PArray results, warnings')
      else if Dom.tagIn tag ["video"; "audio"] then
        (PNull, (warnings ++ [tag +:+ " element skipped (not directly supported)"])%list)
      else if String.eqb tag "iframe" then
        (PNull, (warnings ++ ["iframe skipped (embed content manually)"])%list)
      else if String.eqb tag "a" then (PNode (createHyperlink node), warnings)
      else if Dom.tagIn tag containerTags then
        let '(results, warnings') := processChildren warnings in
        (PArray results, warnings')
      else if String.eqb tag "br" then (PNode (createTextNode newline), warnings)
      else if Dom.tagIn tag markTags then
        (PArray (wrapWithMark node (getMarkType tag)), warnings)
      else
        let '(results, warnings') := processChildren warnings in
        (PArray results, warnings')
  end.

(** [processNodes(nodes)] *)
Definition processNodes (nodes : list Node) (warnings : list string)
  : list RichNode * list string :=
  processNodesWith processNode nodes [] warnings.

(** [createBlockquote(node)] *)
Definition createBlockquote (node : Node) (warnings : list string)
  : RichNode * list string :=
  let '(blocks, warnings') := processNodes (Dom.children node) warnings in
  (buildBlockquote node blocks, warnings').

(** The end of [transform], from the parsed nodes on. *)
Definition transformNodes (rootChildNodes : list Node) : RichNode * list string :=
  let '(content, warnings) := processNodes rootChildNodes [] in
  let finalContent :=
    match content with
    | [] => [emptyParagraph]
    | _ => content
    end in
  (Block DOCUMENT NoData finalContent, warnings).

(** The collaborators of [transform]: [parse] of [node-html-parser], which
    gives the child nodes of the root, and the two regular-expression
    passes over the HTML string. *)
Variable parse : string -> list Node.
Variable stripShortcodes : string -> string.
Variable preprocessGutenbergBlocks : string -> string.
Variable stripShortcodesOption : bool.

(** [transform(wpHtml)]: the document, and [this.warnings] after the call
    (what [getWarnings()] returns). *)
Definition transform (wpHtml : JsValue) : RichNode * list string :=
  match wpHtml with
  | JsString html0 =>
      if negb (Js.truthy html0) then (emptyDocument, [])
      else
        let html1 := if stripShortcodesOption then stripShortcodes html0 else html0 in
        let html2 := preprocessGutenbergBlocks html1 in
        transformNodes (parse html2)
  | _ => (emptyDocument, [])
  end.

End Transformer.

(** ** [migrateContent]: the migration loops

    The destination ([environment.createEntry], [entry.publish]) is a
    collaborator: its answer to a request is a Variable of the section, and
    every request made is appended to the log [calls] of the run, so that a
    run that writes nothing is a run that leaves the log as it was. Console
    output is not part of the state. *)

Module Migration.

(** An awaited call either returns or throws [error]. *)
Inductive Result (A : Type) : Type :=
  | Ok (a : A)
  | Err (message : string).
Arguments Ok {A} a.
Arguments Err {A} message.

(** The values of the [fields] object of an entry (the locale wrapper
    [{'en-US': v}] is left out). *)
Inductive FieldValue : Type :=
  | FString (s : string)
  | FNumber (n : Z)
  | FRichText (document : RichNode)
  | FLink (linkType : string) (id : string)
  | FLinks (links : list (string * string)).

Definition Fields : Type := list (string * FieldValue).

Inductive Call : Type :=
  | CreateEntry (contentType : string) (fields : Fields)
  | Publish (id : string).

(** The source entities of [wp-export.json], with the fields the loops
    read; an absent string field is the empty string, an absent number 0. *)
Record User := { user_id : Z; user_name : string; user_slug : string;
                 user_description : string }.
Record Category := { cat_id : Z; cat_name : string; cat_slug : string;
                     cat_description : string; cat_parent : Z }.
Record Tag := { tag_id : Z; tag_name : string; tag_slug : string }.
Record Yoast := { yoast_title : string; yoast_description : string }.
Record Post := { post_id : Z; post_title : string; post_slug : string;
                 post_date : string; post_modified : string;
                 post_excerpt : string; post_content : string;
                 post_categories : list Z; post_tags : list Z;
                 post_author : Z; post_featured_media : Z;
                 post_yoast : option Yoast }.
Record Page := { page_id : Z; page_title : string; page_slug : string;
                 page_content : string; page_parent : Z;
                 page_template : string; page_featured_media : Z;
                 page_yoast : option Yoast }.
Record WpData := { users : list User; categories : list Category;
                   tags : list Tag; posts : list Post; pages : list Page }.

Inductive Family : Type := Authors | Categories | Tags | Posts | Pages.

Record Stats := { total : nat; migrated : nat; skipped : nat; failed : nat }.

Record AllStats := { s_authors : Stats; s_categories : Stats; s_tags : Stats;
                     s_posts : Stats; s_pages : Stats }.

Definition zeroStats : Stats :=
  {| total := 0; migrated := 0; skipped := 0; failed := 0 |}.

Definition getStats (f : Family) (a : AllStats) : Stats :=
  match f with
  | Authors => s_authors a
  | Categories => s_categories a
  | Tags => s_tags a
  | Posts => s_posts a
  | Pages => s_pages a
  end.

Definition setStats (f : Family) (s : Stats) (a : AllStats) : AllStats :=
  match f with
  | Authors => {| s_authors := s; s_categories := s_categories a; s_tags := s_tags a;
                  s_posts := s_posts a; s_pages := s_pages a |}
  | Categories => {| s_authors := s_authors a; s_categories := s; s_tags := s_tags a;
                     s_posts := s_posts a; s_pages := s_pages a |}
  | Tags => {| s_authors := s_authors a; s_categories := s_categories a; s_tags := s;
               s_posts := s_posts a; s_pages := s_pages a |}
  | Posts => {| s_authors := s_authors a; s_categories := s_categories a;
                s_tags := s_tags a; s_posts := s; s_pages := s_pages a |}
  | Pages => {| s_authors := s_authors a; s_categories := s_categories a;
                s_tags := s_tags a; s_posts := s_posts a; s_pages := s |}
  end.

(** The state of a run: the in-memory [entryMap], [stats], the requests
    made to the destination, and the content of [entry-map.json]. *)
Record State := { entryMap : gmap string string;
                  stats : AllStats;
                  calls : list Call;
                  saved : gmap string string }.

Definition withTotal (n : nat) (s : Stats) : Stats :=
  {| total := n; migrated := migrated s; skipped := skipped s; failed := failed s |}.
Definition incMigrated (s : Stats) : Stats :=
  {| total := total s; migrated := S (migrated s); skipped := skipped s; failed := failed s |}.
Definition incSkipped (s : Stats) : Stats :=
  {| total := total s; migrated := migrated s; skipped := S (skipped s); failed := failed s |}.
Definition incFailed (s : Stats) : Stats :=
  {| total := total s; migrated := migrated s; skipped := skipped s; failed := S (failed s) |}.

Definition updStats (f : Family) (upd : Stats -> Stats) (st : State) : State :=
  {| entryMap := entryMap st;
     stats := setStats f (upd (getStats f (stats st))) (stats st);
     calls := calls st;
     saved := saved st |}.

(** [saveProgress()] *)
Definition saveProgress (st : State) : State :=
  {| entryMap := entryMap st; stats := stats st; calls := calls st;
     saved := entryMap st |}.

(** The body of a [try] block: it makes requests, and ends with a value or
    with the error that was thrown. *)
Definition Attempt (A : Type) : Type := list Call -> Result A * list Call.

Definition ret {A} (a : A) : Attempt A := fun log => (Ok a, log).

Definition bind {A B} (m : Attempt A) (k : A -> Attempt B) : Attempt B :=
  fun log =>
    match m log with
    | (Ok a, log') => k a log'
    | (Err e, log') => (Err e, log')
    end.

Notation "'await' x <- m 'in' k" := (bind m (fun x => k))
  (at level 10, x name, m at level 100, k at level 200).

(** [arr.sort((a, b) => a.parent - b.parent)]: the stable sort by [parent]. *)
Fixpoint insertByParent {A} (parent : A -> Z) (x : A) (l : list A) : list A :=
  match l with
  | [] => [x]
  | y :: r => if parent x <=? parent y then x :: l else y :: insertByParent parent x r
  end.

Definition sortByParent {A} (parent : A -> Z) (l : list A) : list A :=
  foldr (insertByParent parent) [] l.

(** [createLink(id, linkType = 'Entry')] *)
Definition createLink (id : string) : FieldValue := FLink "Entry" id.
Definition createAssetLink (id : string) : FieldValue := FLink "Asset" id.

Definition mapKey (prefix : string) (id : Z) : string :=
  prefix +:+ Js.numToString id.

Section Orchestrator.

Variable parse : string -> list Node.
Variable stripShortcodes : string -> string.
Variable preprocessGutenbergBlocks : string -> string.
(** [sanitizeText]: entity decoding and tag stripping of a plain-text
    field, a function of the text. *)
Variable sanitizeText : string -> string.
(** [environment.createEntry(contentType, { fields })]: [entry.sys.id]. *)
Variable createEntry : string -> Fields -> Result string.
(** [entry.publish()] of the entry with this id. *)
Variable publish : string -> Result unit.
(** [parseInt(process.env.BATCH_SIZE) || 5], a positive number. *)
Variable BATCH_SIZE : positive.
(** The content of [asset-map.json]. *)
Variable assetMap : gmap string string.

Definition callCreateEntry (contentType : string) (fields : Fields) : Attempt string :=
  fun log => (createEntry contentType fields, (log ++ [CreateEntry contentType fields])%list).

Definition callPublish (id : string) : Attempt unit :=
  fun log => (publish id, (log ++ [Publish id])%list).

(** [const entry = await environment.createEntry(..); await entry.publish();]
    and then [entry.sys.id]. *)
Definition createAndPublish (contentType : string) (fields : Fields) : Attempt string :=
  await id <- callCreateEntry contentType fields in
  await published <- callPublish id in
  ret id.

(** [transformer.transform(html || '')]: the transformer holds [assetMap]
    and the [entryMap] object of the run as it is at the call, with the
    default options. *)
Definition richText (m : gmap string string) (html : string) : RichNode :=
  fst (transform assetMap m false parse stripShortcodes preprocessGutenbergBlocks
         true (JsString html)).

(** [m[key]] when truthy. *)
Definition lookupTruthy (m : gmap string string) (key : string) : option string :=
  match m !! key with
  | Some v => if Js.truthy v then Some v else None
  | None => None
  end.

(** [ids.map(id => entryMap[prefix + id]).filter(Boolean)] *)
Definition resolveIds (m : gmap string string) (prefix : string) (ids : list Z)
  : list string :=
  flat_map (fun id => optList (lookupTruthy m (mapKey prefix id))) ids.

(** [n ? assetMap[n] : null] when truthy. *)
Definition featuredImage (n : Z) : option string :=
  if n =? 0 then None else lookupTruthy assetMap (Js.numToString n).

Definition optField (name : string) (o : option FieldValue) : Fields :=
  match o with Some v => [(name, v)] | None => [] end.

Definition seoFields (y : option Yoast) : Fields :=
  match y with
  | Some yoast =>
      (optField "seoTitle"
         (if Js.truthy (yoast_title yoast)
          then Some (FString (yoast_title yoast)) else None)
       ++ optField "seoDescription"
         (if Js.truthy (yoast_description yoast)
          then Some (FString (Js.substring0 160 (yoast_description yoast))) else None))%list
  | None => []
  end.

(** The parent link of a category or a page:
    [x.parent && entryMap[prefix + x.parent]]. *)
Definition parentField (m : gmap string string) (prefix : string) (parent : Z) : Fields :=
  if parent =? 0 then []
  else optField "parent" (createLink <$> lookupTruthy m (mapKey prefix parent)).

(** *** The [try] blocks of the five loops *)

Definition authorFields (user : User) : Fields :=
  [("name", FString (user_name user));
   ("slug", FString (user_slug user));
   ("bio", FString (sanitizeText (user_description user)));
   ("wpId", FNumber (user_id user))].

Definition tryAuthor (user : User) (m : gmap string string) : Attempt string :=
  createAndPublish "author" (authorFields user).

Definition categoryFields (cat : Category) (m : gmap string string) : Fields :=
  ([("name", FString (sanitizeText (cat_name cat)));
    ("slug", FString (cat_slug cat));
    ("description", FString (sanitizeText (cat_description cat)));
    ("wpId", FNumber (cat_id cat))]
   ++ parentField m "cat_" (cat_parent cat))%list.

Definition tryCategory (cat : Category) (m : gmap string string) : Attempt string :=
  createAndPublish "category" (categoryFields cat m).

Definition tagFields (tag : Tag) : Fields :=
  [("name", FString (sanitizeText (tag_name tag)));
   ("slug", FString (tag_slug tag));
   ("wpId", FNumber (tag_id tag))].

Definition tryTag (tag : Tag) (m : gmap string string) : Attempt string :=
  createAndPublish "tag" (tagFields tag).

Definition linksField (name : string) (ids : list string) : Fields :=
  match ids with
  | [] => []
  | _ => [(name, FLinks (map (fun id => ("Entry", id)) ids))]
  end.

Definition postFields (post : Post) (m : gmap string string) : Fields :=
  let categoryLinks := resolveIds m "cat_" (post_categories post) in
  let tagLinks := resolveIds m "tag_" (post_tags post) in
  let authorId := lookupTruthy m (mapKey "author_" (post_author post)) in
  let featuredImageId := featuredImage (post_featured_media post) in
  let richTextContent := richText m (post_content post) in
  ([("title", FString (sanitizeText (post_title post)));
    ("slug", FString (post_slug post));
    ("publishDate", FString (post_date post));
    ("modifiedDate", FString (post_modified post));
    ("excerpt", FString (sanitizeText (post_excerpt post)));
    ("content", FRichText richTextContent);
    ("wpId", FNumber (post_id post))]
   ++ linksField "categories" categoryLinks
   ++ linksField "tags" tagLinks
   ++ optField "author" (createLink <$> authorId)
   ++ optField "featuredImage" (createAssetLink <$> featuredImageId)
   ++ seoFields (post_yoast post))%list.

Definition tryPost (post : Post) (m : gmap string string) : Attempt string :=
  createAndPublish "blogPost" (postFields post m).

Definition sectionTitle (page : Page) : string :=
  let t := sanitizeText (page_title page) in
  if Js.truthy t then t else "Content".

Definition sectionFields (page : Page) (m : gmap string string) : Fields :=
  [("internalTitle", FString (sectionTitle page +:+ " (Content)"));
   ("content", FRichText (richText m (page_content page)));
   ("wpId", FNumber (page_id page))].

Definition pageTemplate (page : Page) : string :=
  if Dom.tagIn (page_template page) ["default"; "full-width"; "sidebar"; "landing"]
  then page_template page else "default".

Definition pageFields (page : Page) (m : gmap string string) (sectionId : string) : Fields :=
  ([("title", FString (sectionTitle page));
    ("slug", FString (page_slug page));
    ("sections", FLinks [("Entry", sectionId)]);
    ("template", FString (pageTemplate page));
    ("wpId", FNumber (page_id page))]
   ++ parentField m "page_" (page_parent page)
   ++ optField "featuredImage" (createAssetLink <$> featuredImage (page_featured_media page))
   ++ seoFields (page_yoast page))%list.

Definition tryPage (page : Page) (m : gmap string string) : Attempt string :=
  await sectionId <- createAndPublish "richTextSection" (sectionFields page m) in
  createAndPublish "page" (pageFields page m sectionId).

(** *** One iteration of a loop

    [if (entryMap[mapKey]) { skipped++; continue; }], then the [try]
    block, whose last statements are [entryMap[mapKey] = entry.sys.id] and
    [migrated++], and the [catch] block with [failed++]. *)
Definition migrateEntity (f : Family) (key : string)
    (attempt : gmap string string -> Attempt string) (st : State) : State :=
  if Js.truthy_opt (entryMap st !! key) then updStats f incSkipped st
  else
    match attempt (entryMap st) (calls st) with
    | (Ok id, log) =>
        {| entryMap := <[key := id]> (entryMap st);
           stats := setStats f (incMigrated (getStats f (stats st))) (stats st);
           calls := log;
           saved := saved st |}
    | (Err _, log) =>
        {| entryMap := entryMap st;
           stats := setStats f (incFailed (getStats f (stats st))) (stats st);
           calls := log;
           saved := saved st |}
    end.

Definition migrateUser (st : State) (user : User) : State :=
  migrateEntity Authors (mapKey "author_" (user_id user)) (tryAuthor user) st.
Definition migrateCategory (st : State) (cat : Category) : State :=
  migrateEntity Categories (mapKey "cat_" (cat_id cat)) (tryCategory cat) st.
Definition migrateTag (st : State) (tag : Tag) : State :=
  migrateEntity Tags (mapKey "tag_" (tag_id tag)) (tryTag tag) st.
Definition migratePost (st : State) (post : Post) : State :=
  migrateEntity Posts (mapKey "post_" (post_id post)) (tryPost post) st.
Definition migratePage (st : State) (page : Page) : State :=
  migrateEntity Pages (mapKey "page_" (page_id page)) (tryPage page) st.

(** *** The five loops *)

Definition migrateAuthors (l : list User) (st : State) : State :=
  saveProgress (foldl migrateUser (updStats Authors (withTotal (List.length l)) st) l).

Definition migrateCategories (l : list Category) (st : State) : State :=
  saveProgress
    (foldl migrateCategory (updStats Categories (withTotal (List.length l)) st)
       (sortByParent cat_parent l)).

Definition migrateTags (l : list Tag) (st : State) : State :=
  saveProgress (foldl migrateTag (updStats Tags (withTotal (List.length l)) st) l).

(** [for (let i = 0; i < posts.length; i += BATCH_SIZE)]: the batch is
    [posts.slice(i, i + BATCH_SIZE)], the first [BATCH_SIZE] of the posts
    from [i] on; [saveProgress()] follows each batch. *)
Equations? migratePostBatches (l : list Post) (st : State) : State
  by wf (List.length l) lt :=
  migratePostBatches [] st := st;
  migratePostBatches (post :: rest) st :=
    migratePostBatches (drop (Pos.to_nat BATCH_SIZE) (post :: rest))
      (saveProgress (foldl migratePost st (take (Pos.to_nat BATCH_SIZE) (post :: rest)))).
Proof.
  pose proof (Pos2Nat.is_pos BATCH_SIZE). rewrite length_drop. simpl. lia.
Qed.

Definition migratePosts (l : list Post) (st : State) : State :=
  migratePostBatches l (updStats Posts (withTotal (List.length l)) st).

Definition migratePages (l : list Page) (st : State) : State :=
  saveProgress
    (foldl migratePage (updStats Pages (withTotal (List.length l)) st)
       (sortByParent page_parent l)).

Definition initialStats : AllStats :=
  {| s_authors := zeroStats; s_categories := zeroStats; s_tags := zeroStats;
     s_posts := zeroStats; s_pages := zeroStats |}.

(** The state at the start: [entryMap] as read from [entry-map.json]
    (empty when the file is absent). *)
Definition initialState (entryMap0 : gmap string string) : State :=
  {| entryMap := entryMap0; stats := initialStats; calls := []; saved := entryMap0 |}.

(** [migrateContent()], from the loaded data on. *)
Definition migrateContent (wpData : WpData) (entryMap0 : gmap string string) : State :=
  let st1 := migrateAuthors (users wpData) (initialState entryMap0) in
  let st2 := migrateCategories (categories wpData) st1 in
  let st3 := migrateTags (tags wpData) st2 in
  let st4 := migratePosts (posts wpData) st3 in
  migratePages (pages wpData) st4.

End Orchestrator.

End Migration.

(** ** The clean-up passes of [transform]

    [stripShortcodes] and [preprocessGutenbergBlocks] are chains of
    [html.replace(re, replacement)] with the [g] flag. Each pattern is
    written as the function that tries it at the head of a string and gives
    the replacement and what follows the match; no pattern matches the
    empty string. *)

Module Passes.

(** [s.replace(re, replacement)] with the [g] flag: from the left, where
    the pattern matches the match is replaced and the scan goes on after
    it, elsewhere the code unit is kept. [skip] counts the code units that
    are still inside the match that was found. *)
Fixpoint replaceFrom (anchored : string -> option (string * string)) (skip : nat)
    (s : string) : string :=
  match s with
  | EmptyString => EmptyString
  | String c r =>
      match skip with
      | S k => replaceFrom anchored k r
      | O =>
          match anchored s with
          | Some (replacement, rest) =>
              replacement
              +:+ replaceFrom anchored (String.length r - String.length rest) r
          | None => String c (replaceFrom anchored O r)
          end
      end
  end.

Definition replaceAll (anchored : string -> option (string * string)) (s : string)
  : string :=
  replaceFrom anchored 0 s.

(** The first [c] of [s]: what is before it and what is after it. A class
    [[^c]*] or [[^c]+] followed by [c] in a pattern matches up to the first
    [c]: a shorter match would be followed by another code unit. *)
Fixpoint breakOn (c : ascii) (s : string) : option (string * string) :=
  match s with
  | EmptyString => None
  | String x r =>
      if Ascii.eqb x c then Some (EmptyString, r)
      else
        match breakOn c r with
        | Some (before, after) => Some (String x before, after)
        | None => None
        end
  end.

(** The [i] flag, for the comparison with a code unit below 128: a-z and
    A-Z are the same, and no code unit from 128 on is the same as one
    below 128. *)
Definition foldCase (c : ascii) : ascii :=
  let n := Js.code c in
  if (97 <=? n)%N && (n <=? 122)%N then ascii_of_N (n - 32) else c.

Fixpoint stripPrefixCI (p s : string) : option string :=
  match p, s with
  | EmptyString, _ => Some s
  | String a p', String b s' =>
      if Ascii.eqb (foldCase a) (foldCase b) then stripPrefixCI p' s' else None
  | String _ _, EmptyString => None
  end.

(** [.] matches every code unit but the line terminators. *)
Definition isLineTerminator (c : ascii) : bool :=
  let n := Js.code c in (n =? 10)%N || (n =? 13)%N.

(** [(.*?)] followed by [closing]: the shortest run of [.] after which
    [closing] matches; the run is the capture. *)
Fixpoint lazyUntil (closing : string -> option string) (s : string)
  : option (string * string) :=
  match closing s with
  | Some rest => Some (EmptyString, rest)
  | None =>
      match s with
      | EmptyString => None
      | String c r =>
          if isLineTerminator c then None
          else
            match lazyUntil closing r with
            | Some (content, rest) => Some (String c content, rest)
            | None => None
            end
      end
  end.

(** [\w]: a letter, a digit or the underscore. *)
Definition isWordChar (c : ascii) : bool :=
  let n := Js.code c in
  ((48 <=? n)%N && (n <=? 57)%N) || ((65 <=? n)%N && (n <=? 90)%N)
  || ((97 <=? n)%N && (n <=? 122)%N) || (n =? 95)%N.

(** The longest run of [\w] at the head of [s]. *)
Fixpoint wordRun (s : string) : string :=
  match s with
  | String c r => if isWordChar c then String c (wordRun r) else EmptyString
  | EmptyString => EmptyString
  end.

Fixpoint lastChar (s : string) : option ascii :=
  match s with
  | EmptyString => None
  | String c EmptyString => Some c
  | String _ r => lastChar r
  end.

(** [/\[caption[^\]]*\](.*?)\[\/caption\]/gi], replaced by [$1]. *)
Definition anchoredCaption (s : string) : option (string * string) :=
  match stripPrefixCI "[caption" s with
  | Some r =>
      match breakOn "]" r with
      | Some (_, body) => lazyUntil (stripPrefixCI "[/caption]") body
      | None => None
      end
  | None => None
  end.

(** [/\[[^\]]+\/\]/g], replaced by the empty string: the class takes at
    least one code unit, and the slash is the last before the first [\]]. *)
Definition anchoredSelfClosing (s : string) : option (string * string) :=
  match s with
  | String "[" r =>
      match breakOn "]" r with
      | Some (run, rest) =>
          if (2 <=? String.length run)%nat
             && match lastChar run with Some c => Ascii.eqb c "/" | None => false end
          then Some (EmptyString, rest) else None
      | None => None
      end
  | _ => None
  end.

(** [\[\/\1\]] for the capture [name]; the backreference follows the [i]
    flag. *)
Definition closingTag (name : string) (s : string) : option string :=
  match Js.stripPrefix "[/" s with
  | Some r =>
      match stripPrefixCI name r with
      | Some r' => Js.stripPrefix "]" r'
      | None => None
      end
  | None => None
  end.

(** The backtracking of [(\w+)]: the capture is the longest prefix of the
    run of [\w], of [k] code units at most, for which the rest of the
    pattern matches. *)
Fixpoint tryCaptures (word body : string) (k : nat) : option (string * string) :=
  match k with
  | O => None
  | S k' =>
      match lazyUntil (closingTag (Js.substring0 k word)) body with
      | Some found => Some found
      | None => tryCaptures word body k'
      end
  end.

(** [/\[(\w+)[^\]]*\](.*?)\[\/\1\]/gi], replaced by [$2]. *)
Definition anchoredPair (s : string) : option (string * string) :=
  match s with
  | String "[" r =>
      let word := wordRun r in
      match breakOn "]" r with
      | Some (_, body) => tryCaptures word body (String.length word)
      | None => None
      end
  | _ => None
  end.

(** [/\[[^\]]+\]/g], replaced by the empty string. *)
Definition anchoredAny (s : string) : option (string * string) :=
  match s with
  | String "[" r =>
      match breakOn "]" r with
      | Some (String _ _, rest) => Some (EmptyString, rest)
      | _ => None
      end
  | _ => None
  end.

(** [stripShortcodes(html)] *)
Definition stripShortcodes (html : string) : string :=
  let html1 := replaceAll anchoredCaption html in
  let html2 := replaceAll anchoredSelfClosing html1 in
  let html3 := replaceAll anchoredPair html2 in
  replaceAll anchoredAny html3.

(** [-->] after a run of [[^>]]: the first [-->] of [s], if no [>] comes
    before it. *)
Fixpoint untilCommentEnd (s : string) : option string :=
  match s with
  | EmptyString => None
  | String c r =>
      match Js.stripPrefix "-->" s with
      | Some rest => Some rest
      | None => if Ascii.eqb c ">" then None else untilCommentEnd r
      end
  end.

(** [/<!--\s*wp:[^>]+-->/g] and [/<!--\s*\/wp:[^>]+-->/g], replaced by the
    empty string; [keyword] is [wp:] or [/wp:]. [\s*] takes all the white
    space, and [[^>]+] at least one code unit before [-->]. *)
Definition anchoredBlock (keyword : string) (s : string) : option (string * string) :=
  match Js.stripPrefix "<!--" s with
  | Some r =>
      match Js.stripPrefix keyword (Js.trimStart r) with
      | Some (String c r') =>
          if Ascii.eqb c ">" then None
          else
            match untilCommentEnd r' with
            | Some rest => Some (EmptyString, rest)
            | None => None
            end
      | _ => None
      end
  | None => None
  end.

(** [preprocessGutenbergBlocks(html)] *)
Definition preprocessGutenbergBlocks (html : string) : string :=
  replaceAll (anchoredBlock "/wp:") (replaceAll (anchoredBlock "wp:") html).

End Passes.

(** *** Vocabulary of the clean-up passes *)

(** A pattern consumes at least one code unit, and gives what follows the
    match. *)
Definition proper (anchored : string -> option (string * string)) : Prop :=
  forall s replacement rest,
    anchored s = Some (replacement, rest) -> exists c a, s = String c (a +:+ rest).

(** The pattern matches nowhere in [s]. *)
Definition matchesNowhere (anchored : string -> option (string * string)) (s : string)
  : Prop :=
  forall before rest, s = before +:+ rest -> anchored rest = None.

(** The code unit [c] occurs in [s]. *)
Fixpoint contains (c : ascii) (s : string) : bool :=
  match s with
  | EmptyString => false
  | String x r => Ascii.eqb x c || contains c r
  end.

(** The string [p] occurs in [s]. *)
Definition occurs (p s : string) : bool :=
  match Js.search (Js.stripPrefix p) s with
  | Some _ => true
  | None => false
  end.

(** ** Vocabulary of the properties *)

Definition contentOf (n : RichNode) : list RichNode :=
  match n with
  | Block _ _ content => content
  | Text _ _ => []
  end.

(** The node types that never have children. *)
Definition childless (t : NodeType) : bool :=
  match t with
  | HR | EMBEDDED_ASSET => true
  | _ => false
  end.

Definition isEmpty {A} (l : list A) : bool :=
  match l with [] => true | _ => false end.

(** Every node with a [content] array has a non-empty one, unless its type
    is exempt. *)
Fixpoint wellFormedExcept (exempt : NodeType -> bool) (n : RichNode) : bool :=
  match n with
  | Text _ _ => true
  | Block t _ content =>
      (exempt t || negb (isEmpty content)) && forallb (wellFormedExcept exempt) content
  end.

(** Document validity: non-empty [content] everywhere, the childless types
    apart. *)
Definition wellFormed (n : RichNode) : bool := wellFormedExcept childless n.

(** The childless types and the blockquote. *)
Definition childlessOrQuote (t : NodeType) : bool :=
  match t with
  | HR | EMBEDDED_ASSET | QUOTE => true
  | _ => false
  end.

(** Validity of all the nodes but the blockquotes. *)
Definition wellFormedButQuote (n : RichNode) : bool :=
  wellFormedExcept childlessOrQuote n.

Definition wellFormedProcessed (p : Processed) : bool :=
  match p with
  | PNull => true
  | PNode n => wellFormedButQuote n
  | PArray l => forallb wellFormedButQuote l
  end.

Definition wellFormedOption (o : option RichNode) : bool :=
  match o with
  | Some n => wellFormedButQuote n
  | None => true
  end.

(** The text runs of a tree, in order, with their marks. *)
Fixpoint textRuns (n : RichNode) : list (string * list Mark) :=
  match n with
  | Text value marks => [(value, marks)]
  | Block _ _ content => flat_map textRuns content
  end.

(** Set semantics of marks: no text run of the tree has a mark twice. *)
Definition marksDeduplicated (n : RichNode) : Prop :=
  Forall (fun run => NoDup (snd run)) (textRuns n).

(** Text runs and the two link nodes are the inline nodes. *)
Definition isInline (n : RichNode) : bool :=
  match n with
  | Text _ _ => true
  | Block HYPERLINK _ _ | Block ENTRY_HYPERLINK _ _ => true
  | Block _ _ _ => false
  end.

(** [inner] wrapped in elements with the tag names [tags], outermost first. *)
Fixpoint nestIn (tags : list string) (inner : Node) : Node :=
  match tags with
  | [] => inner
  | t :: rest => Element t [] [nestIn rest inner]
  end.


(** How the target of an anchor is decided from [href] and the entry map:
    [Some id] for an entry link to [id], [None] for an external link. *)
Inductive LinkResolution (entryMap : gmap string string) (href : string)
  : option string -> Prop :=
  | link_resolved n id :
      extractWpPostIdFromUrl href = Some n -> n <> 0 ->
      entryMap !! ("post_" +:+ Js.numToString n) = Some id -> id <> "" ->
      LinkResolution entryMap href (Some id)
  | link_no_param :
      extractWpPostIdFromUrl href = None ->
      LinkResolution entryMap href None
  | link_zero :
      extractWpPostIdFromUrl href = Some 0 ->
      LinkResolution entryMap href None
  | link_unmapped n :
      extractWpPostIdFromUrl href = Some n ->
      entryMap !! ("post_" +:+ Js.numToString n) = None ->
      LinkResolution entryMap href None
  | link_empty_id n :
      extractWpPostIdFromUrl href = Some n ->
      entryMap !! ("post_" +:+ Js.numToString n) = Some "" ->
      LinkResolution entryMap href None.

(** The three strategies for the media id of an image, in priority order:
    the [data-id] attribute, the class [wp-image-N], a numeric segment [/N/]
    of the URL. *)
Definition dataIdStrategy (imgNode : Node) : option Z :=
  match Dom.getAttribute imgNode "data-id" with
  | Some d => Js.parseInt d
  | None => None
  end.

Definition classStrategy (imgNode : Node) : option Z :=
  match Js.reWpImage (Js.or_empty (Dom.getAttribute imgNode "class")) with
  | Some digits => Js.parseInt digits
  | None => None
  end.

Definition urlStrategy (imgNode : Node) : option Z :=
  match Js.reUrlSegment (Js.or_empty (Dom.getAttribute imgNode "src")) with
  | Some digits => Js.parseInt digits
  | None => None
  end.

Definition strategies (imgNode : Node) : list (option Z) :=
  [dataIdStrategy imgNode; classStrategy imgNode; urlStrategy imgNode].

(** The first strategy that gives a usable id (a number other than 0). *)
Fixpoint firstFound (l : list (option Z)) : option Z :=
  match l with
  | [] => None
  | Some n :: rest => if n =? 0 then firstFound rest else Some n
  | None :: rest => firstFound rest
  end.

(** How an image is resolved: [Some id] for the asset [id], [None] for the
    text fallback. *)
Inductive AssetResolution (assetMap : gmap string string) (imgNode : Node)
  : option string -> Prop :=
  | asset_resolved n id :
      firstFound (strategies imgNode) = Some n ->
      assetMap !! Js.numToString n = Some id -> id <> "" ->
      AssetResolution assetMap imgNode (Some id)
  | asset_no_id :
      firstFound (strategies imgNode) = None ->
      AssetResolution assetMap imgNode None
  | asset_unmapped n :
      firstFound (strategies imgNode) = Some n ->
      assetMap !! Js.numToString n = None ->
      AssetResolution assetMap imgNode None
  | asset_empty_id n :
      firstFound (strategies imgNode) = Some n ->
      assetMap !! Js.numToString n = Some "" ->
      AssetResolution assetMap imgNode None.

(** What a top-level node of the parsed HTML becomes when it is inline
    content: a text node that is not blank, a line break, an anchor. *)
Inductive TopLevelInline (entryMap : gmap string string) : Node -> RichNode -> Prop :=
  | top_text text :
      Js.truthy (Js.trim text) = true ->
      TopLevelInline entryMap (TextNode text) (Text text [])
  | top_br tagName attrs childNodes :
      Js.toLowerCase tagName = "br" ->
      TopLevelInline entryMap (Element tagName attrs childNodes) (Text newline [])
  | top_anchor tagName attrs childNodes :
      Js.toLowerCase tagName = "a" ->
      TopLevelInline entryMap (Element tagName attrs childNodes)
        (createHyperlink entryMap (Element tagName attrs childNodes)).

(** The marks of the formatting elements around a text, innermost first. *)
Definition marksOfTags (tags : list string) : list Mark :=
  rev (omap (fun t => getMarkType (Js.toLowerCase t)) tags).

(** No character of the string is [?] or [&]. *)
Fixpoint noParamStart (s : string) : bool :=
  match s with
  | EmptyString => true
  | String c r => negb (Ascii.eqb c "?" || Ascii.eqb c "&") && noParamStart r
  end.



(** *** Vocabulary of the migration properties *)

Module MigrationSpec.
Import Migration.

(** The map has a destination id under the key: [entryMap[mapKey]] is
    truthy. *)
Definition present (m : gmap string string) (key : string) : Prop :=
  Js.truthy_opt (m !! key) = true.

(** Every entity of the export has its mapping. *)
Definition fullyPopulated (wpData : WpData) (m : gmap string string) : Prop :=
  Forall (fun user => present m (mapKey "author_" (user_id user))) (users wpData)
  /\ Forall (fun cat => present m (mapKey "cat_" (cat_id cat))) (categories wpData)
  /\ Forall (fun tag => present m (mapKey "tag_" (tag_id tag))) (tags wpData)
  /\ Forall (fun post => present m (mapKey "post_" (post_id post))) (posts wpData)
  /\ Forall (fun page => present m (mapKey "page_" (page_id page))) (pages wpData).

Definition familySize (f : Family) (wpData : WpData) : nat :=
  match f with
  | Authors => List.length (users wpData)
  | Categories => List.length (categories wpData)
  | Tags => List.length (tags wpData)
  | Posts => List.length (posts wpData)
  | Pages => List.length (pages wpData)
  end.

Definition addSkipped (n : nat) (s : Stats) : Stats :=
  {| total := total s; migrated := migrated s; skipped := (n + skipped s)%nat;
     failed := failed s |}.

(** The counters of a family all of whose [n] entities were skipped. *)
Definition skippedAll (n : nat) : Stats :=
  {| total := n; migrated := 0; skipped := n; failed := 0 |}.

(** [failed++] of one family. *)
Definition bumpFailed (f : Family) (a : AllStats) : AllStats :=
  setStats f (incFailed (getStats f a)) a.

(** [total] one more, for the same counters. *)
Definition bumpTotal (f : Family) (a : AllStats) : AllStats :=
  setStats f (withTotal (S (total (getStats f a))) (getStats f a)) a.

(** The state of a failed iteration: only [failed] and the log change. *)
Definition failedState (f : Family) (log : list Call) (st : State) : State :=
  {| entryMap := entryMap st; stats := bumpFailed f (stats st);
     calls := log; saved := saved st |}.

(** The [try] block of an entity throws in the state [st], and the entity
    has no mapping there. *)
Definition failsIn (key : string) (attempt : gmap string string -> Attempt string)
    (st : State) : Prop :=
  Js.truthy_opt (entryMap st !! key) = false
  /\ exists message, fst (attempt (entryMap st) (calls st)) = Err message.

(** The states of two runs that differ by one failed iteration: the same
    map, and the same counters but for one more [failed]. *)
Definition oneMoreFailed (f : Family) (a b : State) : Prop :=
  entryMap a = entryMap b /\ stats a = bumpFailed f (stats b).

(** Two states with the same map, counters and log; they may differ in what
    was saved to [entry-map.json]. *)
Definition sameRun (a b : State) : Prop :=
  entryMap a = entryMap b /\ stats a = stats b /\ calls a = calls b.

(** The answer of a [try] block does not depend on the log of the requests
    made before it. *)
Definition logIndependent {A} (m : Attempt A) : Prop :=
  forall log1 log2, fst (m log1) = fst (m log2).

End MigrationSpec.

(** *** Vocabulary of the further properties of the migration *)

Module MigrationMoreSpec.
Import Migration.

(** The entities of a family that an iteration has dealt with. *)
Definition processedCount (s : Stats) : nat :=
  (migrated s + skipped s + failed s)%nat.

(** The prefixes of the keys of the entry map. *)
Definition familyPrefixes : list string :=
  ["author_"; "cat_"; "tag_"; "post_"; "page_"].

(** The values the content type [page] allows for [template]
    ([validations: [{ in: [...] }]] in [02-create-content-types.js]). *)
Definition allowedTemplates : list string :=
  ["default"; "full-width"; "sidebar"; "landing"].

(** A destination that accepts every request and gives a non-empty id. *)
Definition alwaysSucceeds (createEntry : string -> Fields -> Result string)
    (publish : string -> Result unit) : Prop :=
  (forall contentType fields, exists id, createEntry contentType fields = Ok id /\ id <> "")
  /\ (forall id, publish id = Ok tt).

(** The requests a run can make at most: two for an author, a category, a
    tag or a post, four for a page. *)
Definition requestBudget (wpData : WpData) : nat :=
  (2 * (List.length (users wpData) + List.length (categories wpData)
        + List.length (tags wpData) + List.length (posts wpData))
   + 4 * List.length (pages wpData))%nat.

End MigrationMoreSpec.

(** *** The schema of the documents *)

Definition nonEmpty {A} (l : list A) : bool := negb (isEmpty l).

(** An inline node: a text run, or a link with a target and with inline
    nodes as its non-empty content. *)
Fixpoint inlineShape (n : RichNode) : bool :=
  match n with
  | Text _ _ => true
  | Block HYPERLINK (Uri _) content => nonEmpty content && forallb inlineShape content
  | Block ENTRY_HYPERLINK (Target linkType id) content =>
      String.eqb linkType "Entry" && Js.truthy id
      && nonEmpty content && forallb inlineShape content
  | Block _ _ _ => false
  end.

Definition paragraphShape (n : RichNode) : bool :=
  match n with
  | Block PARAGRAPH NoData content => nonEmpty content && forallb inlineShape content
  | _ => false
  end.

(** A heading of level 2, 3 or 4. *)
Definition headingShape (n : RichNode) : bool :=
  match n with
  | Block (HEADING level) NoData content =>
      ((level =? 2)%nat || (level =? 3)%nat || (level =? 4)%nat)
      && nonEmpty content && forallb inlineShape content
  | _ => false
  end.

Definition isListType (t : NodeType) : bool :=
  match t with UL_LIST | OL_LIST => true | _ => false end.

(** A list: list items, each of them a paragraph followed by lists. *)
Fixpoint listShape (n : RichNode) : bool :=
  match n with
  | Block t NoData items =>
      isListType t && nonEmpty items
      && forallb (fun item =>
           match item with
           | Block LIST_ITEM NoData (first :: rest) =>
               paragraphShape first && forallb listShape rest
           | _ => false
           end) items
  | _ => false
  end.

Definition listItemShape (item : RichNode) : bool :=
  match item with
  | Block LIST_ITEM NoData (first :: rest) => paragraphShape first && forallb listShape rest
  | _ => false
  end.

(** A blockquote: paragraphs only. *)
Definition quoteShape (n : RichNode) : bool :=
  match n with
  | Block QUOTE NoData content => forallb paragraphShape content
  | _ => false
  end.

Definition ruleShape (n : RichNode) : bool :=
  match n with
  | Block HR NoData [] => true
  | _ => false
  end.

(** An embedded asset: a link to an asset with a non-empty id. *)
Definition assetShape (n : RichNode) : bool :=
  match n with
  | Block EMBEDDED_ASSET (Target linkType id) [] =>
      String.eqb linkType "Asset" && Js.truthy id
  | _ => false
  end.

Definition blockShape (n : RichNode) : bool :=
  paragraphShape n || headingShape n || listShape n || quoteShape n
  || ruleShape n || assetShape n.

(** A child of the document: a block, or an inline node. *)
Definition topShape (n : RichNode) : bool := blockShape n || inlineShape n.

Definition documentShape (n : RichNode) : bool :=
  match n with
  | Block DOCUMENT NoData content => nonEmpty content && forallb topShape content
  | _ => false
  end.

Definition processedShape (p : Processed) : bool :=
  match p with
  | PNull => true
  | PNode n => topShape n
  | PArray l => forallb topShape l
  end.

Definition listShapeOption (o : option RichNode) : bool :=
  match o with Some n => listShape n | None => true end.

(** *** Text, marks and warnings of the transformer *)

(** The text of a list of nodes: the values of its text runs, in order. *)
Definition plainText (l : list RichNode) : string :=
  String.concat "" (map fst (flat_map textRuns l)).

(** The marks the loop of [processInlineContent] gives. *)
Definition inlineMarks : list Mark := [bold; italic; underline; code].

(** The elements for which [processNode] or [createEmbeddedAsset] pushes a
    warning. *)
Definition noisyTags : list string := ["table"; "img"; "video"; "audio"; "iframe"].

Definition noisy (n : Node) : bool := Dom.tagIn (Dom.tag n) noisyTags.

(** The number of these elements among [nodes] and below them:
    [root.querySelectorAll('table, img, video, audio, iframe').length] for
    the root whose child nodes are [nodes]. *)
Definition noisyCount (nodes : list Node) : nat :=
  List.length (List.filter noisy (flat_map (fun c => c :: Dom.descendants c) nodes)).

(** * Properties *)

(** ** The JavaScript primitives on examples *)

Example parseInt_decimal : Js.parseInt "  42px" = Some 42.
Proof. reflexivity. Qed.

Example parseInt_hex : Js.parseInt "-0x1A" = Some (-26).
Proof. reflexivity. Qed.

Example parseInt_nan : Js.parseInt "abc" = None.
Proof. reflexivity. Qed.

Example reWpImage_ex : Js.reWpImage "alignleft wp-image-1234 size-full" = Some "1234".
Proof. reflexivity. Qed.

Example reUrlSegment_ex :
  Js.reUrlSegment "https://site/wp-content/uploads/2020/05/a.jpg" = Some "2020".
Proof. reflexivity. Qed.

Example rePostParam_ex : Js.rePostParam "https://site/?x=1&p=42#top" = Some "42".
Proof. reflexivity. Qed.

Example trim_ex : Js.trim "  a b  " = "a b".
Proof. reflexivity. Qed.

Lemma truthy_true (s : string) : Js.truthy s = true <-> s <> "".
Proof.
  unfold Js.truthy. destruct (String.eqb_spec s ""); simpl; split; congruence.
Qed.

Lemma truthy_false (s : string) : Js.truthy s = false <-> s = "".
Proof.
  unfold Js.truthy. destruct (String.eqb_spec s ""); simpl; split; congruence.
Qed.

(** ** Inline content *)

Section InlineFacts.

Variable entryMap : gmap string string.

(** The loop body of [processInlineContent] in the shape of the source:
    the calls on the child are calls of [wrapWithMark], [createHyperlink]
    and [processInlineContent]. *)
Lemma processInlineContent_child excl tagName attrs childNodes :
  let child := Element tagName attrs childNodes in
  let tag := Dom.tag child in
  inlineChild entryMap excl child =
    if excl && (String.eqb tag "ul" || String.eqb tag "ol") then []
    else if Dom.tagIn tag inlineMarkTags
         then wrapWithMark entryMap child (getMarkType tag)
    else if String.eqb tag "a" then [createHyperlink entryMap child]
    else if String.eqb tag "br" then [createTextNode newline]
    else if String.eqb tag "img" then []
    else processInlineContent entryMap child excl.
Proof.
  simpl. unfold wrapWithMark, wrapContent, createHyperlink, processInlineContent.
  simpl. destruct (getMarkType _); reflexivity.
Qed.

Lemma ensureTextNode_nonempty (l : list RichNode) : ensureTextNode l <> [].
Proof. destruct l; simpl; congruence. Qed.

Lemma ensureTextNode_id (l : list RichNode) : l <> [] -> ensureTextNode l = l.
Proof. destruct l; simpl; congruence. Qed.

(** [processInlineContent] never returns the empty array. *)
Lemma processInlineContent_nonempty node excl :
  processInlineContent entryMap node excl <> [].
Proof. apply ensureTextNode_nonempty. Qed.

Lemma buildHyperlink_content href content :
  content <> [] -> contentOf (buildHyperlink entryMap href content) = content.
Proof.
  intros Hne. unfold buildHyperlink.
  destruct content as [|x l]; [congruence|].
  repeat (match goal with |- context [match ?c with _ => _ end] => destruct c end;
          simpl; try reflexivity).
Qed.

(** The [content] of the node of an anchor is its inline content as it is:
    the branch [if (!content.length)] of [createHyperlink] is never taken. *)
Lemma createHyperlink_content node :
  contentOf (createHyperlink entryMap node) = processInlineContent entryMap node false.
Proof.
  unfold createHyperlink. apply buildHyperlink_content, processInlineContent_nonempty.
Qed.

(** [wrapWithMark] maps [addMark] over the inline content of the node. *)
Lemma wrapWithMark_map node m :
  wrapWithMark entryMap node (Some m)
  = map (addMark m) (processInlineContent entryMap node false).
Proof. reflexivity. Qed.

Lemma addMark_not_text m item : isText item = false -> addMark m item = item.
Proof. destruct item; simpl; congruence. Qed.

Lemma getMarkType_inline tag :
  Dom.tagIn tag inlineMarkTags = true -> exists m, getMarkType tag = Some m.
Proof.
  unfold Dom.tagIn, inlineMarkTags, getMarkType. simpl.
  repeat (destruct (String.eqb tag _); [eexists; reflexivity|]).
  simpl. discriminate.
Qed.

End InlineFacts.

Lemma inlineChild_anchor entryMap excl a :
  Dom.tag a = "a" -> inlineChild entryMap excl a = [createHyperlink entryMap a].
Proof.
  destruct a as [t|t|tagName attrs cs]; simpl; try discriminate.
  intros Htag. pose proof (processInlineContent_child entryMap excl tagName attrs cs) as H.
  simpl in H. rewrite H, Htag. simpl. rewrite andb_false_r. reflexivity.
Qed.

Lemma in_ensureTextNode (x : RichNode) l : In x l -> In x (ensureTextNode l).
Proof. destruct l; simpl; [tauto | auto]. Qed.

Lemma anchor_child_in_inline entryMap tagName attrs before a after :
  Dom.tag a = "a" ->
  In (createHyperlink entryMap a)
     (processInlineContent entryMap (Element tagName attrs (before ++ a :: after)) false).
Proof.
  intros Htag. unfold processInlineContent. simpl.
  apply in_ensureTextNode. rewrite flat_map_app. apply in_or_app. right.
  simpl. rewrite (inlineChild_anchor _ _ _ Htag). simpl. auto.
Qed.

(** C8 (the source departs from it). The inline content of an anchor is
    never the empty array, because [processInlineContent] ends with
    [return [this.createTextNode('')]] when it found nothing; the fallback of
    [createHyperlink], a text run of the URL or of ["link"], is therefore never
    used: an anchor without content, whatever its [href], gets the single
    text run of the empty string, as [<a href="https://example.com"></a>]
    shows. *)
Theorem C8_empty_anchor_keeps_empty_text
    (assetMap entryMap : gmap string string) (preserveWhitespace : bool) (href : string) :
  contentOf (createHyperlink entryMap (Element "a" [("href", href)] [])) = [Text "" []]
  /\ transformNodes assetMap entryMap preserveWhitespace
       [Element "a" [("href", "https://example.com")] []]
     = (Block DOCUMENT NoData
          [Block HYPERLINK (Uri "https://example.com") [Text "" []]], []).
Proof.
  split.
  - rewrite createHyperlink_content. reflexivity.
  - reflexivity.
Qed.

(** C10. [wrapWithMark] maps over the inline content of the formatting
    element and changes the text runs only: a node that is not a text run is
    returned as it is. So the node of an anchor that is a child of the
    formatting element is, in the result, the node [createHyperlink] builds
    for the anchor alone, and the mark of the enclosing element is on none of
    the text runs inside it. *)
Theorem C10_wrapWithMark_leaves_links
    (entryMap : gmap string string) (tagName : string) (attrs : list (string * string))
    (before after : list Node) (a : Node) (m : Mark) :
  Dom.tag a = "a" ->
  let node := Element tagName attrs (before ++ a :: after) in
  wrapWithMark entryMap node (Some m)
    = map (addMark m) (processInlineContent entryMap node false)
  /\ (forall item, isText item = false -> addMark m item = item)
  /\ In (createHyperlink entryMap a) (wrapWithMark entryMap node (Some m))
  /\ textRuns (createHyperlink entryMap a)
     = flat_map textRuns (processInlineContent entryMap a false).
Proof.
  intros Htag node. split; [reflexivity|]. split; [apply addMark_not_text|]. split.
  - rewrite wrapWithMark_map.
    rewrite <- (addMark_not_text m (createHyperlink entryMap a)).
    + apply in_map. apply anchor_child_in_inline. exact Htag.
    + unfold createHyperlink, buildHyperlink.
      repeat (match goal with |- context [match ?c with _ => _ end] => destruct c end;
              simpl; try reflexivity).
  - pose proof (createHyperlink_content entryMap a) as Hc.
    destruct (createHyperlink entryMap a) eqn:E.
    + unfold createHyperlink, buildHyperlink in E.
      repeat (match type of E with context [match ?c with _ => _ end] => destruct c end;
              try discriminate).
    + simpl in *. rewrite Hc. reflexivity.
Qed.

(** [<strong><a href="u">x</a></strong>]: the link keeps its unmarked text. *)
Lemma C10_witness :
  Dom.tag (Element "a" [("href", "u")] [TextNode "x"]) = "a"
  /\ In (Block HYPERLINK (Uri "u") [Text "x" []])
        (wrapWithMark ∅ (Element "strong" [] [Element "a" [("href", "u")] [TextNode "x"]])
           (Some bold)).
Proof.
  split; [reflexivity|].
  exact (proj1 (proj2 (proj2
    (C10_wrapWithMark_leaves_links ∅ "strong" [] [] []
       (Element "a" [("href", "u")] [TextNode "x"]) bold eq_refl)))).
Defined.

(** ** Marks *)

Lemma inlineChild_nested_marks entryMap (tags : list string) (text : string) :
  Forall (fun t => Dom.tagIn (Js.toLowerCase t) inlineMarkTags = true) tags ->
  text <> "" ->
  inlineChild entryMap false (nestIn tags (TextNode text)) = [Text text (marksOfTags tags)].
Proof.
  intros Htags Htext. induction Htags as [|t rest Ht _ IH].
  - simpl. apply truthy_true in Htext. rewrite Htext. reflexivity.
  - destruct (getMarkType_inline _ Ht) as [m Hm].
    change (nestIn (t :: rest) (TextNode text))
      with (Element t [] [nestIn rest (TextNode text)]).
    rewrite processInlineContent_child. cbv zeta.
    change (Dom.tag (Element t [] [nestIn rest (TextNode text)])) with (Js.toLowerCase t).
    rewrite Ht, Hm. simpl andb. cbv iota.
    rewrite wrapWithMark_map. unfold processInlineContent. simpl Dom.children.
    simpl flat_map. rewrite IH. simpl.
    unfold marksOfTags. simpl. rewrite Hm. simpl. reflexivity.
Qed.

Lemma wrapWithMark_carries entryMap node m value marks :
  In (Text value marks) (wrapWithMark entryMap node (Some m)) -> In m marks.
Proof.
  rewrite wrapWithMark_map. intros Hin. apply in_map_iff in Hin.
  destruct Hin as [item [Heq _]]. destruct item as [v ms|]; simpl in Heq; [|discriminate].
  inversion Heq; subst. apply in_or_app. right. simpl. auto.
Qed.

(** C7, the claim as stated fails: [<strong><strong>x</strong></strong>]
    gives the text run [x] with the marks [bold, bold]. *)
Lemma C7_counterexample :
  ~ marksDeduplicated
      (fst (transformNodes ∅ ∅ false
              [Element "strong" [] [Element "strong" [] [TextNode "x"]]])).
Proof.
  unfold marksDeduplicated. simpl. intros H.
  apply Forall_inv in H. simpl in H.
  apply NoDup_cons in H. destruct H as [Hnotin _].
  apply Hnotin. left.
Qed.

(** C7, as amended. The marks of a text run are a list to which every
    enclosing formatting element appends its mark, without looking at what
    is there: a text inside the formatting elements [tags] is one text run
    whose marks are the marks of these elements, innermost first, one entry
    for each element; [wrapWithMark] leaves its mark on every text run it
    returns; and [<strong><em>x</em></strong>] is the one text run [x] with
    [italic] and [bold]. *)
Theorem C7_marks_accumulate
    (assetMap entryMap : gmap string string) (preserveWhitespace : bool)
    (tags : list string) (text : string) :
  Forall (fun t => Dom.tagIn (Js.toLowerCase t) inlineMarkTags = true) tags ->
  text <> "" ->
  inlineChild entryMap false (nestIn tags (TextNode text)) = [Text text (marksOfTags tags)]
  /\ (forall node m value marks,
        In (Text value marks) (wrapWithMark entryMap node (Some m)) -> In m marks)
  /\ transformNodes assetMap entryMap preserveWhitespace
       [Element "strong" [] [Element "em" [] [TextNode "x"]]]
     = (Block DOCUMENT NoData [Text "x" [italic; bold]], []).
Proof.
  intros Htags Htext. split; [|split].
  - apply inlineChild_nested_marks; assumption.
  - apply wrapWithMark_carries.
  - reflexivity.
Qed.

(** [<b><i><b>x</b></i></b>]: three marks, [bold] twice. *)
Lemma C7_witness :
  Forall (fun t => Dom.tagIn (Js.toLowerCase t) inlineMarkTags = true) ["b"; "i"; "b"]
  /\ "x" <> ""
  /\ inlineChild ∅ false (nestIn ["b"; "i"; "b"] (TextNode "x"))
     = [Text "x" [bold; italic; bold]].
Proof.
  assert (Htags : Forall (fun t => Dom.tagIn (Js.toLowerCase t) inlineMarkTags = true)
                    ["b"; "i"; "b"]) by (repeat constructor).
  assert (Htext : "x" <> "") by discriminate.
  split; [exact Htags|]. split; [exact Htext|].
  exact (proj1 (C7_marks_accumulate ∅ ∅ false ["b"; "i"; "b"] "x" Htags Htext)).
Defined.

(** ** The tree walk at the top level *)

Section WalkFacts.

Variable assetMap entryMap : gmap string string.
Variable preserveWhitespace : bool.
Variable f : Node -> list string -> Processed * list string.

Lemma pushProcessed_keeps (x : RichNode) results processed :
  In x results -> In x (pushProcessed results processed).
Proof.
  destruct processed; simpl; auto; intros; apply in_or_app; auto.
Qed.

Lemma processNodesWith_keeps nodes : forall results warnings (x : RichNode),
  In x results -> In x (fst (processNodesWith f nodes results warnings)).
Proof.
  induction nodes as [|n rest IH]; intros results warnings x Hin; simpl; [exact Hin|].
  destruct (f n warnings) as [processed warnings'].
  apply IH, pushProcessed_keeps, Hin.
Qed.

(** A node for which [processNode] returns a single node contributes this
    node to the result of [processNodes]. *)
Lemma processNodesWith_member before n after item :
  (forall w, exists w', f n w = (PNode item, w')) ->
  forall results warnings,
    In item (fst (processNodesWith f (before ++ n :: after) results warnings)).
Proof.
  intros Hn. induction before as [|b before IH]; intros results warnings; simpl.
  - destruct (Hn warnings) as [w' Hw]. rewrite Hw.
    apply processNodesWith_keeps. simpl. apply in_or_app. right. simpl. auto.
  - destruct (f b warnings) as [processed warnings']. apply IH.
Qed.

End WalkFacts.

Lemma processNode_topLevelInline assetMap entryMap pw n item :
  TopLevelInline entryMap n item ->
  forall w, exists w', processNode assetMap entryMap pw n w = (PNode item, w').
Proof.
  intros H w. exists w. destruct H as [text Ht|tagName attrs cs Htag|tagName attrs cs Htag].
  - simpl. rewrite Ht. reflexivity.
  - simpl. rewrite Htag. reflexivity.
  - simpl. rewrite Htag. reflexivity.
Qed.

Lemma topLevelInline_isInline entryMap n item :
  TopLevelInline entryMap n item -> isInline item = true.
Proof.
  intros [text Ht|tagName attrs cs Htag|tagName attrs cs Htag]; try reflexivity.
  unfold createHyperlink, buildHyperlink.
  repeat (match goal with |- context [match ?c with _ => _ end] => destruct c end;
          simpl; try reflexivity).
Qed.

Lemma transformNodes_member assetMap entryMap pw nodes item :
  In item (fst (processNodes assetMap entryMap pw nodes [])) ->
  In item (contentOf (fst (transformNodes assetMap entryMap pw nodes))).
Proof.
  unfold transformNodes. destruct (processNodes _ _ _ nodes []) as [content warnings].
  simpl. destruct content; simpl; tauto.
Qed.

(** C9. [transform] puts the result of [processNodes] on the children of the
    root into the [content] of the document as it is. A top-level text node
    that is not blank, a top-level [<br>] and a top-level anchor make
    [processNode] return a text run or a link node, so the document has this
    inline node among its direct children, wrapped in no block. *)
Theorem C9_top_level_inline_not_wrapped
    (assetMap entryMap : gmap string string) (preserveWhitespace : bool)
    (parse : string -> list Node) (stripShortcodes preprocessGutenbergBlocks : string -> string)
    (stripShortcodesOption : bool)
    (html : string) (before after : list Node) (n : Node) (item : RichNode) :
  html <> "" ->
  parse (preprocessGutenbergBlocks
           (if stripShortcodesOption then stripShortcodes html else html))
    = (before ++ n :: after)%list ->
  TopLevelInline entryMap n item ->
  isInline item = true
  /\ In item
       (contentOf (fst (transform assetMap entryMap preserveWhitespace parse stripShortcodes
                          preprocessGutenbergBlocks stripShortcodesOption (JsString html)))).
Proof.
  intros Hhtml Hparse Htop. split; [eapply topLevelInline_isInline, Htop|].
  unfold transform. apply truthy_true in Hhtml. rewrite Hhtml. simpl negb. cbv iota.
  rewrite Hparse. apply transformNodes_member. unfold processNodes.
  apply processNodesWith_member. apply processNode_topLevelInline, Htop.
Qed.

(** Bare text: with a parser that returns the text node [Hello] for the
    string [Hello], the document is [{content: [text 'Hello']}]. *)
Lemma C9_witness :
  "Hello" <> ""
  /\ TopLevelInline ∅ (TextNode "Hello") (Text "Hello" [])
  /\ In (Text "Hello" [])
        (contentOf (fst (transform ∅ ∅ false (fun s => [TextNode s]) id id true
                           (JsString "Hello")))).
Proof.
  assert (Hhtml : "Hello" <> "") by discriminate.
  assert (Htop : TopLevelInline ∅ (TextNode "Hello") (Text "Hello" []))
    by (apply top_text; reflexivity).
  split; [exact Hhtml|]. split; [exact Htop|].
  exact (proj2 (C9_top_level_inline_not_wrapped ∅ ∅ false (fun s => [TextNode s]) id id true
                  "Hello" [] [] (TextNode "Hello") (Text "Hello" []) Hhtml eq_refl Htop)).
Defined.

Example top_level_examples (assetMap entryMap : gmap string string) :
  transformNodes assetMap entryMap false
    [TextNode "Hello"; Element "br" [] []; Element "a" [("href", "u")] [TextNode "x"]]
  = (Block DOCUMENT NoData
       [Text "Hello" []; Text newline []; Block HYPERLINK (Uri "u") [Text "x" []]], []).
Proof. reflexivity. Qed.

(** ** Links *)

Lemma search_skip {A} (anchored : string -> option A) (before s : string) :
  (forall c t, Ascii.eqb c "?" || Ascii.eqb c "&" = false -> anchored (String c t) = None) ->
  noParamStart before = true ->
  Js.search anchored (before +:+ s) = Js.search anchored s.
Proof.
  intros Hanch. induction before as [|c r IH]; intros Hno; [reflexivity|].
  simpl in Hno. apply andb_true_iff in Hno. destruct Hno as [Hc Hr].
  apply negb_true_iff in Hc.
  change (String c r +:+ s) with (String c (r +:+ s)).
  simpl. rewrite (Hanch c _ Hc). apply IH, Hr.
Qed.

(** The number [extractWpPostIdFromUrl] finds is that of the first
    parameter [?p=N] or [&p=N] of the URL. *)
Lemma extractWpPostIdFromUrl_first_param (before after digits : string) (c : ascii) (n : Z) :
  noParamStart before = true ->
  c = "?"%char \/ c = "&"%char ->
  Js.spanDigits (digits +:+ after) = (digits, after) ->
  digits <> "" ->
  Js.parseInt digits = Some n ->
  extractWpPostIdFromUrl (before +:+ String c ("p=" +:+ digits +:+ after)) = Some n.
Proof.
  intros Hbefore Hc Hspan Hdigits Hn. unfold extractWpPostIdFromUrl.
  assert (Htruthy : Js.truthy (before +:+ String c ("p=" +:+ digits +:+ after)) = true)
    by (destruct before; reflexivity).
  rewrite Htruthy. simpl negb. cbv iota.
  unfold Js.rePostParam. rewrite search_skip.
  - assert (Hcq : Ascii.eqb c "?" || Ascii.eqb c "&" = true)
      by (destruct Hc; subst; reflexivity).
    change ("p=" +:+ digits +:+ after) with (String "p" (String "=" (digits +:+ after))).
    simpl. rewrite Hcq. unfold Js.digits1. rewrite Hspan.
    apply truthy_true in Hdigits. unfold Js.truthy in Hdigits.
    apply negb_true_iff in Hdigits. rewrite Hdigits. exact Hn.
  - intros ch t Hch. rewrite Hch. reflexivity.
  - exact Hbefore.
Qed.

Lemma linkResolution_total entryMap href : exists r, LinkResolution entryMap href r.
Proof.
  destruct (extractWpPostIdFromUrl href) as [n|] eqn:Hx.
  - destruct (Z.eq_dec n 0) as [->|Hn]; [exists None; apply link_zero; exact Hx|].
    destruct (entryMap !! ("post_" +:+ Js.numToString n)) as [id|] eqn:Hm.
    + destruct (String.eqb_spec id "") as [->|Hid].
      * exists None. eapply link_empty_id; eassumption.
      * exists (Some id). eapply link_resolved; eassumption.
    + exists None. eapply link_unmapped; eassumption.
  - exists None. apply link_no_param. exact Hx.
Qed.




(** ** Images *)

Lemma lookupAsset_falsy assetMap (wpId : option Z) :
  Js.truthy_num wpId = false -> lookupAsset assetMap wpId = None.
Proof. unfold lookupAsset. destruct wpId; intros H; [rewrite H|]; reflexivity. Qed.



Lemma assetResolution_total assetMap imgNode : exists r, AssetResolution assetMap imgNode r.
Proof.
  destruct (firstFound (strategies imgNode)) as [n|] eqn:Hf.
  - destruct (assetMap !! Js.numToString n) as [id|] eqn:Hm.
    + destruct (String.eqb_spec id "") as [->|Hid].
      * exists None. eapply asset_empty_id; eassumption.
      * exists (Some id). eapply asset_resolved; eassumption.
    + exists None. eapply asset_unmapped; eassumption.
  - exists None. apply asset_no_id. exact Hf.
Qed.

(** The image of a figure is the first [img] below it. *)
Lemma processFigure_image assetMap entryMap node img warnings :
  Dom.querySelector "img" node = Some img ->
  exists caption,
    processFigure assetMap entryMap node warnings
    = ((fst (createEmbeddedAsset assetMap img warnings) :: caption)%list,
       snd (createEmbeddedAsset assetMap img warnings)).
Proof.
  intros Hq. unfold processFigure. rewrite Hq.
  destruct (createEmbeddedAsset assetMap img warnings) as [asset w].
  destruct (Dom.querySelector "figcaption" node); eexists; reflexivity.
Qed.




Example image_fallback (entryMap : gmap string string) :
  transformNodes ∅ entryMap false [Element "img" [("src", "a.jpg"); ("alt", "pic")] []]
  = (Block DOCUMENT NoData [Block PARAGRAPH NoData [Text "[Image: pic]" [italic]]],
     ["Asset not found for image: a.jpg"]).
Proof. reflexivity. Qed.

(** ** Blockquotes and document validity *)

(** C2 (the source departs from it). [createBlockquote] substitutes the
    paragraph of the inline content when [processNodes] returned nothing,
    and filters for paragraphs afterwards: when the children give nodes none
    of which is a paragraph, a text as in [<blockquote>Hello</blockquote>] or
    a heading as in [<blockquote><h2>T</h2></blockquote>], nothing is
    substituted and the blockquote has the empty [content]. *)
Theorem C2_blockquote_filter_after_fallback
    (assetMap entryMap : gmap string string) (preserveWhitespace : bool) :
  createBlockquote assetMap entryMap preserveWhitespace
    (Element "blockquote" [] [TextNode "Hello"]) []
  = (Block QUOTE NoData [], [])
  /\ createBlockquote assetMap entryMap preserveWhitespace
       (Element "blockquote" [] [Element "h2" [] [TextNode "T"]]) []
     = (Block QUOTE NoData [], []).
Proof. split; reflexivity. Qed.

(** C1 (the source departs from it). For [<blockquote>Hello</blockquote>]
    the document returned has a blockquote with the empty [content]: it is
    not valid. *)
Theorem C1_blockquote_breaks_validity
    (assetMap entryMap : gmap string string) (preserveWhitespace : bool) :
  transformNodes assetMap entryMap preserveWhitespace
    [Element "blockquote" [] [TextNode "Hello"]]
  = (Block DOCUMENT NoData [Block QUOTE NoData []], [])
  /\ wellFormed (Block DOCUMENT NoData [Block QUOTE NoData []]) = false.
Proof. split; reflexivity. Qed.

(** ** Validity of the document outside blockquotes *)

(** Induction on a parsed tree, with the property for all the children. *)
Lemma Node_nested_ind (P : Node -> Prop) :
  (forall text, P (TextNode text)) ->
  (forall text, P (CommentNode text)) ->
  (forall tagName attrs childNodes, Forall P childNodes -> P (Element tagName attrs childNodes)) ->
  forall n, P n.
Proof.
  intros Htext Hcomment Helement. fix IH 1. intros [text|text|tagName attrs childNodes].
  - apply Htext.
  - apply Hcomment.
  - apply Helement. induction childNodes as [|c cs IHcs]; constructor; [apply IH|exact IHcs].
Qed.

Lemma forallb_flat_map {A B} (p : B -> bool) (g : A -> list B) (l : list A) :
  Forall (fun x => forallb p (g x) = true) l -> forallb p (flat_map g l) = true.
Proof.
  induction 1 as [|x l Hx _ IH]; simpl; [reflexivity|].
  rewrite forallb_app, Hx, IH. reflexivity.
Qed.

Section Validity.

Variable assetMap entryMap : gmap string string.
Variable preserveWhitespace : bool.

Local Abbreviation wf := wellFormedButQuote.

Lemma wf_ensureTextNode l : forallb wf l = true -> forallb wf (ensureTextNode l) = true.
Proof. destruct l; simpl; auto. Qed.

Lemma wf_addMark m item : wf (addMark m item) = wf item.
Proof. destruct item; reflexivity. Qed.

Lemma wf_wrapContent markType l :
  forallb wf l = true -> forallb wf (wrapContent markType l) = true.
Proof.
  intros H. destruct markType as [m|]; simpl; [|exact H].
  rewrite <- H. clear H. induction l as [|x l IH]; simpl; [reflexivity|].
  rewrite wf_addMark, IH. reflexivity.
Qed.

Lemma wf_buildHyperlink href content :
  content <> [] -> forallb wf content = true ->
  wf (buildHyperlink entryMap href content) = true.
Proof.
  intros Hne Hwf. unfold buildHyperlink.
  destruct content as [|x l]; [congruence|].
  repeat (match goal with |- context [match ?c with _ => _ end] => destruct c end;
          simpl; try exact Hwf).
Qed.

Lemma wf_inlineChild child : forall excl, forallb wf (inlineChild entryMap excl child) = true.
Proof.
  induction child as [text|text|tagName attrs childNodes IH] using Node_nested_ind;
    intros excl.
  - simpl. destruct (Js.truthy text); reflexivity.
  - reflexivity.
  - assert (Hall : forall e,
              forallb wf (ensureTextNode (flat_map (inlineChild entryMap e) childNodes))
              = true).
    { intros e. apply wf_ensureTextNode, forallb_flat_map.
      eapply Forall_impl; [exact IH|]. intros c Hc. apply Hc. }
    simpl.
    repeat (match goal with |- context [if ?c then _ else _] => destruct c end;
            try reflexivity; try apply Hall; try (apply wf_wrapContent, Hall)).
    simpl. rewrite andb_true_r. apply wf_buildHyperlink; [|apply Hall].
    apply ensureTextNode_nonempty.
Qed.

Lemma wf_processInlineContent node excl :
  forallb wf (processInlineContent entryMap node excl) = true.
Proof.
  unfold processInlineContent. apply wf_ensureTextNode, forallb_flat_map.
  apply Forall_forall. intros c _. apply wf_inlineChild.
Qed.

Lemma wf_block t content :
  content <> [] -> forallb wf content = true -> wf (Block t NoData content) = true.
Proof.
  intros Hne Hwf. unfold wf, wellFormedButQuote. simpl. fold wellFormedButQuote.
  destruct content; [congruence|]. simpl isEmpty. simpl negb.
  rewrite orb_true_r. exact Hwf.
Qed.

Lemma wf_createParagraph node : wellFormedOption (createParagraph entryMap node) = true.
Proof.
  unfold createParagraph.
  pose proof (wf_processInlineContent node false) as Hwf.
  pose proof (processInlineContent_nonempty entryMap node false) as Hne.
  destruct (processInlineContent entryMap node false) as [|x l]; [reflexivity|].
  assert (H : wellFormedOption (Some (Block PARAGRAPH NoData (x :: l))) = true)
    by (apply wf_block; assumption).
  destruct x as [value marks|]; [|exact H].
  destruct value; [|exact H]. destruct l; [reflexivity|exact H].
Qed.

Lemma wf_createHeading node level :
  wellFormedOption (createHeading entryMap node level) = true.
Proof.
  unfold createHeading.
  pose proof (wf_processInlineContent node false) as Hwf.
  destruct (processInlineContent entryMap node false) as [|x l] eqn:E; [reflexivity|].
  apply wf_block; [discriminate|exact Hwf].
Qed.

Lemma wf_paragraphIfAny content :
  forallb wf content = true -> forallb wf (paragraphIfAny content) = true.
Proof.
  intros H. destruct content as [|x l]; [reflexivity|].
  unfold paragraphIfAny. simpl forallb. rewrite andb_true_r.
  apply wf_block; [discriminate|exact H].
Qed.

Lemma wf_optList o : wellFormedOption o = true -> forallb wf (optList o) = true.
Proof. destruct o; simpl; [intros ->; reflexivity|reflexivity]. Qed.

Lemma wf_nonempty_block t (content : list RichNode) :
  forallb wf content = true ->
  forallb wf (match content with [] => [] | _ => [Block t NoData content] end) = true.
Proof.
  intros H. destruct content as [|x l]; [reflexivity|].
  simpl forallb. rewrite andb_true_r. apply wf_block; [discriminate|exact H].
Qed.

Lemma wf_createList_children node :
  (forall listType, wellFormedOption (createList entryMap listType node) = true)
  /\ Forall (fun g => forall listType,
                wellFormedOption (createList entryMap listType g) = true)
       (Dom.children node).
Proof.
  induction node as [text|text|tagName attrs childNodes IH] using Node_nested_ind.
  - split; [reflexivity|constructor].
  - split; [reflexivity|constructor].
  - split.
    + intros listType. simpl.
      match goal with |- wellFormedOption (match ?items with _ => _ end) = true =>
        assert (Hitems : forallb wf items = true)
      end.
      { apply forallb_flat_map. eapply Forall_impl; [exact IH|].
        intros child [_ Hgrand]. destruct child as [t|t|childTag a grandChildren];
          try reflexivity.
        simpl in Hgrand.
        destruct (String.eqb (Js.toLowerCase childTag) "li"); [|reflexivity].
        apply wf_nonempty_block.
        destruct (existsb _ grandChildren).
        - rewrite forallb_app. rewrite wf_paragraphIfAny by apply wf_processInlineContent.
          simpl. apply forallb_flat_map. eapply Forall_impl; [exact Hgrand|].
          intros g Hg. destruct (isListTag (Dom.tag g)); [|reflexivity].
          apply wf_optList, Hg.
        - apply wf_paragraphIfAny, wf_processInlineContent. }
      match goal with |- wellFormedOption (match ?items with _ => _ end) = true =>
        destruct items as [|x l] eqn:E
      end; [reflexivity|].
      apply wf_block; [discriminate|exact Hitems].
    + simpl. eapply Forall_impl; [exact IH|]. intros c [Hc _]. exact Hc.
Qed.

Lemma wf_createList listType node :
  wellFormedOption (createList entryMap listType node) = true.
Proof. apply wf_createList_children. Qed.

Lemma wf_createEmbeddedAsset imgNode warnings :
  wf (fst (createEmbeddedAsset assetMap imgNode warnings)) = true.
Proof.
  unfold createEmbeddedAsset. destruct (lookupAsset assetMap (findWpId imgNode)); reflexivity.
Qed.

Lemma wf_processFigure node warnings :
  forallb wf (fst (processFigure assetMap entryMap node warnings)) = true.
Proof.
  unfold processFigure.
  destruct (Dom.querySelector "img" node) as [img|].
  - pose proof (wf_createEmbeddedAsset img warnings) as Hasset.
    destruct (createEmbeddedAsset assetMap img warnings) as [asset w]. simpl in Hasset.
    destruct (Dom.querySelector "figcaption" node) as [figcaption|]; simpl.
    + rewrite Hasset. simpl. apply wf_optList, wf_createParagraph.
    + rewrite Hasset. reflexivity.
  - destruct (Dom.querySelector "figcaption" node) as [figcaption|]; simpl; [|reflexivity].
    apply wf_optList, wf_createParagraph.
Qed.

Lemma wf_ofOption o : wellFormedProcessed (ofOption o) = wellFormedOption o.
Proof. destruct o; reflexivity. Qed.

Lemma wf_pushProcessed results processed :
  forallb wf results = true -> wellFormedProcessed processed = true ->
  forallb wf (pushProcessed results processed) = true.
Proof.
  intros Hr Hp. destruct processed as [|n|l]; simpl; [exact Hr| |].
  - rewrite forallb_app, Hr. simpl in *. rewrite Hp. reflexivity.
  - rewrite forallb_app, Hr. exact Hp.
Qed.

Lemma wf_processNodesWith
    (g : Node -> list string -> Processed * list string) (nodes : list Node) :
  Forall (fun n => forall w, wellFormedProcessed (fst (g n w)) = true) nodes ->
  forall results warnings,
    forallb wf results = true ->
    forallb wf (fst (processNodesWith g nodes results warnings)) = true.
Proof.
  induction 1 as [|n nodes Hn _ IH]; intros results warnings Hr; simpl; [exact Hr|].
  specialize (Hn warnings). destruct (g n warnings) as [processed w']. simpl in Hn.
  apply IH, wf_pushProcessed; assumption.
Qed.

Lemma wf_buildBlockquote node blocks :
  forallb wf blocks = true -> wf (buildBlockquote entryMap node blocks) = true.
Proof.
  intros Hb. unfold buildBlockquote, wf, wellFormedButQuote. simpl.
  fold wellFormedButQuote.
  assert (Hfilter : forall l, forallb wf l = true ->
                      forallb wf (List.filter (isType PARAGRAPH) l) = true).
  { induction l as [|x l IHl]; simpl; [reflexivity|]. intros Hl.
    apply andb_true_iff in Hl. destruct Hl as [Hx Hl].
    destruct (isType PARAGRAPH x); simpl; [rewrite Hx|]; auto. }
  apply Hfilter. destruct blocks as [|x l]; [|exact Hb].
  simpl forallb. rewrite andb_true_r.
  apply wf_block; [apply processInlineContent_nonempty|apply wf_processInlineContent].
Qed.

Lemma wf_tableToText node : wf (tableToText node) = true.
Proof. reflexivity. Qed.

Lemma wf_createHyperlink node : wf (createHyperlink entryMap node) = true.
Proof.
  unfold createHyperlink.
  apply wf_buildHyperlink; [apply processInlineContent_nonempty|apply wf_processInlineContent].
Qed.

Lemma wf_wrapWithMark node markType :
  forallb wf (wrapWithMark entryMap node markType) = true.
Proof.
  change (wrapWithMark entryMap node markType)
    with (wrapContent markType (processInlineContent entryMap node false)).
  apply wf_wrapContent, wf_processInlineContent.
Qed.

Local Opaque createParagraph createHeading createList tableToText createEmbeddedAsset
  processFigure createHyperlink wrapWithMark buildBlockquote.

(** Whatever [processNode] returns is valid outside blockquotes. *)
Lemma wf_processNode node : forall warnings,
  wellFormedProcessed (fst (processNode assetMap entryMap preserveWhitespace node warnings))
  = true.
Proof.
  induction node as [text|text|tagName attrs childNodes IH] using Node_nested_ind;
    intros warnings.
  - simpl. destruct (_ && _); reflexivity.
  - reflexivity.
  - assert (Hchildren : forall w,
              forallb wf
                (fst (processNodesWith (processNode assetMap entryMap preserveWhitespace)
                        childNodes [] w)) = true)
      by (intros w; apply wf_processNodesWith; [exact IH|reflexivity]).
    simpl.
    repeat match goal with
           | |- context [if ?c then _ else _] => destruct c
           end;
      try reflexivity;
      try (simpl; rewrite wf_ofOption);
      try apply wf_createParagraph; try apply wf_createHeading; try apply wf_createList;
      try apply wf_tableToText; try apply wf_createHyperlink; try apply wf_wrapWithMark.
    + specialize (Hchildren warnings).
      destruct (processNodesWith _ childNodes [] warnings) as [blocks w'].
      simpl in *. apply wf_buildBlockquote, Hchildren.
    + pose proof (wf_createEmbeddedAsset (Element tagName attrs childNodes) warnings) as H.
      destruct (createEmbeddedAsset _ _ warnings) as [asset w']. exact H.
    + pose proof (wf_processFigure (Element tagName attrs childNodes) warnings) as H.
      destruct (processFigure _ _ _ warnings) as [results w']. exact H.
    + specialize (Hchildren warnings).
      destruct (processNodesWith _ childNodes [] warnings) as [results w']. exact Hchildren.
    + specialize (Hchildren warnings).
      destruct (processNodesWith _ childNodes [] warnings) as [results w']. exact Hchildren.
Qed.

Local Transparent createParagraph createHeading createList tableToText createEmbeddedAsset
  processFigure createHyperlink wrapWithMark buildBlockquote.

Lemma wf_processNodes nodes warnings :
  forallb wf (fst (processNodes assetMap entryMap preserveWhitespace nodes warnings)) = true.
Proof.
  unfold processNodes. apply wf_processNodesWith; [|reflexivity].
  apply Forall_forall. intros n _. apply wf_processNode.
Qed.

Lemma wf_transformNodes nodes :
  wf (fst (transformNodes assetMap entryMap preserveWhitespace nodes)) = true.
Proof.
  unfold transformNodes. pose proof (wf_processNodes nodes []) as H.
  destruct (processNodes _ _ _ nodes []) as [content warnings]. simpl in *.
  destruct content as [|x l]; [reflexivity|].
  apply wf_block; [discriminate|exact H].
Qed.

(** X21. Outside blockquotes the document is valid for every input: every node
    with a [content] array other than a blockquote, a horizontal rule or an
    embedded asset has a non-empty one. The empty [content] of a blockquote
    is the only departure from document validity. *)
Theorem transform_wellFormed_except_quote
    (parse : string -> list Node) (stripShortcodes preprocessGutenbergBlocks : string -> string)
    (stripShortcodesOption : bool) (wpHtml : JsValue) :
  wellFormedButQuote
    (fst (transform assetMap entryMap preserveWhitespace parse stripShortcodes
            preprocessGutenbergBlocks stripShortcodesOption wpHtml)) = true.
Proof.
  unfold transform. destruct wpHtml as [| |b|n|html|]; try reflexivity.
  destruct (negb (Js.truthy html)); [reflexivity|]. apply wf_transformNodes.
Qed.

End Validity.

(** ** Lists and tables *)

(** The nested lists of an item, as the source selects them:
    [child.querySelectorAll(':scope > ul, :scope > ol')]. *)
Lemma createList_nested entryMap (child : Node) :
  existsb (fun g => isListTag (Dom.tag g)) (Dom.children child)
  = negb (isEmpty (Dom.scopeChildren ["ul"; "ol"] child))
  /\ flat_map (fun nestedList =>
                if isListTag (Dom.tag nestedList)
                then optList (createList entryMap (listTypeOf (Dom.tag nestedList)) nestedList)
                else []) (Dom.children child)
     = flat_map (fun nestedList =>
                   optList (createList entryMap (listTypeOf (Dom.tag nestedList)) nestedList))
         (Dom.scopeChildren ["ul"; "ol"] child).
Proof.
  unfold Dom.scopeChildren.
  assert (Htag : forall t, Dom.tagIn t ["ul"; "ol"] = isListTag t)
    by (intros t; unfold Dom.tagIn, isListTag; simpl; rewrite orb_false_r; reflexivity).
  induction (Dom.children child) as [|g gs [IH1 IH2]]; [split; reflexivity|].
  cbn [List.filter flat_map existsb]. rewrite Htag.
  destruct (isListTag (Dom.tag g)); cbn [List.filter flat_map existsb orb isEmpty negb].
  - split; [reflexivity|]. rewrite IH2. reflexivity.
  - split; assumption.
Qed.

(** [<ul><li>A<ul><li>B</li></ul></li></ul>] *)
Example list_nesting (assetMap entryMap : gmap string string) :
  transformNodes assetMap entryMap false
    [Element "ul" []
       [Element "li" []
          [TextNode "A"; Element "ul" [] [Element "li" [] [TextNode "B"]]]]]
  = (Block DOCUMENT NoData
       [Block UL_LIST NoData
          [Block LIST_ITEM NoData
             [Block PARAGRAPH NoData [Text "A" []];
              Block UL_LIST NoData
                [Block LIST_ITEM NoData [Block PARAGRAPH NoData [Text "B" []]]]]]], []).
Proof. reflexivity. Qed.

(** [<table><tr><td>a</td><td>b</td></tr></table>] *)
Example table_degradation (assetMap entryMap : gmap string string) :
  transformNodes assetMap entryMap false
    [Element "table" []
       [Element "tr" [] [Element "td" [] [TextNode "a"]; Element "td" [] [TextNode "b"]]]]
  = (Block DOCUMENT NoData [Block PARAGRAPH NoData [Text "a | b" []]],
     ["Table converted to text (not supported in Rich Text)"]).
Proof. reflexivity. Qed.

(** ** The migration loops *)

Module MigrationFacts.
Import Migration MigrationSpec.

(** *** Counters *)

Lemma getStats_setStats f s a : getStats f (setStats f s a) = s.
Proof. destruct f; reflexivity. Qed.

Lemma getStats_setStats_ne f g s a : f <> g -> getStats g (setStats f s a) = getStats g a.
Proof. destruct f, g; intros H; try reflexivity; congruence. Qed.

Lemma setStats_setStats f s s' a : setStats f s (setStats f s' a) = setStats f s a.
Proof. destruct f; reflexivity. Qed.

Lemma bumpFailed_comm (upd : Stats -> Stats) f g a :
  (forall s, upd (incFailed s) = incFailed (upd s)) ->
  setStats f (upd (getStats f (bumpFailed g a))) (bumpFailed g a)
  = bumpFailed g (setStats f (upd (getStats f a)) a).
Proof.
  intros Hcomm. unfold bumpFailed. destruct f, g; simpl; rewrite ?Hcomm; reflexivity.
Qed.

(** *** One iteration *)

Section Iteration.

Variable f : Family.
Variable key : string.
Variable attempt : gmap string string -> Attempt string.

Lemma migrateEntity_present st :
  present (entryMap st) key -> migrateEntity f key attempt st = updStats f incSkipped st.
Proof. unfold present, migrateEntity. intros ->. reflexivity. Qed.

Lemma migrateEntity_failed st message log :
  Js.truthy_opt (entryMap st !! key) = false ->
  attempt (entryMap st) (calls st) = (Err message, log) ->
  migrateEntity f key attempt st = failedState f log st.
Proof. unfold migrateEntity. intros -> ->. reflexivity. Qed.

Lemma migrateEntity_migrated st id log :
  Js.truthy_opt (entryMap st !! key) = false ->
  attempt (entryMap st) (calls st) = (Ok id, log) ->
  migrateEntity f key attempt st
  = {| entryMap := <[key := id]> (entryMap st);
       stats := setStats f (incMigrated (getStats f (stats st))) (stats st);
       calls := log; saved := saved st |}.
Proof. unfold migrateEntity. intros -> ->. reflexivity. Qed.

(** A mapping with a destination id is not overwritten by an iteration. *)
Lemma migrateEntity_keeps st k id :
  entryMap st !! k = Some id -> id <> "" ->
  entryMap (migrateEntity f key attempt st) !! k = Some id.
Proof.
  intros Hk Hid. unfold migrateEntity.
  destruct (Js.truthy_opt (entryMap st !! key)) eqn:Hp; [exact Hk|].
  destruct (attempt (entryMap st) (calls st)) as [[id'|message] log]; simpl; [|exact Hk].
  rewrite lookup_insert_ne; [exact Hk|].
  intros ->. rewrite Hk in Hp. simpl in Hp. apply truthy_true in Hid. congruence.
Qed.

Lemma migrateEntity_sameRun a b :
  sameRun a b -> sameRun (migrateEntity f key attempt a) (migrateEntity f key attempt b).
Proof.
  intros (Hm & Hs & Hc). unfold migrateEntity, updStats. rewrite Hm, Hs, Hc.
  destruct (Js.truthy_opt (entryMap b !! key)); [repeat split; simpl; congruence|].
  destruct (attempt (entryMap b) (calls b)) as [[id|message] log];
    repeat split; simpl; congruence.
Qed.

End Iteration.

Lemma saveProgress_sameRun st : sameRun (saveProgress st) st.
Proof. repeat split. Qed.

Lemma sameRun_refl st : sameRun st st.
Proof. repeat split. Qed.

Lemma sameRun_sym a b : sameRun a b -> sameRun b a.
Proof. intros (H1 & H2 & H3). repeat split; congruence. Qed.

Lemma sameRun_trans a b c : sameRun a b -> sameRun b c -> sameRun a c.
Proof. intros (H1 & H2 & H3) (H4 & H5 & H6). repeat split; congruence. Qed.

Lemma updStats_sameRun f upd a b :
  sameRun a b -> sameRun (updStats f upd a) (updStats f upd b).
Proof. intros (H1 & H2 & H3). unfold updStats. repeat split; simpl; congruence. Qed.

(** *** A loop over the entities of a family *)

Section Loop.

Context {E : Type}.
Variable f : Family.
Variable key : E -> string.
Variable attempt : E -> gmap string string -> Attempt string.
Variable step : State -> E -> State.
Hypothesis step_eq : forall st e, step st e = migrateEntity f (key e) (attempt e) st.

Lemma addSkipped_S n s : incSkipped (addSkipped n s) = addSkipped (S n) s.
Proof. reflexivity. Qed.

Lemma updStats_updStats g u v st :
  updStats g u (updStats g v st) = updStats g (fun s => u (v s)) st.
Proof.
  unfold updStats. simpl. rewrite getStats_setStats, setStats_setStats. reflexivity.
Qed.

Lemma updStats_addSkipped_0 st : updStats f (addSkipped 0) st = st.
Proof.
  unfold updStats, addSkipped. destruct st as [m a c sv]. simpl. f_equal.
  destruct f, a as [[] [] [] [] []]; reflexivity.
Qed.

(** When all the entities have their mapping, the loop only counts them as
    skipped. *)
Lemma loop_present (l : list E) : forall st,
  Forall (fun e => present (entryMap st) (key e)) l ->
  foldl step st l = updStats f (addSkipped (List.length l)) st.
Proof.
  induction l as [|e l IH]; intros st Hall.
  - simpl. symmetry. apply updStats_addSkipped_0.
  - inversion Hall as [|? ? He Hl]; subst. simpl.
    rewrite step_eq, (migrateEntity_present _ _ _ _ He).
    rewrite IH by exact Hl. rewrite updStats_updStats.
    assert (Hadd : forall s, addSkipped (List.length l) (incSkipped s)
                             = addSkipped (S (List.length l)) s).
    { intros s. unfold addSkipped, incSkipped. simpl. f_equal. lia. }
    unfold updStats. rewrite Hadd. reflexivity.
Qed.

Lemma loop_keeps (l : list E) : forall st k id,
  entryMap st !! k = Some id -> id <> "" ->
  entryMap (foldl step st l) !! k = Some id.
Proof.
  induction l as [|e l IH]; intros st k id Hk Hid; [exact Hk|].
  simpl. apply IH; [|exact Hid]. rewrite step_eq. apply migrateEntity_keeps; assumption.
Qed.

Lemma loop_sameRun (l : list E) : forall a b,
  sameRun a b -> sameRun (foldl step a l) (foldl step b l).
Proof.
  induction l as [|e l IH]; intros a b Hab; [exact Hab|].
  simpl. apply IH. rewrite !step_eq. apply migrateEntity_sameRun, Hab.
Qed.

Hypothesis attempt_logIndependent : forall e m, logIndependent (attempt e m).

Lemma step_oneMoreFailed a b e :
  oneMoreFailed f a b -> oneMoreFailed f (step a e) (step b e).
Proof.
  intros [Hm Hs]. rewrite !step_eq. unfold migrateEntity, updStats. rewrite Hm, Hs.
  destruct (Js.truthy_opt (entryMap b !! key e)).
  - split; simpl; [reflexivity|]. apply bumpFailed_comm. reflexivity.
  - pose proof (attempt_logIndependent e (entryMap b) (calls a) (calls b)) as Hind.
    destruct (attempt e (entryMap b) (calls a)) as [ra la].
    destruct (attempt e (entryMap b) (calls b)) as [rb lb].
    simpl in Hind. subst rb.
    destruct ra as [id|message]; split; simpl; try reflexivity;
      apply bumpFailed_comm; reflexivity.
Qed.

Lemma loop_oneMoreFailed (l : list E) : forall a b,
  oneMoreFailed f a b -> oneMoreFailed f (foldl step a l) (foldl step b l).
Proof.
  induction l as [|e l IH]; intros a b Hab; [exact Hab|].
  simpl. apply IH, step_oneMoreFailed, Hab.
Qed.

(** An entity whose [try] block throws leaves the others as they would be
    without it. *)
Lemma loop_without_failed (before after : list E) (e : E) (st : State) :
  failsIn (key e) (attempt e) (foldl step st before) ->
  oneMoreFailed f (foldl step st (before ++ e :: after)) (foldl step st (before ++ after)).
Proof.
  intros [Habsent [message Hfail]]. rewrite !foldl_app. simpl.
  apply loop_oneMoreFailed. rewrite step_eq.
  destruct (attempt e (entryMap (foldl step st before)) (calls (foldl step st before)))
    as [r log] eqn:Hatt.
  simpl in Hfail. subst r.
  rewrite (migrateEntity_failed _ _ _ _ _ _ Habsent Hatt).
  split; reflexivity.
Qed.

End Loop.

(** *** The [try] blocks and the log *)

Lemma ret_logIndependent {A} (a : A) : logIndependent (ret a).
Proof. intros l1 l2. reflexivity. Qed.

Lemma bind_logIndependent {A B} (m : Attempt A) (k : A -> Attempt B) :
  logIndependent m -> (forall a, logIndependent (k a)) -> logIndependent (bind m k).
Proof.
  intros Hm Hk l1 l2. unfold bind. specialize (Hm l1 l2).
  destruct (m l1) as [r1 l1'], (m l2) as [r2 l2']. simpl in Hm. subst r2.
  destruct r1 as [a|message]; [apply Hk|reflexivity].
Qed.

(** *** The stable sort *)

Lemma insertByParent_length {A} (parent : A -> Z) x l :
  List.length (insertByParent parent x l) = S (List.length l).
Proof.
  induction l as [|y l IH]; simpl; [reflexivity|].
  destruct (parent x <=? parent y); simpl; congruence.
Qed.

Lemma sortByParent_length {A} (parent : A -> Z) l :
  List.length (sortByParent parent l) = List.length l.
Proof.
  induction l as [|x l IH]; simpl; [reflexivity|].
  rewrite insertByParent_length. congruence.
Qed.

Lemma insertByParent_Forall {A} (parent : A -> Z) (P : A -> Prop) x l :
  P x -> Forall P l -> Forall P (insertByParent parent x l).
Proof.
  intros Hx Hl. induction Hl as [|y l Hy Hl IH]; simpl.
  - constructor; [exact Hx|constructor].
  - destruct (parent x <=? parent y); repeat constructor; assumption.
Qed.

Lemma sortByParent_Forall {A} (parent : A -> Z) (P : A -> Prop) l :
  Forall P l -> Forall P (sortByParent parent l).
Proof.
  intros Hl. induction Hl as [|x l Hx Hl IH]; simpl; [constructor|].
  apply insertByParent_Forall; assumption.
Qed.

(** *** The five loops of [migrateContent] *)

Section Run.

Variable parse : string -> list Node.
Variable stripShortcodes preprocessGutenbergBlocks sanitizeText : string -> string.
Variable createEntry : string -> Fields -> Result string.
Variable publish : string -> Result unit.
Variable BATCH_SIZE : positive.
Variable assetMap : gmap string string.

Local Abbreviation migrateUser := (migrateUser sanitizeText createEntry publish).
Local Abbreviation migrateCategory := (migrateCategory sanitizeText createEntry publish).
Local Abbreviation migrateTag := (migrateTag sanitizeText createEntry publish).
Local Abbreviation migratePost :=
  (migratePost parse stripShortcodes preprocessGutenbergBlocks sanitizeText
     createEntry publish assetMap).
Local Abbreviation migratePage :=
  (migratePage parse stripShortcodes preprocessGutenbergBlocks sanitizeText
     createEntry publish assetMap).
Local Abbreviation tryPost :=
  (tryPost parse stripShortcodes preprocessGutenbergBlocks sanitizeText
     createEntry publish assetMap).
Local Abbreviation tryPage :=
  (tryPage parse stripShortcodes preprocessGutenbergBlocks sanitizeText
     createEntry publish assetMap).
Local Abbreviation migrateAuthors := (migrateAuthors sanitizeText createEntry publish).
Local Abbreviation migrateCategories := (migrateCategories sanitizeText createEntry publish).
Local Abbreviation migrateTags := (migrateTags sanitizeText createEntry publish).
Local Abbreviation migratePostBatches :=
  (migratePostBatches parse stripShortcodes preprocessGutenbergBlocks sanitizeText
     createEntry publish BATCH_SIZE assetMap).
Local Abbreviation migratePosts :=
  (migratePosts parse stripShortcodes preprocessGutenbergBlocks sanitizeText
     createEntry publish BATCH_SIZE assetMap).
Local Abbreviation migratePages :=
  (migratePages parse stripShortcodes preprocessGutenbergBlocks sanitizeText
     createEntry publish assetMap).
Local Abbreviation migrateContent :=
  (migrateContent parse stripShortcodes preprocessGutenbergBlocks sanitizeText
     createEntry publish BATCH_SIZE assetMap).

Lemma createAndPublish_logIndependent contentType fields :
  logIndependent (createAndPublish createEntry publish contentType fields).
Proof.
  unfold createAndPublish. apply bind_logIndependent.
  - intros l1 l2. reflexivity.
  - intros id. apply bind_logIndependent.
    + intros l1 l2. reflexivity.
    + intros u. apply ret_logIndependent.
Qed.


Lemma tryPage_logIndependent page m : logIndependent (tryPage page m).
Proof.
  unfold Migration.tryPage. apply bind_logIndependent.
  - apply createAndPublish_logIndependent.
  - intros sectionId. apply createAndPublish_logIndependent.
Qed.

Lemma tryAuthor_logIndependent user m :
  logIndependent (tryAuthor sanitizeText createEntry publish user m).
Proof. apply createAndPublish_logIndependent. Qed.

Lemma tryCategory_logIndependent cat m :
  logIndependent (tryCategory sanitizeText createEntry publish cat m).
Proof. apply createAndPublish_logIndependent. Qed.

Lemma tryTag_logIndependent tag m :
  logIndependent (tryTag sanitizeText createEntry publish tag m).
Proof. apply createAndPublish_logIndependent. Qed.

(** In each of the other four loops, too, an entity whose [try] block
    throws leaves the map and the counters of the others as they would be
    without it. *)
Lemma authors_without_failed before after user st :
  failsIn (mapKey "author_" (user_id user)) (tryAuthor sanitizeText createEntry publish user)
    (foldl migrateUser st before) ->
  oneMoreFailed Authors (foldl migrateUser st (before ++ user :: after))
    (foldl migrateUser st (before ++ after)).
Proof.
  apply (loop_without_failed Authors (fun u => mapKey "author_" (user_id u))
           (tryAuthor sanitizeText createEntry publish) migrateUser (fun _ _ => eq_refl)
           tryAuthor_logIndependent).
Qed.

Lemma categories_without_failed before after cat st :
  failsIn (mapKey "cat_" (cat_id cat)) (tryCategory sanitizeText createEntry publish cat)
    (foldl migrateCategory st before) ->
  oneMoreFailed Categories (foldl migrateCategory st (before ++ cat :: after))
    (foldl migrateCategory st (before ++ after)).
Proof.
  apply (loop_without_failed Categories (fun c => mapKey "cat_" (cat_id c))
           (tryCategory sanitizeText createEntry publish) migrateCategory
           (fun _ _ => eq_refl) tryCategory_logIndependent).
Qed.

Lemma tags_without_failed before after tag st :
  failsIn (mapKey "tag_" (tag_id tag)) (tryTag sanitizeText createEntry publish tag)
    (foldl migrateTag st before) ->
  oneMoreFailed Tags (foldl migrateTag st (before ++ tag :: after))
    (foldl migrateTag st (before ++ after)).
Proof.
  apply (loop_without_failed Tags (fun t => mapKey "tag_" (tag_id t))
           (tryTag sanitizeText createEntry publish) migrateTag (fun _ _ => eq_refl)
           tryTag_logIndependent).
Qed.

Lemma pages_without_failed before after page st :
  failsIn (mapKey "page_" (page_id page)) (tryPage page) (foldl migratePage st before) ->
  oneMoreFailed Pages (foldl migratePage st (before ++ page :: after))
    (foldl migratePage st (before ++ after)).
Proof.
  apply (loop_without_failed Pages (fun p => mapKey "page_" (page_id p)) tryPage
           migratePage (fun _ _ => eq_refl) tryPage_logIndependent).
Qed.

(** The batches of the posts: but for what is saved in between, the loop
    over the batches is the loop over the posts. *)
Lemma migratePostBatches_flat (l : list Post) (st : State) :
  sameRun (migratePostBatches l st) (foldl migratePost st l).
Proof.
  funelim (migratePostBatches l st).
  - simp migratePostBatches. apply sameRun_refl.
  - simp migratePostBatches.
    eapply sameRun_trans; [apply H|].
    rewrite <- (take_drop (Pos.to_nat BATCH_SIZE) (post :: rest)) at 3.
    rewrite foldl_app.
    apply (loop_sameRun Posts (fun p => mapKey "post_" (post_id p)) tryPost migratePost
             (fun _ _ => eq_refl)).
    apply saveProgress_sameRun.
Qed.

(** The loops when every entity has its mapping. *)

Lemma migrateAuthors_present l st :
  Forall (fun user => present (entryMap st) (mapKey "author_" (user_id user))) l ->
  migrateAuthors l st
  = saveProgress (updStats Authors (addSkipped (List.length l))
                    (updStats Authors (withTotal (List.length l)) st)).
Proof.
  intros H. unfold Migration.migrateAuthors. f_equal.
  apply (loop_present Authors (fun u => mapKey "author_" (user_id u))
           (tryAuthor sanitizeText createEntry publish) migrateUser (fun _ _ => eq_refl)).
  exact H.
Qed.

Lemma migrateCategories_present l st :
  Forall (fun cat => present (entryMap st) (mapKey "cat_" (cat_id cat))) l ->
  migrateCategories l st
  = saveProgress (updStats Categories (addSkipped (List.length l))
                    (updStats Categories (withTotal (List.length l)) st)).
Proof.
  intros H. unfold Migration.migrateCategories. f_equal.
  rewrite <- (sortByParent_length cat_parent l) at 2.
  apply (loop_present Categories (fun c => mapKey "cat_" (cat_id c))
           (tryCategory sanitizeText createEntry publish) migrateCategory
           (fun _ _ => eq_refl)).
  apply sortByParent_Forall. exact H.
Qed.

Lemma migrateTags_present l st :
  Forall (fun tag => present (entryMap st) (mapKey "tag_" (tag_id tag))) l ->
  migrateTags l st
  = saveProgress (updStats Tags (addSkipped (List.length l))
                    (updStats Tags (withTotal (List.length l)) st)).
Proof.
  intros H. unfold Migration.migrateTags. f_equal.
  apply (loop_present Tags (fun t => mapKey "tag_" (tag_id t))
           (tryTag sanitizeText createEntry publish) migrateTag (fun _ _ => eq_refl)).
  exact H.
Qed.

Lemma migratePosts_present l st :
  Forall (fun post => present (entryMap st) (mapKey "post_" (post_id post))) l ->
  sameRun (migratePosts l st)
    (updStats Posts (addSkipped (List.length l))
       (updStats Posts (withTotal (List.length l)) st)).
Proof.
  intros H. unfold Migration.migratePosts.
  eapply sameRun_trans; [apply migratePostBatches_flat|].
  rewrite (loop_present Posts (fun p => mapKey "post_" (post_id p)) tryPost migratePost
             (fun _ _ => eq_refl)); [apply sameRun_refl|exact H].
Qed.

Lemma migratePages_present l st :
  Forall (fun page => present (entryMap st) (mapKey "page_" (page_id page))) l ->
  migratePages l st
  = saveProgress (updStats Pages (addSkipped (List.length l))
                    (updStats Pages (withTotal (List.length l)) st)).
Proof.
  intros H. unfold Migration.migratePages. f_equal.
  rewrite <- (sortByParent_length page_parent l) at 2.
  apply (loop_present Pages (fun p => mapKey "page_" (page_id p)) tryPage migratePage
           (fun _ _ => eq_refl)).
  apply sortByParent_Forall. exact H.
Qed.

Lemma migratePages_sameRun l a b :
  sameRun a b -> sameRun (migratePages l a) (migratePages l b).
Proof.
  intros Hab. unfold Migration.migratePages.
  eapply sameRun_trans; [apply saveProgress_sameRun|].
  eapply sameRun_trans; [|apply sameRun_sym, saveProgress_sameRun].
  apply (loop_sameRun Pages (fun p => mapKey "page_" (page_id p)) tryPage migratePage
           (fun _ _ => eq_refl)).
  apply updStats_sameRun, Hab.
Qed.

(** The second run: every entity skipped, nothing written. *)
Lemma migrateContent_rerun wpData m :
  fullyPopulated wpData m ->
  let st := migrateContent wpData m in
  entryMap st = m /\ saved st = m /\ calls st = []
  /\ forall f, getStats f (stats st) = skippedAll (familySize f wpData).
Proof.
  intros (Hu & Hc & Ht & Hp & Hg). unfold Migration.migrateContent.
  rewrite migrateAuthors_present by exact Hu.
  rewrite migrateCategories_present by exact Hc.
  rewrite migrateTags_present by exact Ht.
  match goal with |- context [migratePosts _ ?st3] => set (s3 := st3) end.
  pose proof (migratePosts_present (posts wpData) s3 Hp) as H4.
  apply (migratePages_sameRun (pages wpData)) in H4.
  rewrite (migratePages_present (pages wpData)
             (updStats Posts (addSkipped (List.length (posts wpData)))
                (updStats Posts (withTotal (List.length (posts wpData))) s3))) in H4
    by exact Hg.
  destruct H4 as (Hm & Hs & Hl). cbv zeta.
  split; [rewrite Hm; reflexivity|].
  split.
  { transitivity (entryMap (migratePages (pages wpData) (migratePosts (posts wpData) s3)));
      [reflexivity|rewrite Hm; reflexivity]. }
  split; [rewrite Hl; reflexivity|].
  intros f. rewrite Hs. unfold skippedAll, familySize.
  destruct f; simpl; unfold addSkipped, withTotal, zeroStats; simpl; f_equal; lia.
Qed.

(** The loops do not overwrite a mapping that has a destination id. *)

Lemma migrateAuthors_keeps l st k id :
  entryMap st !! k = Some id -> id <> "" -> entryMap (migrateAuthors l st) !! k = Some id.
Proof.
  intros Hk Hid. unfold Migration.migrateAuthors. simpl.
  apply (loop_keeps Authors (fun u => mapKey "author_" (user_id u))
           (tryAuthor sanitizeText createEntry publish) migrateUser (fun _ _ => eq_refl));
    assumption.
Qed.

Lemma migrateCategories_keeps l st k id :
  entryMap st !! k = Some id -> id <> "" -> entryMap (migrateCategories l st) !! k = Some id.
Proof.
  intros Hk Hid. unfold Migration.migrateCategories. simpl.
  apply (loop_keeps Categories (fun c => mapKey "cat_" (cat_id c))
           (tryCategory sanitizeText createEntry publish) migrateCategory
           (fun _ _ => eq_refl)); assumption.
Qed.

Lemma migrateTags_keeps l st k id :
  entryMap st !! k = Some id -> id <> "" -> entryMap (migrateTags l st) !! k = Some id.
Proof.
  intros Hk Hid. unfold Migration.migrateTags. simpl.
  apply (loop_keeps Tags (fun t => mapKey "tag_" (tag_id t))
           (tryTag sanitizeText createEntry publish) migrateTag (fun _ _ => eq_refl));
    assumption.
Qed.

Lemma migratePosts_keeps l st k id :
  entryMap st !! k = Some id -> id <> "" -> entryMap (migratePosts l st) !! k = Some id.
Proof.
  intros Hk Hid. unfold Migration.migratePosts.
  destruct (migratePostBatches_flat l (updStats Posts (withTotal (List.length l)) st))
    as (Hm & _). rewrite Hm.
  apply (loop_keeps Posts (fun p => mapKey "post_" (post_id p)) tryPost migratePost
           (fun _ _ => eq_refl)); assumption.
Qed.

Lemma migratePages_keeps l st k id :
  entryMap st !! k = Some id -> id <> "" -> entryMap (migratePages l st) !! k = Some id.
Proof.
  intros Hk Hid. unfold Migration.migratePages. simpl.
  apply (loop_keeps Pages (fun p => mapKey "page_" (page_id p)) tryPage migratePage
           (fun _ _ => eq_refl)); assumption.
Qed.

Lemma migrateContent_keeps wpData m k id :
  m !! k = Some id -> id <> "" -> entryMap (migrateContent wpData m) !! k = Some id.
Proof.
  intros Hk Hid. unfold Migration.migrateContent.
  apply migratePages_keeps, Hid. apply migratePosts_keeps, Hid.
  apply migrateTags_keeps, Hid. apply migrateCategories_keeps, Hid.
  apply migrateAuthors_keeps, Hid. exact Hk.
Qed.

(** C3. An iteration on an entity whose key has a destination id in the map
    only increments [skipped]: the map, the log of the requests to the
    destination and the saved file are as before. So a run on an export all
    of whose entities are mapped ends with the map it started with, no
    request made, and for every family [migrated = 0] and [skipped = total];
    and no iteration and no run changes a mapping that has a destination
    id. *)
Theorem C3_present_entities_are_skipped :
  (forall f key attempt st,
      present (entryMap st) key ->
      migrateEntity f key attempt st = updStats f incSkipped st)
  /\ (forall wpData m,
        fullyPopulated wpData m ->
        let st := migrateContent wpData m in
        entryMap st = m /\ saved st = m /\ calls st = []
        /\ forall f, getStats f (stats st) = skippedAll (familySize f wpData))
  /\ (forall f key attempt st k id,
        entryMap st !! k = Some id -> id <> "" ->
        entryMap (migrateEntity f key attempt st) !! k = Some id)
  /\ (forall wpData m k id,
        m !! k = Some id -> id <> "" ->
        entryMap (migrateContent wpData m) !! k = Some id).
Proof.
  split; [exact migrateEntity_present|].
  split; [exact migrateContent_rerun|].
  split; [exact migrateEntity_keeps|exact migrateContent_keeps].
Qed.


End Run.

End MigrationFacts.

(** An export with one author and one post, both mapped: the second run
    makes no request. *)
Lemma C3_witness :
  let wpData :=
    {| Migration.users :=
         [{| Migration.user_id := 1; Migration.user_name := "ann";
             Migration.user_slug := "ann"; Migration.user_description := "" |}];
       Migration.categories := [];
       Migration.tags := [];
       Migration.posts :=
         [{| Migration.post_id := 7; Migration.post_title := "Hello";
             Migration.post_slug := "hello"; Migration.post_date := "";
             Migration.post_modified := ""; Migration.post_excerpt := "";
             Migration.post_content := "<p>Hello</p>";
             Migration.post_categories := []; Migration.post_tags := [];
             Migration.post_author := 1; Migration.post_featured_media := 0;
             Migration.post_yoast := None |}];
       Migration.pages := [] |} in
  let m : gmap string string := <["author_1" := "a1"]> (<["post_7" := "e7"]> ∅) in
  MigrationSpec.fullyPopulated wpData m
  /\ Migration.calls
       (Migration.migrateContent (fun _ => []) id id id
          (fun _ _ => Migration.Err "unreachable") (fun _ => Migration.Ok tt)
          5%positive ∅ wpData m) = [].
Proof.
  intros wpData m.
  assert (H : MigrationSpec.fullyPopulated wpData m)
    by (repeat split; repeat constructor).
  split; [exact H|].
  exact (proj1 (proj2 (proj2
    (proj1 (proj2
      (MigrationFacts.C3_present_entities_are_skipped (fun _ => []) id id id
         (fun _ _ => Migration.Err "unreachable") (fun _ => Migration.Ok tt)
         5%positive ∅)) wpData m H)))).
Defined.


(** ** Further properties of the migration loops *)

Module MigrationMore.
Import Migration MigrationSpec MigrationMoreSpec MigrationFacts.

(** *** Counters of one iteration and of a loop *)

Section LoopCounts.

Context {E : Type}.
Variable f : Family.
Variable key : E -> string.
Variable attempt : E -> gmap string string -> Attempt string.
Variable step : State -> E -> State.
Hypothesis step_eq : forall st e, step st e = migrateEntity f (key e) (attempt e) st.

Lemma migrateEntity_counts_same k att st :
  total (getStats f (stats (migrateEntity f k att st))) = total (getStats f (stats st))
  /\ processedCount (getStats f (stats (migrateEntity f k att st)))
     = S (processedCount (getStats f (stats st))).
Proof.
  unfold migrateEntity, updStats, processedCount.
  destruct (Js.truthy_opt (entryMap st !! k)); simpl.
  - rewrite getStats_setStats. simpl. split; [reflexivity|lia].
  - destruct (att (entryMap st) (calls st)) as [[id|message] log]; simpl;
      rewrite getStats_setStats; simpl; split; try reflexivity; lia.
Qed.

Lemma migrateEntity_counts_other g k att st :
  f <> g ->
  getStats g (stats (migrateEntity f k att st)) = getStats g (stats st).
Proof.
  intros Hne. unfold migrateEntity, updStats.
  destruct (Js.truthy_opt (entryMap st !! k)); simpl.
  - apply getStats_setStats_ne, Hne.
  - destruct (att (entryMap st) (calls st)) as [[id|message] log]; simpl;
      apply getStats_setStats_ne, Hne.
Qed.

Lemma loop_counts_same (l : list E) : forall st,
  total (getStats f (stats (foldl step st l))) = total (getStats f (stats st))
  /\ processedCount (getStats f (stats (foldl step st l)))
     = (processedCount (getStats f (stats st)) + List.length l)%nat.
Proof.
  induction l as [|e l IH]; intros st; simpl; [split; [reflexivity|lia]|].
  destruct (IH (step st e)) as [Ht Hp]. rewrite Ht, Hp, step_eq.
  destruct (migrateEntity_counts_same (key e) (attempt e) st) as [Ht' Hp'].
  rewrite Ht', Hp'. split; [reflexivity|lia].
Qed.

Lemma loop_counts_other g (l : list E) : forall st,
  f <> g -> getStats g (stats (foldl step st l)) = getStats g (stats st).
Proof.
  induction l as [|e l IH]; intros st Hne; simpl; [reflexivity|].
  rewrite IH by exact Hne. rewrite step_eq. apply migrateEntity_counts_other, Hne.
Qed.

(** The log of the requests only grows, by at most [k] requests for an
    iteration whose [try] block makes at most [k]. *)
Variable k : nat.
Hypothesis attempt_budget : forall e m log,
  exists more, snd (attempt e m log) = (log ++ more)%list /\ (List.length more <= k)%nat.

Lemma migrateEntity_calls st e :
  exists more, calls (step st e) = (calls st ++ more)%list /\ (List.length more <= k)%nat.
Proof.
  rewrite step_eq. unfold migrateEntity, updStats.
  destruct (Js.truthy_opt (entryMap st !! key e)); simpl.
  - exists []. rewrite app_nil_r. split; [reflexivity|simpl; lia].
  - destruct (attempt_budget e (entryMap st) (calls st)) as [more [Hmore Hlen]].
    destruct (attempt e (entryMap st) (calls st)) as [[id|message] log]; simpl in *;
      exists more; split; assumption.
Qed.

Lemma loop_calls (l : list E) : forall st,
  exists more, calls (foldl step st l) = (calls st ++ more)%list
               /\ (List.length more <= k * List.length l)%nat.
Proof.
  induction l as [|e l IH]; intros st; simpl.
  - exists []. rewrite app_nil_r. split; [reflexivity|simpl; lia].
  - destruct (migrateEntity_calls st e) as [m1 [H1 L1]].
    destruct (IH (step st e)) as [m2 [H2 L2]].
    exists (m1 ++ m2)%list. rewrite H2, H1, <- app_assoc. split; [reflexivity|].
    rewrite length_app. lia.
Qed.

(** With a [try] block that always returns a non-empty id, every entity of
    the loop has its mapping at the end. *)
Hypothesis attempt_succeeds : forall e m log,
  exists id log', attempt e m log = (Ok id, log') /\ id <> "".

Lemma step_present st e : present (entryMap (step st e)) (key e).
Proof.
  rewrite step_eq. unfold present, migrateEntity.
  destruct (Js.truthy_opt (entryMap st !! key e)) eqn:Hp; [exact Hp|].
  destruct (attempt_succeeds e (entryMap st) (calls st)) as (id & log' & Hatt & Hid).
  rewrite Hatt. simpl. rewrite lookup_insert_eq. simpl. apply truthy_true, Hid.
Qed.

Lemma step_no_failure st e :
  failed (getStats f (stats (step st e))) = failed (getStats f (stats st)).
Proof.
  rewrite step_eq. unfold migrateEntity, updStats.
  destruct (Js.truthy_opt (entryMap st !! key e)); simpl.
  - rewrite getStats_setStats. reflexivity.
  - destruct (attempt_succeeds e (entryMap st) (calls st)) as (id & log' & Hatt & Hid).
    rewrite Hatt. simpl. rewrite getStats_setStats. reflexivity.
Qed.

Lemma present_keeps_loop (l : list E) st key0 :
  present (entryMap st) key0 -> present (entryMap (foldl step st l)) key0.
Proof.
  unfold present. intros Hp.
  destruct (entryMap st !! key0) as [id|] eqn:Hk; [|discriminate].
  simpl in Hp. apply truthy_true in Hp.
  rewrite (loop_keeps f key attempt step step_eq l st key0 id Hk Hp).
  simpl. apply truthy_true, Hp.
Qed.

Lemma loop_all_present (l : list E) : forall st,
  Forall (fun e => present (entryMap (foldl step st l)) (key e)) l.
Proof.
  induction l as [|e l IH]; intros st; simpl; constructor.
  - apply present_keeps_loop, step_present.
  - apply IH.
Qed.

Lemma loop_no_failure (l : list E) : forall st,
  failed (getStats f (stats (foldl step st l))) = failed (getStats f (stats st)).
Proof.
  induction l as [|e l IH]; intros st; simpl; [reflexivity|].
  rewrite IH. apply step_no_failure.
Qed.

End LoopCounts.

(** *** A loop of [migrateContent], up to what is saved *)

Section FamilyLoop.

Context {E : Type}.
Variable f : Family.
Variable key : E -> string.
Variable attempt : E -> gmap string string -> Attempt string.
Variable step : State -> E -> State.
Hypothesis step_eq : forall st e, step st e = migrateEntity f (key e) (attempt e) st.
Variable loop : State -> State.
Variable order : list E.
Variable n : nat.
Hypothesis loop_flat : forall st,
  sameRun (loop st) (foldl step (updStats f (withTotal n) st) order).
Hypothesis order_length : List.length order = n.

Lemma familyLoop_counts st :
  total (getStats f (stats (loop st))) = n
  /\ processedCount (getStats f (stats (loop st)))
     = (processedCount (getStats f (stats st)) + n)%nat.
Proof.
  destruct (loop_flat st) as (_ & Hs & _). rewrite Hs.
  destruct (loop_counts_same f key attempt step step_eq order
              (updStats f (withTotal n) st)) as [Ht Hp].
  rewrite Ht, Hp, order_length. unfold updStats. simpl.
  rewrite getStats_setStats. split; reflexivity.
Qed.

Lemma familyLoop_other g st :
  f <> g -> getStats g (stats (loop st)) = getStats g (stats st).
Proof.
  intros Hne. destruct (loop_flat st) as (_ & Hs & _). rewrite Hs.
  rewrite (loop_counts_other f key attempt step step_eq g order _ Hne).
  unfold updStats. simpl. apply getStats_setStats_ne, Hne.
Qed.

Lemma familyLoop_keeps st key0 :
  present (entryMap st) key0 -> present (entryMap (loop st)) key0.
Proof.
  intros Hp. destruct (loop_flat st) as (Hm & _ & _). rewrite Hm.
  apply (present_keeps_loop f key attempt step step_eq). exact Hp.
Qed.

Lemma familyLoop_calls k st :
  (forall e m log,
     exists more, snd (attempt e m log) = (log ++ more)%list
                  /\ (List.length more <= k)%nat) ->
  exists more, calls (loop st) = (calls st ++ more)%list
               /\ (List.length more <= k * n)%nat.
Proof.
  intros Hbudget. destruct (loop_flat st) as (_ & _ & Hc). rewrite Hc.
  destruct (loop_calls f key attempt step step_eq k Hbudget order
              (updStats f (withTotal n) st)) as [more [Hmore Hlen]].
  exists more. rewrite order_length in Hlen. split; assumption.
Qed.

Hypothesis attempt_succeeds : forall e m log,
  exists id log', attempt e m log = (Ok id, log') /\ id <> "".

Lemma familyLoop_present st :
  Forall (fun e => present (entryMap (loop st)) (key e)) order.
Proof.
  destruct (loop_flat st) as (Hm & _ & _). rewrite Hm.
  apply (loop_all_present f key attempt step step_eq attempt_succeeds).
Qed.

Lemma familyLoop_no_failure st :
  failed (getStats f (stats (loop st))) = failed (getStats f (stats st)).
Proof.
  destruct (loop_flat st) as (_ & Hs & _). rewrite Hs.
  rewrite (loop_no_failure f key attempt step step_eq attempt_succeeds).
  unfold updStats. simpl. rewrite getStats_setStats. reflexivity.
Qed.

End FamilyLoop.

(** *** The stable sort by [parent] *)

Lemma insertByParent_Permutation {A} (parent : A -> Z) x l :
  insertByParent parent x l ≡ₚ x :: l.
Proof.
  induction l as [|y l IH]; simpl; [reflexivity|].
  destruct (parent x <=? parent y); [reflexivity|].
  rewrite IH. apply Permutation_swap.
Qed.

Lemma sortByParent_Permutation {A} (parent : A -> Z) l :
  sortByParent parent l ≡ₚ l.
Proof.
  induction l as [|x l IH]; simpl; [reflexivity|].
  rewrite insertByParent_Permutation, IH. reflexivity.
Qed.

(** *** The run *)

Section Run.

Variable parse : string -> list Node.
Variable stripShortcodes preprocessGutenbergBlocks sanitizeText : string -> string.
Variable createEntry : string -> Fields -> Result string.
Variable publish : string -> Result unit.
Variable BATCH_SIZE : positive.
Variable assetMap : gmap string string.

Local Abbreviation migrateUser := (migrateUser sanitizeText createEntry publish).
Local Abbreviation migrateCategory := (migrateCategory sanitizeText createEntry publish).
Local Abbreviation migrateTag := (migrateTag sanitizeText createEntry publish).
Local Abbreviation migratePost :=
  (migratePost parse stripShortcodes preprocessGutenbergBlocks sanitizeText
     createEntry publish assetMap).
Local Abbreviation migratePage :=
  (migratePage parse stripShortcodes preprocessGutenbergBlocks sanitizeText
     createEntry publish assetMap).
Local Abbreviation tryAuthor := (tryAuthor sanitizeText createEntry publish).
Local Abbreviation tryCategory := (tryCategory sanitizeText createEntry publish).
Local Abbreviation tryTag := (tryTag sanitizeText createEntry publish).
Local Abbreviation tryPost :=
  (tryPost parse stripShortcodes preprocessGutenbergBlocks sanitizeText
     createEntry publish assetMap).
Local Abbreviation tryPage :=
  (tryPage parse stripShortcodes preprocessGutenbergBlocks sanitizeText
     createEntry publish assetMap).
Local Abbreviation migrateAuthors := (migrateAuthors sanitizeText createEntry publish).
Local Abbreviation migrateCategories := (migrateCategories sanitizeText createEntry publish).
Local Abbreviation migrateTags := (migrateTags sanitizeText createEntry publish).
Local Abbreviation migratePosts :=
  (migratePosts parse stripShortcodes preprocessGutenbergBlocks sanitizeText
     createEntry publish BATCH_SIZE assetMap).
Local Abbreviation migratePages :=
  (migratePages parse stripShortcodes preprocessGutenbergBlocks sanitizeText
     createEntry publish assetMap).
Local Abbreviation migrateContent :=
  (migrateContent parse stripShortcodes preprocessGutenbergBlocks sanitizeText
     createEntry publish BATCH_SIZE assetMap).

Local Abbreviation userKey := (fun u : User => mapKey "author_" (user_id u)).
Local Abbreviation catKey := (fun c : Category => mapKey "cat_" (cat_id c)).
Local Abbreviation tagKey := (fun t : Tag => mapKey "tag_" (tag_id t)).
Local Abbreviation postKey := (fun p : Post => mapKey "post_" (post_id p)).
Local Abbreviation pageKey := (fun p : Page => mapKey "page_" (page_id p)).

Lemma authors_flat l st :
  sameRun (migrateAuthors l st)
    (foldl migrateUser (updStats Authors (withTotal (List.length l)) st) l).
Proof. apply saveProgress_sameRun. Qed.

Lemma categories_flat l st :
  sameRun (migrateCategories l st)
    (foldl migrateCategory (updStats Categories (withTotal (List.length l)) st)
       (sortByParent cat_parent l)).
Proof. apply saveProgress_sameRun. Qed.

Lemma tags_flat l st :
  sameRun (migrateTags l st)
    (foldl migrateTag (updStats Tags (withTotal (List.length l)) st) l).
Proof. apply saveProgress_sameRun. Qed.

Lemma posts_flat l st :
  sameRun (migratePosts l st)
    (foldl migratePost (updStats Posts (withTotal (List.length l)) st) l).
Proof. apply migratePostBatches_flat. Qed.

Lemma pages_flat l st :
  sameRun (migratePages l st)
    (foldl migratePage (updStats Pages (withTotal (List.length l)) st)
       (sortByParent page_parent l)).
Proof. apply saveProgress_sameRun. Qed.

(** The counters of the five loops. *)

Lemma authors_counts (l : list User) st :
  total (getStats Authors (stats (migrateAuthors l st))) = List.length l
  /\ processedCount (getStats Authors (stats (migrateAuthors l st)))
     = (processedCount (getStats Authors (stats st)) + List.length l)%nat.
Proof.
  apply (familyLoop_counts Authors userKey tryAuthor migrateUser (fun _ _ => eq_refl)
           (migrateAuthors l) l (List.length l) (authors_flat l) eq_refl).
Qed.

Lemma authors_other (l : list User) g st :
  Authors <> g -> getStats g (stats (migrateAuthors l st)) = getStats g (stats st).
Proof.
  apply (familyLoop_other Authors userKey tryAuthor migrateUser (fun _ _ => eq_refl)
           (migrateAuthors l) l (List.length l) (authors_flat l)).
Qed.

Lemma authors_keep_present (l : list User) st key0 :
  present (entryMap st) key0 -> present (entryMap (migrateAuthors l st)) key0.
Proof.
  apply (familyLoop_keeps Authors userKey tryAuthor migrateUser (fun _ _ => eq_refl)
           (migrateAuthors l) l (List.length l) (authors_flat l)).
Qed.

Lemma categories_counts (l : list Category) st :
  total (getStats Categories (stats (migrateCategories l st))) = List.length l
  /\ processedCount (getStats Categories (stats (migrateCategories l st)))
     = (processedCount (getStats Categories (stats st)) + List.length l)%nat.
Proof.
  apply (familyLoop_counts Categories catKey tryCategory migrateCategory (fun _ _ => eq_refl)
           (migrateCategories l) (sortByParent cat_parent l) (List.length l) (categories_flat l) (sortByParent_length cat_parent l)).
Qed.

Lemma categories_other (l : list Category) g st :
  Categories <> g -> getStats g (stats (migrateCategories l st)) = getStats g (stats st).
Proof.
  apply (familyLoop_other Categories catKey tryCategory migrateCategory (fun _ _ => eq_refl)
           (migrateCategories l) (sortByParent cat_parent l) (List.length l) (categories_flat l)).
Qed.

Lemma categories_keep_present (l : list Category) st key0 :
  present (entryMap st) key0 -> present (entryMap (migrateCategories l st)) key0.
Proof.
  apply (familyLoop_keeps Categories catKey tryCategory migrateCategory (fun _ _ => eq_refl)
           (migrateCategories l) (sortByParent cat_parent l) (List.length l) (categories_flat l)).
Qed.

Lemma tags_counts (l : list Tag) st :
  total (getStats Tags (stats (migrateTags l st))) = List.length l
  /\ processedCount (getStats Tags (stats (migrateTags l st)))
     = (processedCount (getStats Tags (stats st)) + List.length l)%nat.
Proof.
  apply (familyLoop_counts Tags tagKey tryTag migrateTag (fun _ _ => eq_refl)
           (migrateTags l) l (List.length l) (tags_flat l) eq_refl).
Qed.

Lemma tags_other (l : list Tag) g st :
  Tags <> g -> getStats g (stats (migrateTags l st)) = getStats g (stats st).
Proof.
  apply (familyLoop_other Tags tagKey tryTag migrateTag (fun _ _ => eq_refl)
           (migrateTags l) l (List.length l) (tags_flat l)).
Qed.

Lemma tags_keep_present (l : list Tag) st key0 :
  present (entryMap st) key0 -> present (entryMap (migrateTags l st)) key0.
Proof.
  apply (familyLoop_keeps Tags tagKey tryTag migrateTag (fun _ _ => eq_refl)
           (migrateTags l) l (List.length l) (tags_flat l)).
Qed.

Lemma posts_counts (l : list Post) st :
  total (getStats Posts (stats (migratePosts l st))) = List.length l
  /\ processedCount (getStats Posts (stats (migratePosts l st)))
     = (processedCount (getStats Posts (stats st)) + List.length l)%nat.
Proof.
  apply (familyLoop_counts Posts postKey tryPost migratePost (fun _ _ => eq_refl)
           (migratePosts l) l (List.length l) (posts_flat l) eq_refl).
Qed.

Lemma posts_other (l : list Post) g st :
  Posts <> g -> getStats g (stats (migratePosts l st)) = getStats g (stats st).
Proof.
  apply (familyLoop_other Posts postKey tryPost migratePost (fun _ _ => eq_refl)
           (migratePosts l) l (List.length l) (posts_flat l)).
Qed.

Lemma posts_keep_present (l : list Post) st key0 :
  present (entryMap st) key0 -> present (entryMap (migratePosts l st)) key0.
Proof.
  apply (familyLoop_keeps Posts postKey tryPost migratePost (fun _ _ => eq_refl)
           (migratePosts l) l (List.length l) (posts_flat l)).
Qed.

Lemma pages_counts (l : list Page) st :
  total (getStats Pages (stats (migratePages l st))) = List.length l
  /\ processedCount (getStats Pages (stats (migratePages l st)))
     = (processedCount (getStats Pages (stats st)) + List.length l)%nat.
Proof.
  apply (familyLoop_counts Pages pageKey tryPage migratePage (fun _ _ => eq_refl)
           (migratePages l) (sortByParent page_parent l) (List.length l) (pages_flat l) (sortByParent_length page_parent l)).
Qed.

Lemma pages_other (l : list Page) g st :
  Pages <> g -> getStats g (stats (migratePages l st)) = getStats g (stats st).
Proof.
  apply (familyLoop_other Pages pageKey tryPage migratePage (fun _ _ => eq_refl)
           (migratePages l) (sortByParent page_parent l) (List.length l) (pages_flat l)).
Qed.

Lemma pages_keep_present (l : list Page) st key0 :
  present (entryMap st) key0 -> present (entryMap (migratePages l st)) key0.
Proof.
  apply (familyLoop_keeps Pages pageKey tryPage migratePage (fun _ _ => eq_refl)
           (migratePages l) (sortByParent page_parent l) (List.length l) (pages_flat l)).
Qed.

(** X1. Every entity of the export is counted exactly once: at the end of
    a run, for each family, [total] is the number of its entities and
    [migrated + skipped + failed = total]. *)
Theorem migrateContent_counts_every_entity (wpData : WpData) (m : gmap string string)
    (f : Family) :
  let s := getStats f (stats (migrateContent wpData m)) in
  total s = familySize f wpData
  /\ (migrated s + skipped s + failed s)%nat = total s.
Proof.
  cbv zeta. change (migrated ?s + skipped ?s + failed ?s)%nat with (processedCount s).
  unfold Migration.migrateContent.
  destruct f; simpl familySize.
  - rewrite pages_other, posts_other, tags_other, categories_other by discriminate.
    destruct (authors_counts (users wpData) (initialState m)) as [Ht Hp].
    rewrite Ht, Hp. split; reflexivity.
  - rewrite pages_other, posts_other, tags_other by discriminate.
    match goal with |- context [migrateCategories _ ?st] =>
      destruct (categories_counts (categories wpData) st) as [Ht Hp] end.
    rewrite Ht, Hp, authors_other by discriminate. split; reflexivity.
  - rewrite pages_other, posts_other by discriminate.
    match goal with |- context [migrateTags _ ?st] =>
      destruct (tags_counts (tags wpData) st) as [Ht Hp] end.
    rewrite Ht, Hp, categories_other, authors_other by discriminate. split; reflexivity.
  - rewrite pages_other by discriminate.
    match goal with |- context [migratePosts _ ?st] =>
      destruct (posts_counts (posts wpData) st) as [Ht Hp] end.
    rewrite Ht, Hp, tags_other, categories_other, authors_other by discriminate.
    split; reflexivity.
  - match goal with |- context [migratePages _ ?st] =>
      destruct (pages_counts (pages wpData) st) as [Ht Hp] end.
    rewrite Ht, Hp, posts_other, tags_other, categories_other, authors_other
      by discriminate.
    split; reflexivity.
Qed.

(** The requests of a [try] block. *)

Lemma createAndPublish_budget contentType fields log :
  exists more,
    snd (createAndPublish createEntry publish contentType fields log) = (log ++ more)%list
    /\ (List.length more <= 2)%nat.
Proof.
  unfold createAndPublish, bind, callCreateEntry, callPublish, ret.
  destruct (createEntry contentType fields) as [id|message].
  - destruct (publish id) as [u|message]; simpl;
      exists [CreateEntry contentType fields; Publish id];
      rewrite <- app_assoc; split; [reflexivity|simpl; lia|reflexivity|simpl; lia].
  - exists [CreateEntry contentType fields]. split; [reflexivity|simpl; lia].
Qed.

Lemma tryPage_budget page m log :
  exists more, snd (tryPage page m log) = (log ++ more)%list /\ (List.length more <= 4)%nat.
Proof.
  unfold Migration.tryPage. unfold bind at 1.
  destruct (createAndPublish_budget "richTextSection" (sectionFields parse stripShortcodes
              preprocessGutenbergBlocks sanitizeText assetMap page m) log)
    as [m1 [H1 L1]].
  destruct (createAndPublish createEntry publish "richTextSection" _ log)
    as [[sectionId|message] log1]; simpl in H1; subst log1.
  - destruct (createAndPublish_budget "page"
                (pageFields sanitizeText assetMap page m sectionId) (log ++ m1)%list)
      as [m2 [H2 L2]].
    exists (m1 ++ m2)%list. rewrite H2, <- app_assoc. split; [reflexivity|].
    rewrite length_app. lia.
  - exists m1. split; [reflexivity|lia].
Qed.

Lemma authors_calls (l : list User) st :
  exists more, calls (migrateAuthors l st) = (calls st ++ more)%list
               /\ (List.length more <= 2 * List.length l)%nat.
Proof.
  apply (familyLoop_calls Authors userKey tryAuthor migrateUser (fun _ _ => eq_refl)
           (migrateAuthors l) l (List.length l) (authors_flat l) eq_refl 2).
  exact (fun e m log => createAndPublish_budget _ _ log).
Qed.

Lemma categories_calls (l : list Category) st :
  exists more, calls (migrateCategories l st) = (calls st ++ more)%list
               /\ (List.length more <= 2 * List.length l)%nat.
Proof.
  apply (familyLoop_calls Categories catKey tryCategory migrateCategory (fun _ _ => eq_refl)
           (migrateCategories l) (sortByParent cat_parent l) (List.length l) (categories_flat l) (sortByParent_length cat_parent l) 2).
  exact (fun e m log => createAndPublish_budget _ _ log).
Qed.

Lemma tags_calls (l : list Tag) st :
  exists more, calls (migrateTags l st) = (calls st ++ more)%list
               /\ (List.length more <= 2 * List.length l)%nat.
Proof.
  apply (familyLoop_calls Tags tagKey tryTag migrateTag (fun _ _ => eq_refl)
           (migrateTags l) l (List.length l) (tags_flat l) eq_refl 2).
  exact (fun e m log => createAndPublish_budget _ _ log).
Qed.

Lemma posts_calls (l : list Post) st :
  exists more, calls (migratePosts l st) = (calls st ++ more)%list
               /\ (List.length more <= 2 * List.length l)%nat.
Proof.
  apply (familyLoop_calls Posts postKey tryPost migratePost (fun _ _ => eq_refl)
           (migratePosts l) l (List.length l) (posts_flat l) eq_refl 2).
  exact (fun e m log => createAndPublish_budget _ _ log).
Qed.

Lemma pages_calls (l : list Page) st :
  exists more, calls (migratePages l st) = (calls st ++ more)%list
               /\ (List.length more <= 4 * List.length l)%nat.
Proof.
  apply (familyLoop_calls Pages pageKey tryPage migratePage (fun _ _ => eq_refl)
           (migratePages l) (sortByParent page_parent l) (List.length l) (pages_flat l) (sortByParent_length page_parent l) 4).
  exact tryPage_budget.
Qed.

(** X2. A run makes at most two requests to the destination for each
    author, category, tag and post of the export and at most four for each
    page. *)
Theorem migrateContent_request_budget (wpData : WpData) (m : gmap string string) :
  (List.length (calls (migrateContent wpData m)) <= requestBudget wpData)%nat.
Proof.
  unfold Migration.migrateContent, requestBudget.
  match goal with |- context [migratePages _ ?st] =>
    destruct (pages_calls (pages wpData) st) as [m5 [H5 L5]] end.
  match goal with |- context [migratePosts _ ?st] =>
    destruct (posts_calls (posts wpData) st) as [m4 [H4 L4]] end.
  match goal with |- context [migrateTags _ ?st] =>
    destruct (tags_calls (tags wpData) st) as [m3 [H3 L3]] end.
  match goal with |- context [migrateCategories _ ?st] =>
    destruct (categories_calls (categories wpData) st) as [m2 [H2 L2]] end.
  destruct (authors_calls (users wpData) (initialState m)) as [m1 [H1 L1]].
  rewrite H5, H4, H3, H2, H1. simpl. rewrite !length_app. lia.
Qed.

(** *** A destination that accepts everything *)

Hypothesis destination_ok : alwaysSucceeds createEntry publish.

Lemma createAndPublish_succeeds contentType fields log :
  exists id log',
    createAndPublish createEntry publish contentType fields log = (Ok id, log') /\ id <> "".
Proof.
  destruct destination_ok as [Hcreate Hpublish].
  destruct (Hcreate contentType fields) as [id [Hid Hne]].
  exists id. unfold createAndPublish, bind, callCreateEntry, callPublish, ret.
  rewrite Hid, Hpublish. eexists. split; [reflexivity|exact Hne].
Qed.

Lemma tryPage_succeeds page m log :
  exists id log', tryPage page m log = (Ok id, log') /\ id <> "".
Proof.
  unfold Migration.tryPage. unfold bind at 1.
  destruct (createAndPublish_succeeds "richTextSection"
              (sectionFields parse stripShortcodes preprocessGutenbergBlocks sanitizeText
                 assetMap page m) log) as (sectionId & log1 & H1 & _).
  rewrite H1. apply createAndPublish_succeeds.
Qed.

Lemma authors_all_present (l : list User) st :
  Forall (fun e => present (entryMap (migrateAuthors l st)) (userKey e)) l.
Proof.
  apply (familyLoop_present Authors userKey tryAuthor migrateUser (fun _ _ => eq_refl)
           (migrateAuthors l) l (List.length l) (authors_flat l)).
  exact (fun e m log => createAndPublish_succeeds _ _ log).
Qed.

Lemma authors_no_failure (l : list User) st :
  failed (getStats Authors (stats (migrateAuthors l st))) = failed (getStats Authors (stats st)).
Proof.
  apply (familyLoop_no_failure Authors userKey tryAuthor migrateUser (fun _ _ => eq_refl)
           (migrateAuthors l) l (List.length l) (authors_flat l)).
  exact (fun e m log => createAndPublish_succeeds _ _ log).
Qed.

Lemma categories_all_present (l : list Category) st :
  Forall (fun e => present (entryMap (migrateCategories l st)) (catKey e)) l.
Proof.
  rewrite <- (sortByParent_Permutation cat_parent l).
  apply (familyLoop_present Categories catKey tryCategory migrateCategory (fun _ _ => eq_refl)
           (migrateCategories l) (sortByParent cat_parent l) (List.length l) (categories_flat l)).
  exact (fun e m log => createAndPublish_succeeds _ _ log).
Qed.

Lemma categories_no_failure (l : list Category) st :
  failed (getStats Categories (stats (migrateCategories l st))) = failed (getStats Categories (stats st)).
Proof.
  apply (familyLoop_no_failure Categories catKey tryCategory migrateCategory (fun _ _ => eq_refl)
           (migrateCategories l) (sortByParent cat_parent l) (List.length l) (categories_flat l)).
  exact (fun e m log => createAndPublish_succeeds _ _ log).
Qed.

Lemma tags_all_present (l : list Tag) st :
  Forall (fun e => present (entryMap (migrateTags l st)) (tagKey e)) l.
Proof.
  apply (familyLoop_present Tags tagKey tryTag migrateTag (fun _ _ => eq_refl)
           (migrateTags l) l (List.length l) (tags_flat l)).
  exact (fun e m log => createAndPublish_succeeds _ _ log).
Qed.

Lemma tags_no_failure (l : list Tag) st :
  failed (getStats Tags (stats (migrateTags l st))) = failed (getStats Tags (stats st)).
Proof.
  apply (familyLoop_no_failure Tags tagKey tryTag migrateTag (fun _ _ => eq_refl)
           (migrateTags l) l (List.length l) (tags_flat l)).
  exact (fun e m log => createAndPublish_succeeds _ _ log).
Qed.

Lemma posts_all_present (l : list Post) st :
  Forall (fun e => present (entryMap (migratePosts l st)) (postKey e)) l.
Proof.
  apply (familyLoop_present Posts postKey tryPost migratePost (fun _ _ => eq_refl)
           (migratePosts l) l (List.length l) (posts_flat l)).
  exact (fun e m log => createAndPublish_succeeds _ _ log).
Qed.

Lemma posts_no_failure (l : list Post) st :
  failed (getStats Posts (stats (migratePosts l st))) = failed (getStats Posts (stats st)).
Proof.
  apply (familyLoop_no_failure Posts postKey tryPost migratePost (fun _ _ => eq_refl)
           (migratePosts l) l (List.length l) (posts_flat l)).
  exact (fun e m log => createAndPublish_succeeds _ _ log).
Qed.

Lemma pages_all_present (l : list Page) st :
  Forall (fun e => present (entryMap (migratePages l st)) (pageKey e)) l.
Proof.
  rewrite <- (sortByParent_Permutation page_parent l).
  apply (familyLoop_present Pages pageKey tryPage migratePage (fun _ _ => eq_refl)
           (migratePages l) (sortByParent page_parent l) (List.length l) (pages_flat l)).
  exact tryPage_succeeds.
Qed.

Lemma pages_no_failure (l : list Page) st :
  failed (getStats Pages (stats (migratePages l st))) = failed (getStats Pages (stats st)).
Proof.
  apply (familyLoop_no_failure Pages pageKey tryPage migratePage (fun _ _ => eq_refl)
           (migratePages l) (sortByParent page_parent l) (List.length l) (pages_flat l)).
  exact tryPage_succeeds.
Qed.

Lemma first_run_populates (wpData : WpData) (m0 : gmap string string) :
  fullyPopulated wpData (entryMap (migrateContent wpData m0)).
Proof.
  unfold Migration.migrateContent, fullyPopulated. repeat split.
  - eapply Forall_impl; [apply (authors_all_present (users wpData) (initialState m0))|].
    intros user H. simpl in H.
    apply pages_keep_present, posts_keep_present, tags_keep_present,
      categories_keep_present, H.
  - eapply Forall_impl; [apply (categories_all_present (categories wpData))|].
    intros cat H. simpl in H.
    apply pages_keep_present, posts_keep_present, tags_keep_present, H.
  - eapply Forall_impl; [apply (tags_all_present (tags wpData))|].
    intros tag H. simpl in H.
    apply pages_keep_present, posts_keep_present, H.
  - eapply Forall_impl; [apply (posts_all_present (posts wpData))|].
    intros post H. simpl in H. apply pages_keep_present, H.
  - apply (pages_all_present (pages wpData)).
Qed.

Lemma first_run_no_failure (wpData : WpData) (m0 : gmap string string) (f : Family) :
  failed (getStats f (stats (migrateContent wpData m0))) = 0%nat.
Proof.
  unfold Migration.migrateContent. destruct f.
  - rewrite pages_other, posts_other, tags_other, categories_other by discriminate.
    rewrite authors_no_failure. reflexivity.
  - rewrite pages_other, posts_other, tags_other by discriminate.
    rewrite categories_no_failure, authors_other by discriminate. reflexivity.
  - rewrite pages_other, posts_other by discriminate.
    rewrite tags_no_failure, categories_other, authors_other by discriminate. reflexivity.
  - rewrite pages_other by discriminate.
    rewrite posts_no_failure, tags_other, categories_other, authors_other by discriminate.
    reflexivity.
  - rewrite pages_no_failure, posts_other, tags_other, categories_other, authors_other
      by discriminate.
    reflexivity.
Qed.

End Run.

(** X3. Idempotence of the pipeline. With a destination that accepts every
    request and returns non-empty ids, a first run, from any entry map, fails
    for no entity and leaves a mapping for every entity of the export; a second
    run on the same export with the map of the first makes no request, changes
    no mapping, and ends with [migrated = 0] and [skipped = total] in every
    family. *)
Theorem migrateContent_twice
    (parse : string -> list Node)
    (stripShortcodes preprocessGutenbergBlocks sanitizeText : string -> string)
    (createEntry : string -> Fields -> Result string) (publish : string -> Result unit)
    (BATCH_SIZE : positive) (assetMap : gmap string string)
    (wpData : WpData) (m0 : gmap string string) :
  alwaysSucceeds createEntry publish ->
  let run := migrateContent parse stripShortcodes preprocessGutenbergBlocks sanitizeText
               createEntry publish BATCH_SIZE assetMap wpData in
  (forall f, failed (getStats f (stats (run m0))) = 0%nat)
  /\ fullyPopulated wpData (entryMap (run m0))
  /\ entryMap (run (entryMap (run m0))) = entryMap (run m0)
  /\ calls (run (entryMap (run m0))) = []
  /\ (forall f, getStats f (stats (run (entryMap (run m0))))
                = skippedAll (familySize f wpData)).
Proof.
  intros Hok run.
  assert (Hpop : fullyPopulated wpData (entryMap (run m0)))
    by (apply first_run_populates, Hok).
  split; [intros f; apply first_run_no_failure, Hok|].
  split; [exact Hpop|].
  destruct (migrateContent_rerun parse stripShortcodes preprocessGutenbergBlocks
              sanitizeText createEntry publish BATCH_SIZE assetMap wpData
              (entryMap (run m0)) Hpop) as (Hm & _ & Hc & Hs).
  split; [exact Hm|]. split; [exact Hc|exact Hs].
Qed.

(** *** Keys of the entry map *)

Lemma append_inj_r (p a b : string) : p +:+ a = p +:+ b -> a = b.
Proof. induction p as [|c p IH]; simpl; intros H; [exact H|]. inversion H. auto. Qed.

(** X4. Two entities have the same key only when they are of the same family
    and have the same id: the five prefixes keep the families apart. *)
Theorem mapKey_injective (p q : string) (i j : Z) :
  In p familyPrefixes -> In q familyPrefixes ->
  mapKey p i = mapKey q j -> p = q /\ i = j.
Proof.
  unfold familyPrefixes, mapKey. simpl.
  intros Hp Hq Heq.
  assert (Hpq : p = q).
  { repeat (destruct Hp as [<-|Hp]; [|]); try contradiction;
      repeat (destruct Hq as [<-|Hq]; [|]); try contradiction;
      try reflexivity; simpl in Heq; discriminate. }
  subst q. split; [reflexivity|].
  apply append_inj_r in Heq. unfold Js.numToString in Heq.
  apply (inj pretty) in Heq. exact Heq.
Qed.

Lemma mapKey_injective_witness :
  In "post_" familyPrefixes /\ In "post_" familyPrefixes
  /\ mapKey "post_" 42 = mapKey "post_" 42
  /\ ("post_" = "post_" /\ 42 = 42).
Proof.
  assert (Hp : In "post_" familyPrefixes) by (simpl; auto 10).
  split; [exact Hp|]. split; [exact Hp|]. split; [reflexivity|].
  exact (mapKey_injective "post_" "post_" 42 42 Hp Hp eq_refl).
Defined.

(** *** References of a post *)


(** *** The fields of a page against the content type *)

Lemma substring0_length n s : (String.length (Js.substring0 n s) <= n)%nat.
Proof.
  unfold Js.substring0. revert s. induction n as [|n IH]; intros s.
  - destruct s; simpl; lia.
  - destruct s as [|c s]; simpl; [lia|]. specialize (IH s). lia.
Qed.

Lemma tagIn_In t l : Dom.tagIn t l = true -> In t l.
Proof.
  unfold Dom.tagIn. intros H. apply existsb_exists in H.
  destruct H as (x & Hx & Heq). apply String.eqb_eq in Heq. subst. exact Hx.
Qed.

Lemma seoFields_validations y name v :
  In (name, v) (seoFields y) ->
  name <> "template"
  /\ (name = "seoDescription" ->
      exists d, v = FString d /\ (String.length d <= 160)%nat).
Proof.
  unfold seoFields. destruct y as [yoast|]; [|intros []].
  intros Hin. apply in_app_or in Hin.
  assert (Hone : forall (o : option FieldValue) fieldName,
            In (name, v) (optField fieldName o) -> name = fieldName /\ o = Some v).
  { intros o fieldName H. destruct o as [x|]; simpl in H; [|destruct H].
    destruct H as [H|[]]. inversion H. auto. }
  destruct Hin as [Hin|Hin]; apply Hone in Hin; destruct Hin as [-> Hv].
  - split; [discriminate|]. intros Hname. discriminate.
  - split; [discriminate|]. intros _.
    destruct (Js.truthy (yoast_description yoast)); inversion Hv.
    eexists. split; [reflexivity|apply substring0_length].
Qed.

Lemma in_optField name v fieldName o :
  In (name, v) (optField fieldName o) -> name = fieldName.
Proof.
  destruct o as [x|]; simpl; [|intros []]. intros [H|[]]. inversion H. reflexivity.
Qed.

Lemma in_linksField name v fieldName ids :
  In (name, v) (linksField fieldName ids) -> name = fieldName.
Proof.
  destruct ids as [|x l]; simpl; [intros []|]. intros [H|[]]. inversion H. reflexivity.
Qed.

Lemma in_parentField name v m prefix parent :
  In (name, v) (parentField m prefix parent) -> name = "parent".
Proof.
  unfold parentField. destruct (parent =? 0); [intros []|]. apply in_optField.
Qed.

(** X6. What [migrateContent] writes into [template] and [seoDescription] passes
    the validations of the content types [page] and [blogPost]: [template] is
    one of the four allowed values, and [seoDescription] has at most 160
    characters. *)
Theorem fields_respect_validations
    (parse : string -> list Node)
    (stripShortcodes preprocessGutenbergBlocks sanitizeText : string -> string)
    (assetMap m : gmap string string) (page : Page) (post : Post) (sectionId : string)
    (name : string) (v : FieldValue) :
  In (name, v) (pageFields sanitizeText assetMap page m sectionId)
  \/ In (name, v) (postFields parse stripShortcodes preprocessGutenbergBlocks sanitizeText
                     assetMap post m) ->
  (name = "template" -> exists t, v = FString t /\ In t allowedTemplates)
  /\ (name = "seoDescription" ->
      exists d, v = FString d /\ (String.length d <= 160)%nat).
Proof.
  intros [Hin|Hin].
  - unfold pageFields in Hin.
    repeat (apply in_app_or in Hin; destruct Hin as [Hin|Hin]).
    + simpl in Hin.
      repeat (destruct Hin as [Hin|Hin];
              [inversion Hin; subst; split; intros Hname; try discriminate|]);
        [|destruct Hin].
      eexists. split; [reflexivity|]. unfold pageTemplate, allowedTemplates.
      destruct (Dom.tagIn (page_template page) _) eqn:Ht.
      * apply tagIn_In, Ht.
      * simpl. auto.
    + apply in_parentField in Hin. subst. split; discriminate.
    + apply in_optField in Hin. subst. split; discriminate.
    + destruct (seoFields_validations _ _ _ Hin) as [Hnt Hseo].
      split; [intros Hname; contradiction|exact Hseo].
  - unfold postFields in Hin.
    repeat (apply in_app_or in Hin; destruct Hin as [Hin|Hin]).
    + simpl in Hin.
      repeat (destruct Hin as [Hin|Hin];
              [inversion Hin; subst; split; intros Hname; discriminate|]).
      destruct Hin.
    + apply in_linksField in Hin. subst. split; discriminate.
    + apply in_linksField in Hin. subst. split; discriminate.
    + apply in_optField in Hin. subst. split; discriminate.
    + apply in_optField in Hin. subst. split; discriminate.
    + destruct (seoFields_validations _ _ _ Hin) as [Hnt Hseo].
      split; [intros Hname; contradiction|exact Hseo].
Qed.

(** *** The order of the categories and of the pages *)

Lemma insertByParent_Sorted {A} (parent : A -> Z) x l :
  Sorted (fun a b => parent a <= parent b) l ->
  Sorted (fun a b => parent a <= parent b) (insertByParent parent x l).
Proof.
  induction 1 as [|y l Hl IH Hhd]; simpl.
  - repeat constructor.
  - destruct (Z.leb_spec (parent x) (parent y)).
    + constructor; [constructor; assumption|constructor; assumption].
    + constructor; [exact IH|].
      destruct l as [|z l]; simpl.
      * constructor. lia.
      * destruct (Z.leb_spec (parent x) (parent z)); constructor; try lia.
        inversion Hhd. assumption.
Qed.

Lemma insertByParent_filter {A} (parent : A -> Z) (p : Z) x l :
  List.filter (fun a => parent a =? p) (insertByParent parent x l)
  = List.filter (fun a => parent a =? p) (x :: l).
Proof.
  induction l as [|y l IH]; [reflexivity|].
  simpl insertByParent. destruct (Z.leb_spec (parent x) (parent y)); [reflexivity|].
  simpl in *. rewrite IH.
  destruct (Z.eqb_spec (parent x) p), (Z.eqb_spec (parent y) p); try reflexivity. lia.
Qed.

(** X7. [sort((a, b) => a.parent - b.parent)]: the categories, and the pages,
    are visited in non-decreasing order of [parent], each of them once, and
    those with the same parent in the order of the export. *)
Theorem sortByParent_stable_sort {A} (parent : A -> Z) (l : list A) :
  Sorted (fun a b => parent a <= parent b) (sortByParent parent l)
  /\ sortByParent parent l ≡ₚ l
  /\ (forall p, List.filter (fun a => parent a =? p) (sortByParent parent l)
               = List.filter (fun a => parent a =? p) l).
Proof.
  split; [|split].
  - induction l as [|x l IH]; simpl; [constructor|]. apply insertByParent_Sorted, IH.
  - apply sortByParent_Permutation.
  - intros p. induction l as [|x l IH]; [reflexivity|].
    simpl sortByParent. rewrite insertByParent_filter. simpl. rewrite IH. reflexivity.
Qed.

(** *** The requests of a loop *)

Section LoopRequests.

Context {E : Type}.
Variable f : Family.
Variable key : E -> string.
Variable attempt : E -> gmap string string -> Attempt string.
Variable step : State -> E -> State.
Hypothesis step_eq : forall st e, step st e = migrateEntity f (key e) (attempt e) st.

(** An iteration writes the key of its entity only. *)
Lemma migrateEntity_other_key k att st k0 :
  k <> k0 -> entryMap (migrateEntity f k att st) !! k0 = entryMap st !! k0.
Proof.
  intros Hne. unfold migrateEntity.
  destruct (Js.truthy_opt (entryMap st !! k)); [reflexivity|].
  destruct (att (entryMap st) (calls st)) as [[id|message] log]; simpl; [|reflexivity].
  apply lookup_insert_ne, Hne.
Qed.

Lemma loop_other_key (l : list E) : forall st k0,
  Forall (fun e => key e <> k0) l ->
  entryMap (foldl step st l) !! k0 = entryMap st !! k0.
Proof.
  induction l as [|e l IH]; intros st k0 Hl; [reflexivity|].
  inversion Hl as [|? ? He Hrest]; subst. simpl. rewrite IH by exact Hrest.
  rewrite step_eq. apply migrateEntity_other_key, He.
Qed.

(** The request of the [try] block of [e] that creates its entry, with the
    map [m]. *)
Variable request : E -> gmap string string -> Call.
Hypothesis attempt_requests : forall e m log,
  exists before more,
    snd (attempt e m log) = (log ++ before ++ request e m :: more)%list.

Lemma step_grows st e : exists more, calls (step st e) = (calls st ++ more)%list.
Proof.
  rewrite step_eq. unfold migrateEntity.
  destruct (Js.truthy_opt (entryMap st !! key e)).
  - exists []. simpl. rewrite app_nil_r. reflexivity.
  - destruct (attempt_requests e (entryMap st) (calls st)) as (before & more & Hmore).
    destruct (attempt e (entryMap st) (calls st)) as [[id|message] log]; simpl in *;
      exists (before ++ request e (entryMap st) :: more)%list; exact Hmore.
Qed.

Lemma loop_grows (l : list E) : forall st,
  exists more, calls (foldl step st l) = (calls st ++ more)%list.
Proof.
  induction l as [|e l IH]; intros st; simpl.
  - exists []. rewrite app_nil_r. reflexivity.
  - destruct (IH (step st e)) as [m2 H2]. destruct (step_grows st e) as [m1 H1].
    exists (m1 ++ m2)%list. rewrite H2, H1, <- app_assoc. reflexivity.
Qed.

(** The iteration on an entity without a mapping makes the request of the
    entity, with the map as it is at that iteration. *)
Lemma loop_request (l1 : list E) (e : E) (l2 : list E) (st : State) :
  Js.truthy_opt (entryMap (foldl step st l1) !! key e) = false ->
  In (request e (entryMap (foldl step st l1))) (calls (foldl step st (l1 ++ e :: l2))).
Proof.
  intros Hnew. rewrite foldl_app. simpl.
  destruct (loop_grows l2 (step (foldl step st l1) e)) as [m2 H2]. rewrite H2.
  apply in_or_app. left. rewrite step_eq. unfold migrateEntity. rewrite Hnew.
  destruct (attempt_requests e (entryMap (foldl step st l1)) (calls (foldl step st l1)))
    as (before & more & Hmore).
  destruct (attempt e _ _) as [[id|message] log]; simpl in *; subst log;
    apply in_or_app; right; apply in_or_app; right; left; reflexivity.
Qed.

End LoopRequests.

(** *** A loop over a hierarchy, sorted by [parent] *)

Lemma sortByParent_Sorted {A} (parent : A -> Z) (l : list A) :
  Sorted (fun a b => parent a <= parent b) (sortByParent parent l).
Proof.
  induction l as [|x l IH]; simpl; [constructor|]. apply insertByParent_Sorted, IH.
Qed.

Lemma Sorted_after {A} (parent : A -> Z) (l1 : list A) (c : A) (l2 : list A) :
  Sorted (fun a b => parent a <= parent b) (l1 ++ c :: l2)%list ->
  Forall (fun x => parent c <= parent x) l2.
Proof.
  induction l1 as [|y l1 IH]; simpl; intros H.
  - apply Sorted_StronglySorted in H; [|intros x y z; lia].
    inversion H; assumption.
  - inversion H; subst. apply IH. assumption.
Qed.

Lemma mapKey_inj_id (prefix : string) (i j : Z) :
  mapKey prefix i = mapKey prefix j -> i = j.
Proof.
  unfold mapKey. intros H. apply append_inj_r in H.
  unfold Js.numToString in H. apply (inj pretty) in H. exact H.
Qed.

Lemma NoDup_before {A} (ident : A -> Z) (l1 : list A) (c : A) (l2 : list A) :
  NoDup (map ident (l1 ++ c :: l2)%list) ->
  Forall (fun e => ident e <> ident c) l1.
Proof.
  rewrite map_app. simpl. intros H. apply NoDup_app in H. destruct H as (_ & Hd & _).
  apply Forall_forall. intros e He Heq. apply (Hd (ident e)).
  - apply list_elem_of_In, in_map, list_elem_of_In, He.
  - rewrite Heq. apply elem_of_cons. left. reflexivity.
Qed.

Lemma present_value (m : gmap string string) (k : string) :
  present m k -> exists id, m !! k = Some id /\ id <> "".
Proof.
  unfold present. destruct (m !! k) as [id|]; [|discriminate]. simpl. intros H.
  exists id. split; [reflexivity|apply truthy_true, H].
Qed.

Section Hierarchy.

Context {E : Type}.
Variable f : Family.
Variable ident parent : E -> Z.
Variable prefix : string.
Variable attempt : E -> gmap string string -> Attempt string.
Variable step : State -> E -> State.
Hypothesis step_eq :
  forall st e, step st e = migrateEntity f (mapKey prefix (ident e)) (attempt e) st.
Variable request : E -> gmap string string -> Call.
Hypothesis attempt_requests : forall e m log,
  exists before more,
    snd (attempt e m log) = (log ++ before ++ request e m :: more)%list.
Hypothesis attempt_succeeds : forall e m log,
  exists id log', attempt e m log = (Ok id, log') /\ id <> "".

(** An entity whose [parent] is smaller than the [parent] of [child] has
    its mapping when the loop comes to [child]. *)
Lemma hierarchy_request (l : list E) (st : State) (par child : E) :
  In par l -> In child l -> NoDup (map ident l) ->
  parent par < parent child ->
  Js.truthy_opt (entryMap st !! mapKey prefix (ident child)) = false ->
  exists id m1,
    m1 !! mapKey prefix (ident par) = Some id /\ id <> ""
    /\ entryMap (foldl step st (sortByParent parent l)) !! mapKey prefix (ident par) = Some id
    /\ In (request child m1) (calls (foldl step st (sortByParent parent l))).
Proof.
  intros Hpar Hchild Hnodup Hlt Hnew.
  pose proof (sortByParent_Permutation parent l) as Hperm.
  pose proof (sortByParent_Sorted parent l) as Hsorted.
  assert (Hchild' : In child (sortByParent parent l))
    by (eapply Permutation_in; [symmetry; exact Hperm|exact Hchild]).
  assert (Hpar' : In par (sortByParent parent l))
    by (eapply Permutation_in; [symmetry; exact Hperm|exact Hpar]).
  assert (Hnodup' : NoDup (map ident (sortByParent parent l))).
  { rewrite (Permutation_map ident Hperm). exact Hnodup. }
  destruct (in_split _ _ Hchild') as (l1 & l2 & Hl). rewrite Hl in *.
  pose proof (Sorted_after parent l1 child l2 Hsorted) as Hafter.
  pose proof (NoDup_before ident l1 child l2 Hnodup') as Hbefore.
  assert (Hin1 : In par l1).
  { apply in_app_or in Hpar'. destruct Hpar' as [H|[H|H]]; [exact H| |].
    - subst par. lia.
    - rewrite Forall_forall in Hafter.
      specialize (Hafter par (proj2 (list_elem_of_In _ _) H)). lia. }
  set (s := foldl step st l1).
  assert (Hpresent : present (entryMap s) (mapKey prefix (ident par))).
  { pose proof (loop_all_present f (fun e => mapKey prefix (ident e)) attempt step step_eq
                  attempt_succeeds l1 st) as Hall.
    rewrite Forall_forall in Hall. apply Hall, list_elem_of_In, Hin1. }
  destruct (present_value _ _ Hpresent) as (id & Hid & Hne).
  exists id, (entryMap s). split; [exact Hid|]. split; [exact Hne|]. split.
  - rewrite foldl_app. fold s.
    apply (loop_keeps f (fun e => mapKey prefix (ident e)) attempt step step_eq);
      assumption.
  - apply (loop_request f (fun e => mapKey prefix (ident e)) attempt step step_eq
             request attempt_requests).
    fold s. unfold s.
    rewrite (loop_other_key f (fun e => mapKey prefix (ident e)) attempt step step_eq).
    + exact Hnew.
    + eapply Forall_impl; [exact Hbefore|]. intros e He Hk. apply He.
      apply (mapKey_inj_id prefix), Hk.
Qed.

(** An entity whose [parent] is larger than the [parent] of [child] comes
    after [child]: without a mapping at the start, it has none when the
    loop comes to [child]. *)
Lemma hierarchy_request_early (l : list E) (st : State) (par child : E) :
  In par l -> In child l -> NoDup (map ident l) ->
  parent child < parent par ->
  Js.truthy_opt (entryMap st !! mapKey prefix (ident child)) = false ->
  Js.truthy_opt (entryMap st !! mapKey prefix (ident par)) = false ->
  exists m1,
    Js.truthy_opt (m1 !! mapKey prefix (ident par)) = false
    /\ In (request child m1) (calls (foldl step st (sortByParent parent l))).
Proof.
  intros Hpar Hchild Hnodup Hlt Hnew Hnopar.
  pose proof (sortByParent_Permutation parent l) as Hperm.
  pose proof (sortByParent_Sorted parent l) as Hsorted.
  assert (Hchild' : In child (sortByParent parent l))
    by (eapply Permutation_in; [symmetry; exact Hperm|exact Hchild]).
  assert (Hpar' : In par (sortByParent parent l))
    by (eapply Permutation_in; [symmetry; exact Hperm|exact Hpar]).
  assert (Hnodup' : NoDup (map ident (sortByParent parent l))).
  { rewrite (Permutation_map ident Hperm). exact Hnodup. }
  destruct (in_split _ _ Hpar') as (l1 & l2 & Hl). rewrite Hl in *.
  pose proof (Sorted_after parent l1 par l2 Hsorted) as Hafter.
  pose proof (NoDup_before ident l1 par l2 Hnodup') as Hbefore.
  assert (Hin1 : In child l1).
  { apply in_app_or in Hchild'. destruct Hchild' as [H|[H|H]]; [exact H| |].
    - subst par. lia.
    - rewrite Forall_forall in Hafter.
      specialize (Hafter child (proj2 (list_elem_of_In _ _) H)). lia. }
  destruct (in_split _ _ Hin1) as (a & b & Ha). subst l1.
  rewrite <- app_assoc in Hnodup'. simpl in Hnodup'.
  pose proof (NoDup_before ident a child _ Hnodup') as Hchild_new.
  apply Forall_app in Hbefore. destruct Hbefore as [Hpar_new _].
  exists (entryMap (foldl step st a)). split.
  - rewrite (loop_other_key f (fun e => mapKey prefix (ident e)) attempt step step_eq).
    + exact Hnopar.
    + eapply Forall_impl; [exact Hpar_new|]. intros e He Hk. apply He.
      apply (mapKey_inj_id prefix), Hk.
  - rewrite <- app_assoc. simpl.
    apply (loop_request f (fun e => mapKey prefix (ident e)) attempt step step_eq
             request attempt_requests).
    rewrite (loop_other_key f (fun e => mapKey prefix (ident e)) attempt step step_eq).
    + exact Hnew.
    + eapply Forall_impl; [exact Hchild_new|]. intros e He Hk. apply He.
      apply (mapKey_inj_id prefix), Hk.
Qed.

End Hierarchy.

(** *** References between the entries of a first run *)

Lemma mapKey_prefix_ne (p q : string) (i j : Z) :
  In p familyPrefixes -> In q familyPrefixes -> p <> q -> mapKey p i <> mapKey q j.
Proof.
  unfold familyPrefixes, mapKey. simpl. intros Hp Hq Hne Heq.
  repeat (destruct Hp as [<-|Hp]; [|]); try contradiction;
    repeat (destruct Hq as [<-|Hq]; [|]); try contradiction;
    try (apply Hne; reflexivity); simpl in Heq; discriminate.
Qed.

Lemma resolveIds_member (m : gmap string string) (prefix : string) (ids : list Z)
    (i : Z) (id : string) :
  In i ids -> m !! mapKey prefix i = Some id -> id <> "" ->
  In id (resolveIds m prefix ids).
Proof.
  intros Hi Hm Hne. unfold resolveIds. apply in_flat_map. exists i. split; [exact Hi|].
  unfold lookupTruthy. rewrite Hm. apply truthy_true in Hne. rewrite Hne. left. reflexivity.
Qed.

Lemma linksField_member (name : string) (ids : list string) (id : string) :
  In id ids ->
  In (name, FLinks (map (fun x => ("Entry", x)) ids)) (linksField name ids)
  /\ In ("Entry", id) (map (fun x => ("Entry", x)) ids).
Proof.
  intros Hid. split; [|apply (in_map (fun x => ("Entry", x))), Hid].
  destruct ids as [|x l]; [destruct Hid|]. left. reflexivity.
Qed.

Section References.

Variable parse : string -> list Node.
Variable stripShortcodes preprocessGutenbergBlocks sanitizeText : string -> string.
Variable createEntry : string -> Fields -> Result string.
Variable publish : string -> Result unit.
Variable BATCH_SIZE : positive.
Variable assetMap : gmap string string.
Hypothesis destination_ok : alwaysSucceeds createEntry publish.

Local Abbreviation migrateAuthors := (migrateAuthors sanitizeText createEntry publish).
Local Abbreviation migrateCategories := (migrateCategories sanitizeText createEntry publish).
Local Abbreviation migrateTags := (migrateTags sanitizeText createEntry publish).
Local Abbreviation migratePosts :=
  (migratePosts parse stripShortcodes preprocessGutenbergBlocks sanitizeText
     createEntry publish BATCH_SIZE assetMap).
Local Abbreviation migratePages :=
  (migratePages parse stripShortcodes preprocessGutenbergBlocks sanitizeText
     createEntry publish assetMap).
Local Abbreviation migrateContent :=
  (migrateContent parse stripShortcodes preprocessGutenbergBlocks sanitizeText
     createEntry publish BATCH_SIZE assetMap).
Local Abbreviation postFields :=
  (postFields parse stripShortcodes preprocessGutenbergBlocks sanitizeText assetMap).
Local Abbreviation categoryFields := (categoryFields sanitizeText).

Lemma createAndPublish_requests contentType fields log :
  exists before more,
    snd (createAndPublish createEntry publish contentType fields log)
    = (log ++ before ++ CreateEntry contentType fields :: more)%list.
Proof.
  exists []. unfold createAndPublish, bind, callCreateEntry, callPublish, ret.
  destruct (createEntry contentType fields) as [id|message].
  - destruct (publish id) as [u|message]; simpl; exists [Publish id];
      rewrite <- app_assoc; reflexivity.
  - exists []. reflexivity.
Qed.

(** The loops of the other families leave a key alone. *)
Lemma authors_other_key (l : list User) st k0 :
  Forall (fun u => mapKey "author_" (user_id u) <> k0) l ->
  entryMap (migrateAuthors l st) !! k0 = entryMap st !! k0.
Proof.
  intros H. destruct (authors_flat sanitizeText createEntry publish l st) as (Hm & _).
  rewrite Hm.
  rewrite (loop_other_key Authors (fun u => mapKey "author_" (user_id u))
             (tryAuthor sanitizeText createEntry publish)
             (migrateUser sanitizeText createEntry publish)
             (fun _ _ => eq_refl) l _ k0 H).
  reflexivity.
Qed.

Lemma categories_other_key (l : list Category) st k0 :
  Forall (fun c => mapKey "cat_" (cat_id c) <> k0) l ->
  entryMap (migrateCategories l st) !! k0 = entryMap st !! k0.
Proof.
  intros H. destruct (categories_flat sanitizeText createEntry publish l st) as (Hm & _).
  rewrite Hm. rewrite <- (sortByParent_Permutation cat_parent l) in H.
  rewrite (loop_other_key Categories (fun c => mapKey "cat_" (cat_id c))
             (tryCategory sanitizeText createEntry publish)
             (migrateCategory sanitizeText createEntry publish)
             (fun _ _ => eq_refl) _ _ k0 H).
  reflexivity.
Qed.

Lemma tags_other_key (l : list Tag) st k0 :
  Forall (fun t => mapKey "tag_" (tag_id t) <> k0) l ->
  entryMap (migrateTags l st) !! k0 = entryMap st !! k0.
Proof.
  intros H. destruct (tags_flat sanitizeText createEntry publish l st) as (Hm & _).
  rewrite Hm.
  rewrite (loop_other_key Tags (fun t => mapKey "tag_" (tag_id t))
             (tryTag sanitizeText createEntry publish)
             (migrateTag sanitizeText createEntry publish)
             (fun _ _ => eq_refl) l _ k0 H).
  reflexivity.
Qed.

Lemma prefixes_in :
  In "author_" familyPrefixes /\ In "cat_" familyPrefixes /\ In "tag_" familyPrefixes
  /\ In "post_" familyPrefixes /\ In "page_" familyPrefixes.
Proof. unfold familyPrefixes. simpl. auto 10. Qed.

(** X8. In a first run against a destination that accepts every request, the
    request that creates the entry of a post links the post to the entries
    of its categories, of its tags and of its author: the three loops
    before the loop of the posts have left a mapping for each of them. *)
Theorem first_run_links_post (wpData : WpData) (m0 : gmap string string) (post : Post) :
  In post (posts wpData) ->
  NoDup (map post_id (posts wpData)) ->
  Js.truthy_opt (m0 !! mapKey "post_" (post_id post)) = false ->
  exists fields,
    In (CreateEntry "blogPost" fields) (calls (migrateContent wpData m0))
    /\ In ("wpId", FNumber (post_id post)) fields
    /\ (forall cat, In cat (categories wpData) -> In (cat_id cat) (post_categories post) ->
        exists id links,
          entryMap (migrateContent wpData m0) !! mapKey "cat_" (cat_id cat) = Some id
          /\ In ("categories", FLinks links) fields /\ In ("Entry", id) links)
    /\ (forall tag, In tag (tags wpData) -> In (tag_id tag) (post_tags post) ->
        exists id links,
          entryMap (migrateContent wpData m0) !! mapKey "tag_" (tag_id tag) = Some id
          /\ In ("tags", FLinks links) fields /\ In ("Entry", id) links)
    /\ (forall user, In user (users wpData) -> user_id user = post_author post ->
        exists id,
          entryMap (migrateContent wpData m0) !! mapKey "author_" (user_id user) = Some id
          /\ In ("author", createLink id) fields).
Proof.
  intros Hpost Hnodup Hnew.
  destruct prefixes_in as (Pa & Pc & Pt & Pp & _).
  unfold Migration.migrateContent.
  set (st1 := migrateAuthors (users wpData) (initialState m0)).
  set (st2 := migrateCategories (categories wpData) st1).
  set (st3 := migrateTags (tags wpData) st2).
  set (st3' := updStats Posts (withTotal (List.length (posts wpData))) st3).
  destruct (in_split _ _ Hpost) as (l1 & l2 & Hl).
  pose (step := migratePost parse stripShortcodes preprocessGutenbergBlocks sanitizeText
                  createEntry publish assetMap).
  pose (key := fun p : Post => mapKey "post_" (post_id p)).
  pose (attempt := tryPost parse stripShortcodes preprocessGutenbergBlocks sanitizeText
                     createEntry publish assetMap).
  set (m1 := entryMap (foldl step st3' l1)).
  assert (Hm1 : Js.truthy_opt (m1 !! key post) = false).
  { unfold m1.
    rewrite (loop_other_key Posts key attempt step (fun _ _ => eq_refl)).
    - unfold st3', updStats. cbn [entryMap]. unfold st3, st2, st1.
      rewrite tags_other_key, categories_other_key, authors_other_key; [exact Hnew|..];
        apply Forall_forall; intros e _; apply mapKey_prefix_ne;
        try assumption; discriminate.
    - rewrite Hl in Hnodup. eapply Forall_impl; [apply (NoDup_before post_id _ _ _ Hnodup)|].
      intros e He Hk. apply He, (mapKey_inj_id "post_"), Hk. }
  assert (Hkept : forall k id, entryMap st3 !! k = Some id -> id <> "" ->
            m1 !! k = Some id
            /\ entryMap (migratePages (pages wpData) (migratePosts (posts wpData) st3)) !! k
               = Some id).
  { intros k id Hk Hne. split.
    - apply (loop_keeps Posts key attempt step (fun _ _ => eq_refl)); assumption.
    - apply migratePages_keeps, Hne. apply migratePosts_keeps, Hne. exact Hk. }
  exists (postFields post m1). split; [|split; [|split; [|split]]].
  - destruct (pages_calls parse stripShortcodes preprocessGutenbergBlocks sanitizeText
                createEntry publish assetMap (pages wpData)
                (migratePosts (posts wpData) st3)) as (more & Hmore & _).
    rewrite Hmore. apply in_or_app. left.
    destruct (posts_flat parse stripShortcodes preprocessGutenbergBlocks sanitizeText
                createEntry publish BATCH_SIZE assetMap (posts wpData) st3)
      as (_ & _ & Hcalls).
    rewrite Hcalls. fold st3' step. rewrite Hl.
    apply (loop_request Posts key attempt step (fun _ _ => eq_refl)
             (fun p m => CreateEntry "blogPost" (postFields p m))
             (fun e m log => createAndPublish_requests _ _ log) l1 post l2 st3' Hm1).
  - unfold Migration.postFields. apply in_or_app. left. simpl. auto 10.
  - intros cat Hcat Hid.
    assert (Hp : present (entryMap st3) (mapKey "cat_" (cat_id cat))).
    { apply tags_keep_present.
      pose proof (categories_all_present sanitizeText createEntry publish destination_ok
                    (categories wpData) st1) as Hall.
      rewrite Forall_forall in Hall. apply Hall, list_elem_of_In, Hcat. }
    destruct (present_value _ _ Hp) as (id & Hk & Hne).
    destruct (Hkept _ _ Hk Hne) as [H1 Hfinal].
    destruct (linksField_member "categories" _ id
                (resolveIds_member m1 "cat_" _ _ id Hid H1 Hne)) as [Hfield Hlink].
    exists id. eexists. split; [exact Hfinal|]. split; [|exact Hlink].
    unfold Migration.postFields. rewrite !in_app_iff. right. left. exact Hfield.
  - intros tag Htag Hid.
    assert (Hp : present (entryMap st3) (mapKey "tag_" (tag_id tag))).
    { pose proof (tags_all_present sanitizeText createEntry publish destination_ok
                    (tags wpData) st2) as Hall.
      rewrite Forall_forall in Hall. apply Hall, list_elem_of_In, Htag. }
    destruct (present_value _ _ Hp) as (id & Hk & Hne).
    destruct (Hkept _ _ Hk Hne) as [H1 Hfinal].
    destruct (linksField_member "tags" _ id
                (resolveIds_member m1 "tag_" _ _ id Hid H1 Hne)) as [Hfield Hlink].
    exists id. eexists. split; [exact Hfinal|]. split; [|exact Hlink].
    unfold Migration.postFields. rewrite !in_app_iff. right. right. left. exact Hfield.
  - intros user Huser Hauthor.
    assert (Hp : present (entryMap st3) (mapKey "author_" (user_id user))).
    { apply tags_keep_present, categories_keep_present.
      pose proof (authors_all_present sanitizeText createEntry publish destination_ok
                    (users wpData) (initialState m0)) as Hall.
      rewrite Forall_forall in Hall. apply Hall, list_elem_of_In, Huser. }
    destruct (present_value _ _ Hp) as (id & Hk & Hne).
    destruct (Hkept _ _ Hk Hne) as [H1 Hfinal].
    exists id. split; [exact Hfinal|].
    unfold Migration.postFields. rewrite !in_app_iff. right. right. right. left.
    unfold lookupTruthy. rewrite <- Hauthor, H1.
    apply truthy_true in Hne. rewrite Hne. left. reflexivity.
Qed.

(** X9. In a first run against a destination that accepts every request, the
    request that creates the entry of a category carries the link to its
    parent whenever the sort by [parent] puts the parent first, that is
    when the [parent] of the parent is smaller than the id of the parent,
    as it is for every parent at the top level. *)
Theorem first_run_links_parent_category (wpData : WpData) (m0 : gmap string string)
    (par child : Category) :
  In par (categories wpData) -> In child (categories wpData) ->
  NoDup (map cat_id (categories wpData)) ->
  cat_parent child = cat_id par -> cat_id par <> 0 -> cat_parent par < cat_id par ->
  Js.truthy_opt (m0 !! mapKey "cat_" (cat_id child)) = false ->
  exists id fields,
    entryMap (migrateContent wpData m0) !! mapKey "cat_" (cat_id par) = Some id
    /\ In (CreateEntry "category" fields) (calls (migrateContent wpData m0))
    /\ In ("wpId", FNumber (cat_id child)) fields
    /\ In ("parent", createLink id) fields.
Proof.
  intros Hpar Hchild Hnodup Hparent Hnz Hlt Hnew.
  destruct prefixes_in as (Pa & Pc & Pt & Pp & _).
  unfold Migration.migrateContent.
  set (st1 := migrateAuthors (users wpData) (initialState m0)).
  set (st1' := updStats Categories (withTotal (List.length (categories wpData))) st1).
  assert (Hnew1 : Js.truthy_opt (entryMap st1' !! mapKey "cat_" (cat_id child)) = false).
  { unfold st1', updStats. cbn [entryMap]. unfold st1.
    rewrite authors_other_key; [exact Hnew|].
    apply Forall_forall; intros e _; apply mapKey_prefix_ne; try assumption; discriminate. }
  destruct (hierarchy_request Categories cat_id cat_parent "cat_"
              (tryCategory sanitizeText createEntry publish)
              (migrateCategory sanitizeText createEntry publish) (fun _ _ => eq_refl)
              (fun c m => CreateEntry "category" (categoryFields c m))
              (fun e m log => createAndPublish_requests _ _ log)
              (fun e m log =>
                 MigrationMore.createAndPublish_succeeds createEntry publish
                   destination_ok _ _ log)
              (categories wpData) st1' par child Hpar Hchild Hnodup
              ltac:(rewrite Hparent; exact Hlt) Hnew1)
    as (id & m1 & H1 & Hne & Hend & Hreq).
  destruct (categories_flat sanitizeText createEntry publish (categories wpData) st1)
    as (Hmap & _ & Hcalls).
  exists id, (categoryFields child m1). split; [|split; [|split]].
  - apply migratePages_keeps, Hne. apply migratePosts_keeps, Hne.
    apply migrateTags_keeps, Hne. rewrite Hmap. exact Hend.
  - destruct (pages_calls parse stripShortcodes preprocessGutenbergBlocks sanitizeText
                createEntry publish assetMap (pages wpData)
                (migratePosts (posts wpData)
                   (migrateTags (tags wpData)
                      (migrateCategories (categories wpData) st1))))
      as (m5 & H5 & _).
    destruct (posts_calls parse stripShortcodes preprocessGutenbergBlocks sanitizeText
                createEntry publish BATCH_SIZE assetMap (posts wpData)
                (migrateTags (tags wpData) (migrateCategories (categories wpData) st1)))
      as (m4 & H4 & _).
    destruct (tags_calls sanitizeText createEntry publish (tags wpData)
                (migrateCategories (categories wpData) st1)) as (m3 & H3 & _).
    rewrite H5, H4, H3, Hcalls. repeat (apply in_or_app; left). exact Hreq.
  - unfold Migration.categoryFields. apply in_or_app. left. simpl. auto 10.
  - unfold Migration.categoryFields. apply in_or_app. right.
    unfold parentField. rewrite Hparent.
    destruct (Z.eqb_spec (cat_id par) 0) as [Hz|_]; [contradiction|].
    unfold lookupTruthy. rewrite H1. apply truthy_true in Hne. rewrite Hne.
    left. reflexivity.
Qed.

Lemma posts_other_key (l : list Post) st k0 :
  Forall (fun p => mapKey "post_" (post_id p) <> k0) l ->
  entryMap (migratePosts l st) !! k0 = entryMap st !! k0.
Proof.
  intros H.
  destruct (posts_flat parse stripShortcodes preprocessGutenbergBlocks sanitizeText
              createEntry publish BATCH_SIZE assetMap l st) as (Hm & _).
  rewrite Hm.
  rewrite (loop_other_key Posts (fun p => mapKey "post_" (post_id p))
             (tryPost parse stripShortcodes preprocessGutenbergBlocks sanitizeText
                createEntry publish assetMap)
             (migratePost parse stripShortcodes preprocessGutenbergBlocks sanitizeText
                createEntry publish assetMap)
             (fun _ _ => eq_refl) l _ k0 H).
  reflexivity.
Qed.

(** The request that creates the page follows the two requests for its
    section. *)
Lemma tryPage_requests page m log :
  exists before more,
    snd (tryPage parse stripShortcodes preprocessGutenbergBlocks sanitizeText
           createEntry publish assetMap page m log)
    = (log ++ before
       ++ CreateEntry "page"
            (pageFields sanitizeText assetMap page m
               (match createEntry "richTextSection"
                        (sectionFields parse stripShortcodes preprocessGutenbergBlocks
                           sanitizeText assetMap page m) with
                | Ok sectionId => sectionId
                | Err _ => ""
                end)) :: more)%list.
Proof.
  destruct destination_ok as [Hcreate Hpublish].
  unfold Migration.tryPage, createAndPublish, bind, callCreateEntry, callPublish, ret.
  destruct (Hcreate "richTextSection"
              (sectionFields parse stripShortcodes preprocessGutenbergBlocks
                 sanitizeText assetMap page m)) as (sid & Hsid & _).
  rewrite Hsid, Hpublish.
  destruct (Hcreate "page" (pageFields sanitizeText assetMap page m sid))
    as (pid & Hpid & _).
  rewrite Hpid, Hpublish. simpl.
  eexists [_; _], [_]. rewrite <- !app_assoc. reflexivity.
Qed.

(** X10. In a first run against a destination that accepts every request, the
    request that creates the entry of a page carries the link to its parent
    page whenever the sort by [parent] puts the parent first, that is when
    the [parent] of the parent is smaller than the id of the parent. *)
Theorem first_run_links_parent_page (wpData : WpData) (m0 : gmap string string)
    (par child : Page) :
  In par (pages wpData) -> In child (pages wpData) ->
  NoDup (map page_id (pages wpData)) ->
  page_parent child = page_id par -> page_id par <> 0 -> page_parent par < page_id par ->
  Js.truthy_opt (m0 !! mapKey "page_" (page_id child)) = false ->
  exists id fields,
    entryMap (migrateContent wpData m0) !! mapKey "page_" (page_id par) = Some id
    /\ In (CreateEntry "page" fields) (calls (migrateContent wpData m0))
    /\ In ("wpId", FNumber (page_id child)) fields
    /\ In ("parent", createLink id) fields.
Proof.
  intros Hpar Hchild Hnodup Hparent Hnz Hlt Hnew.
  destruct prefixes_in as (Pa & Pc & Pt & Pp & Pg).
  unfold Migration.migrateContent.
  set (st4 := migratePosts (posts wpData)
                (migrateTags (tags wpData)
                   (migrateCategories (categories wpData)
                      (migrateAuthors (users wpData) (initialState m0))))).
  set (st4' := updStats Pages (withTotal (List.length (pages wpData))) st4).
  assert (Hnew4 : Js.truthy_opt (entryMap st4' !! mapKey "page_" (page_id child)) = false).
  { unfold st4', updStats. cbn [entryMap]. unfold st4.
    rewrite posts_other_key, tags_other_key, categories_other_key, authors_other_key;
      [exact Hnew|..];
      apply Forall_forall; intros e _; apply mapKey_prefix_ne; try assumption; discriminate. }
  destruct (hierarchy_request Pages page_id page_parent "page_"
              (tryPage parse stripShortcodes preprocessGutenbergBlocks sanitizeText
                 createEntry publish assetMap)
              (migratePage parse stripShortcodes preprocessGutenbergBlocks sanitizeText
                 createEntry publish assetMap) (fun _ _ => eq_refl)
              _ tryPage_requests
              (MigrationMore.tryPage_succeeds parse stripShortcodes
                 preprocessGutenbergBlocks sanitizeText createEntry publish assetMap
                 destination_ok)
              (pages wpData) st4' par child Hpar Hchild Hnodup
              ltac:(rewrite Hparent; exact Hlt) Hnew4)
    as (id & m1 & H1 & Hne & Hend & Hreq).
  destruct (pages_flat parse stripShortcodes preprocessGutenbergBlocks sanitizeText
              createEntry publish assetMap (pages wpData) st4) as (Hmap & _ & Hcalls).
  exists id. eexists. split; [|split; [|split]].
  - rewrite Hmap. exact Hend.
  - rewrite Hcalls. exact Hreq.
  - unfold Migration.pageFields. apply in_or_app. left. simpl. auto 10.
  - unfold Migration.pageFields. rewrite !in_app_iff. right. left.
    unfold parentField. rewrite Hparent.
    destruct (Z.eqb_spec (page_id par) 0) as [Hz|_]; [contradiction|].
    unfold lookupTruthy. rewrite H1. apply truthy_true in Hne. rewrite Hne.
    left. reflexivity.
Qed.

Lemma not_in_optField name v fieldName (o : option FieldValue) :
  name <> fieldName -> ~ In (name, v) (optField fieldName o).
Proof.
  intros Hne. destruct o as [x|]; simpl; [|tauto]. intros [H|[]]. inversion H. congruence.
Qed.

(** X11. The sort by [parent] is not a parents-first order. A category whose
    parent comes later in it, the [parent] of the parent being larger than
    the id of the parent, is created before its parent has an entry: in a
    first run its request has no parent link, whatever the destination
    answers. *)
Theorem first_run_loses_parent_category (wpData : WpData) (m0 : gmap string string)
    (par child : Category) :
  In par (categories wpData) -> In child (categories wpData) ->
  NoDup (map cat_id (categories wpData)) ->
  cat_parent child = cat_id par -> cat_id par < cat_parent par ->
  Js.truthy_opt (m0 !! mapKey "cat_" (cat_id child)) = false ->
  Js.truthy_opt (m0 !! mapKey "cat_" (cat_id par)) = false ->
  exists fields,
    In (CreateEntry "category" fields) (calls (migrateContent wpData m0))
    /\ In ("wpId", FNumber (cat_id child)) fields
    /\ forall v, ~ In ("parent", v) fields.
Proof.
  intros Hpar Hchild Hnodup Hparent Hlt Hnew Hnopar.
  destruct prefixes_in as (Pa & Pc & Pt & Pp & _).
  unfold Migration.migrateContent.
  set (st1 := migrateAuthors (users wpData) (initialState m0)).
  set (st1' := updStats Categories (withTotal (List.length (categories wpData))) st1).
  assert (Hst1 : forall k, entryMap st1' !! mapKey "cat_" k = m0 !! mapKey "cat_" k).
  { intros k. unfold st1', updStats. cbn [entryMap]. unfold st1.
    rewrite authors_other_key; [reflexivity|].
    apply Forall_forall; intros e _; apply mapKey_prefix_ne; try assumption; discriminate. }
  destruct (hierarchy_request_early Categories cat_id cat_parent "cat_"
              (tryCategory sanitizeText createEntry publish)
              (migrateCategory sanitizeText createEntry publish) (fun _ _ => eq_refl)
              (fun c m => CreateEntry "category" (categoryFields c m))
              (fun e m log => createAndPublish_requests _ _ log)
              (categories wpData) st1' par child Hpar Hchild Hnodup
              ltac:(rewrite Hparent; exact Hlt)
              ltac:(rewrite Hst1; exact Hnew) ltac:(rewrite Hst1; exact Hnopar))
    as (m1 & H1 & Hreq).
  destruct (categories_flat sanitizeText createEntry publish (categories wpData) st1)
    as (_ & _ & Hcalls).
  exists (categoryFields child m1). split; [|split].
  - destruct (pages_calls parse stripShortcodes preprocessGutenbergBlocks sanitizeText
                createEntry publish assetMap (pages wpData)
                (migratePosts (posts wpData)
                   (migrateTags (tags wpData)
                      (migrateCategories (categories wpData) st1))))
      as (m5 & H5 & _).
    destruct (posts_calls parse stripShortcodes preprocessGutenbergBlocks sanitizeText
                createEntry publish BATCH_SIZE assetMap (posts wpData)
                (migrateTags (tags wpData) (migrateCategories (categories wpData) st1)))
      as (m4 & H4 & _).
    destruct (tags_calls sanitizeText createEntry publish (tags wpData)
                (migrateCategories (categories wpData) st1)) as (m3 & H3 & _).
    rewrite H5, H4, H3, Hcalls. repeat (apply in_or_app; left). exact Hreq.
  - unfold Migration.categoryFields. apply in_or_app. left. simpl. auto 10.
  - intros v Hin. unfold Migration.categoryFields in Hin.
    apply in_app_or in Hin. destruct Hin as [Hin|Hin].
    + simpl in Hin. repeat (destruct Hin as [Hin|Hin]; [discriminate|]). exact Hin.
    + unfold parentField in Hin. destruct (cat_parent child =? 0); [exact Hin|].
      rewrite Hparent in Hin. unfold lookupTruthy in Hin.
      destruct (m1 !! mapKey "cat_" (cat_id par)) as [x|]; simpl in *; [|exact Hin].
      rewrite H1 in Hin. exact Hin.
Qed.

(** X12. A page whose parent comes later in the sort by [parent], the [parent]
    of the parent being larger than the id of the parent, is created before
    its parent has an entry: in a first run against a destination that
    accepts every request, the request for the page has no parent link. *)
Theorem first_run_loses_parent_page (wpData : WpData) (m0 : gmap string string)
    (par child : Page) :
  In par (pages wpData) -> In child (pages wpData) ->
  NoDup (map page_id (pages wpData)) ->
  page_parent child = page_id par -> page_id par < page_parent par ->
  Js.truthy_opt (m0 !! mapKey "page_" (page_id child)) = false ->
  Js.truthy_opt (m0 !! mapKey "page_" (page_id par)) = false ->
  exists fields,
    In (CreateEntry "page" fields) (calls (migrateContent wpData m0))
    /\ In ("wpId", FNumber (page_id child)) fields
    /\ forall v, ~ In ("parent", v) fields.
Proof.
  intros Hpar Hchild Hnodup Hparent Hlt Hnew Hnopar.
  destruct prefixes_in as (Pa & Pc & Pt & Pp & Pg).
  unfold Migration.migrateContent.
  set (st4 := migratePosts (posts wpData)
                (migrateTags (tags wpData)
                   (migrateCategories (categories wpData)
                      (migrateAuthors (users wpData) (initialState m0))))).
  set (st4' := updStats Pages (withTotal (List.length (pages wpData))) st4).
  assert (Hst4 : forall k, entryMap st4' !! mapKey "page_" k = m0 !! mapKey "page_" k).
  { intros k. unfold st4', updStats. cbn [entryMap]. unfold st4.
    rewrite posts_other_key, tags_other_key, categories_other_key, authors_other_key;
      [reflexivity|..];
      apply Forall_forall; intros e _; apply mapKey_prefix_ne; try assumption; discriminate. }
  destruct (hierarchy_request_early Pages page_id page_parent "page_"
              (tryPage parse stripShortcodes preprocessGutenbergBlocks sanitizeText
                 createEntry publish assetMap)
              (migratePage parse stripShortcodes preprocessGutenbergBlocks sanitizeText
                 createEntry publish assetMap) (fun _ _ => eq_refl)
              _ tryPage_requests
              (pages wpData) st4' par child Hpar Hchild Hnodup
              ltac:(rewrite Hparent; exact Hlt)
              ltac:(rewrite Hst4; exact Hnew) ltac:(rewrite Hst4; exact Hnopar))
    as (m1 & H1 & Hreq).
  destruct (pages_flat parse stripShortcodes preprocessGutenbergBlocks sanitizeText
              createEntry publish assetMap (pages wpData) st4) as (_ & _ & Hcalls).
  eexists. split; [|split].
  - rewrite Hcalls. exact Hreq.
  - unfold Migration.pageFields. apply in_or_app. left. simpl. auto 10.
  - intros v Hin. unfold Migration.pageFields in Hin.
    apply in_app_or in Hin. destruct Hin as [Hin|Hin].
    + simpl in Hin. repeat (destruct Hin as [Hin|Hin]; [discriminate|]). exact Hin.
    + apply in_app_or in Hin. destruct Hin as [Hin|Hin].
      * unfold parentField in Hin. destruct (page_parent child =? 0); [exact Hin|].
        rewrite Hparent in Hin. unfold lookupTruthy in Hin.
        destruct (m1 !! mapKey "page_" (page_id par)) as [x|]; simpl in *; [|exact Hin].
        rewrite H1 in Hin. exact Hin.
      * apply in_app_or in Hin. destruct Hin as [Hin|Hin].
        -- revert Hin. apply not_in_optField. discriminate.
        -- unfold seoFields in Hin. destruct (page_yoast child) as [y|]; [|exact Hin].
           apply in_app_or in Hin.
           destruct Hin as [Hin|Hin]; revert Hin; apply not_in_optField; discriminate.
Qed.

End References.

End MigrationMore.

(** ** The schema of the document *)

Section Schema.

Variable assetMap entryMap : gmap string string.
Variable preserveWhitespace : bool.

Lemma shape_ensureTextNode l :
  forallb inlineShape l = true -> forallb inlineShape (ensureTextNode l) = true.
Proof. destruct l; simpl; auto. Qed.

Lemma shape_addMark m item : inlineShape (addMark m item) = inlineShape item.
Proof. destruct item; reflexivity. Qed.

Lemma shape_wrapContent markType l :
  forallb inlineShape l = true -> forallb inlineShape (wrapContent markType l) = true.
Proof.
  intros H. destruct markType as [m|]; simpl; [|exact H].
  rewrite <- H. clear H. induction l as [|x l IH]; simpl; [reflexivity|].
  rewrite shape_addMark, IH. reflexivity.
Qed.

Lemma shape_buildHyperlink href content :
  content <> [] -> forallb inlineShape content = true ->
  inlineShape (buildHyperlink entryMap href content) = true.
Proof.
  intros Hne Hs. unfold buildHyperlink.
  destruct content as [|x l]; [congruence|].
  destruct (extractWpPostIdFromUrl href) as [n|]; [|exact Hs].
  destruct (Js.truthy_num (Some n)); [|exact Hs].
  destruct (entryMap !! _) as [id|]; [|exact Hs].
  destruct (Js.truthy id) eqn:Hid; [|exact Hs].
  simpl. rewrite Hid. exact Hs.
Qed.

Lemma shape_inlineChild child : forall excl,
  forallb inlineShape (inlineChild entryMap excl child) = true.
Proof.
  induction child as [text|text|tagName attrs childNodes IH] using Node_nested_ind;
    intros excl.
  - simpl. destruct (Js.truthy text); reflexivity.
  - reflexivity.
  - assert (Hall : forall e,
              forallb inlineShape
                (ensureTextNode (flat_map (inlineChild entryMap e) childNodes)) = true).
    { intros e. apply shape_ensureTextNode, forallb_flat_map.
      eapply Forall_impl; [exact IH|]. intros c Hc. apply Hc. }
    simpl.
    repeat (match goal with |- context [if ?c then _ else _] => destruct c end;
            try reflexivity; try apply Hall; try (apply shape_wrapContent, Hall)).
    simpl. rewrite andb_true_r. apply shape_buildHyperlink; [|apply Hall].
    apply ensureTextNode_nonempty.
Qed.

Lemma shape_processInlineContent node excl :
  forallb inlineShape (processInlineContent entryMap node excl) = true.
Proof.
  unfold processInlineContent. apply shape_ensureTextNode, forallb_flat_map.
  apply Forall_forall. intros c _. apply shape_inlineChild.
Qed.

Lemma shape_paragraph content :
  content <> [] -> forallb inlineShape content = true ->
  paragraphShape (Block PARAGRAPH NoData content) = true.
Proof.
  intros Hne Hs. simpl. rewrite Hs. destruct content; [congruence|reflexivity].
Qed.

Lemma paragraph_top n : paragraphShape n = true -> topShape n = true.
Proof. unfold topShape, blockShape. intros ->. reflexivity. Qed.

Lemma shape_createParagraph node :
  match createParagraph entryMap node with
  | Some n => paragraphShape n = true
  | None => True
  end.
Proof.
  unfold createParagraph.
  pose proof (shape_processInlineContent node false) as Hs.
  destruct (processInlineContent entryMap node false) as [|x l] eqn:E; [exact I|].
  assert (H : paragraphShape (Block PARAGRAPH NoData (x :: l)) = true)
    by (apply shape_paragraph; [discriminate|exact Hs]).
  destruct x as [value marks|]; [|exact H].
  destruct value; [|exact H]. destruct l; [exact I|exact H].
Qed.

Lemma shape_createHeading node level :
  (level = 2 \/ level = 3 \/ level = 4)%nat ->
  match createHeading entryMap node level with
  | Some n => headingShape n = true
  | None => True
  end.
Proof.
  intros Hlevel. unfold createHeading.
  pose proof (shape_processInlineContent node false) as Hs.
  destruct (processInlineContent entryMap node false) as [|x l] eqn:E; [exact I|].
  simpl. simpl in Hs. rewrite Hs.
  destruct Hlevel as [->|[->| ->]]; reflexivity.
Qed.

Lemma shape_paragraphIfAny content :
  content <> [] -> forallb inlineShape content = true ->
  exists p, paragraphIfAny content = [p] /\ paragraphShape p = true.
Proof.
  intros Hne Hs. destruct content as [|x l]; [congruence|].
  eexists. split; [reflexivity|]. apply shape_paragraph; assumption.
Qed.

Lemma isListType_listTypeOf t : isListType (listTypeOf t) = true.
Proof. unfold listTypeOf. destruct (String.eqb t "ul"); reflexivity. Qed.

Lemma shape_list listType items :
  isListType listType = true -> items <> [] ->
  forallb listItemShape items = true ->
  listShape (Block listType NoData items) = true.
Proof.
  intros Ht Hne Hitems. simpl. rewrite Ht.
  destruct items as [|x l]; [congruence|]. exact Hitems.
Qed.

Lemma shape_createList_children node :
  (forall listType, isListType listType = true ->
     listShapeOption (createList entryMap listType node) = true)
  /\ Forall (fun g => forall listType, isListType listType = true ->
                listShapeOption (createList entryMap listType g) = true)
       (Dom.children node).
Proof.
  induction node as [text|text|tagName attrs childNodes IH] using Node_nested_ind.
  - split; [reflexivity|constructor].
  - split; [reflexivity|constructor].
  - split.
    + intros listType Ht. simpl.
      match goal with |- listShapeOption (match ?items with _ => _ end) = true =>
        assert (Hitems : forallb listItemShape items = true)
      end.
      { apply forallb_flat_map. eapply Forall_impl; [exact IH|].
        intros child [_ Hgrand]. destruct child as [t|t|childTag a grandChildren];
          try reflexivity.
        simpl in Hgrand.
        destruct (String.eqb (Js.toLowerCase childTag) "li"); [|reflexivity].
        destruct (existsb _ grandChildren).
        - destruct (shape_paragraphIfAny
                      (processInlineContent entryMap (Element childTag a grandChildren) true)
                      (processInlineContent_nonempty _ _ _)
                      (shape_processInlineContent _ _)) as [p [Hp Hshape]].
          rewrite Hp. simpl. rewrite Hshape. simpl. rewrite andb_true_r.
          apply forallb_flat_map. eapply Forall_impl; [exact Hgrand|].
          intros g Hg. destruct (isListTag (Dom.tag g)); [|reflexivity].
          specialize (Hg (listTypeOf (Dom.tag g)) (isListType_listTypeOf _)).
          destruct (createList entryMap _ g); simpl in *; [rewrite Hg|]; reflexivity.
        - destruct (shape_paragraphIfAny
                      (processInlineContent entryMap (Element childTag a grandChildren) false)
                      (processInlineContent_nonempty _ _ _)
                      (shape_processInlineContent _ _)) as [p [Hp Hshape]].
          rewrite Hp. simpl. rewrite Hshape. reflexivity. }
      match goal with |- listShapeOption (match ?items with _ => _ end) = true =>
        destruct items as [|x l] eqn:E
      end; [reflexivity|].
      apply shape_list; [exact Ht|discriminate|exact Hitems].
    + simpl. eapply Forall_impl; [exact IH|]. intros c [Hc _]. exact Hc.
Qed.

Lemma shape_createList listType node :
  isListType listType = true ->
  listShapeOption (createList entryMap listType node) = true.
Proof. apply shape_createList_children. Qed.

Lemma list_top n : listShape n = true -> topShape n = true.
Proof.
  unfold topShape, blockShape. intros ->. rewrite !orb_true_r. reflexivity.
Qed.

Lemma heading_top n : headingShape n = true -> topShape n = true.
Proof.
  unfold topShape, blockShape. intros ->. rewrite !orb_true_r. reflexivity.
Qed.

Lemma inline_top n : inlineShape n = true -> topShape n = true.
Proof. unfold topShape. intros ->. apply orb_true_r. Qed.

Lemma shape_createEmbeddedAsset imgNode warnings :
  topShape (fst (createEmbeddedAsset assetMap imgNode warnings)) = true.
Proof.
  unfold createEmbeddedAsset, lookupAsset.
  destruct (findWpId imgNode) as [n|]; [|reflexivity].
  destruct (Js.truthy_num (Some n)); [|reflexivity].
  destruct (assetMap !! Js.numToString n) as [id|]; [|reflexivity].
  destruct (Js.truthy id) eqn:Hid; [|reflexivity].
  unfold topShape, blockShape. simpl. rewrite Hid. reflexivity.
Qed.

Lemma shape_processFigure node warnings :
  forallb topShape (fst (processFigure assetMap entryMap node warnings)) = true.
Proof.
  unfold processFigure.
  assert (Hcaption : forall figcaption,
            forallb topShape (optList (createParagraph entryMap figcaption)) = true).
  { intros figcaption. pose proof (shape_createParagraph figcaption) as H.
    destruct (createParagraph entryMap figcaption); simpl; [|reflexivity].
    rewrite (paragraph_top _ H). reflexivity. }
  destruct (Dom.querySelector "img" node) as [img|].
  - pose proof (shape_createEmbeddedAsset img warnings) as Hasset.
    destruct (createEmbeddedAsset assetMap img warnings) as [asset w]. simpl in Hasset.
    destruct (Dom.querySelector "figcaption" node) as [figcaption|]; simpl.
    + rewrite Hasset. simpl. apply Hcaption.
    + rewrite Hasset. reflexivity.
  - destruct (Dom.querySelector "figcaption" node) as [figcaption|]; simpl; [|reflexivity].
    apply Hcaption.
Qed.

Lemma shape_pushProcessed results processed :
  forallb topShape results = true -> processedShape processed = true ->
  forallb topShape (pushProcessed results processed) = true.
Proof.
  intros Hr Hp. destruct processed as [|n|l]; simpl; [exact Hr| |].
  - rewrite forallb_app, Hr. simpl in *. rewrite Hp. reflexivity.
  - rewrite forallb_app, Hr. exact Hp.
Qed.

Lemma shape_processNodesWith
    (g : Node -> list string -> Processed * list string) (nodes : list Node) :
  Forall (fun n => forall w, processedShape (fst (g n w)) = true) nodes ->
  forall results warnings,
    forallb topShape results = true ->
    forallb topShape (fst (processNodesWith g nodes results warnings)) = true.
Proof.
  induction 1 as [|n nodes Hn _ IH]; intros results warnings Hr; simpl; [exact Hr|].
  specialize (Hn warnings). destruct (g n warnings) as [processed w']. simpl in Hn.
  apply IH, shape_pushProcessed; assumption.
Qed.

Lemma top_paragraph n :
  topShape n = true -> isType PARAGRAPH n = true -> paragraphShape n = true.
Proof.
  destruct n as [value marks|t d content]; simpl; [discriminate|].
  intros Htop Ht. apply bool_decide_eq_true in Ht. subst t.
  unfold topShape, blockShape in Htop. simpl in Htop.
  destruct d; simpl in *; try discriminate.
  rewrite !orb_false_r in Htop. exact Htop.
Qed.

Lemma shape_buildBlockquote node blocks :
  forallb topShape blocks = true ->
  quoteShape (buildBlockquote entryMap node blocks) = true.
Proof.
  intros Hb. unfold buildBlockquote. simpl.
  assert (Hfilter : forall l, forallb topShape l = true ->
                      forallb paragraphShape (List.filter (isType PARAGRAPH) l) = true).
  { induction l as [|x l IHl]; simpl; [reflexivity|]. intros Hl.
    apply andb_true_iff in Hl. destruct Hl as [Hx Hl].
    destruct (isType PARAGRAPH x) eqn:Ht; simpl; [|auto].
    rewrite (top_paragraph x Hx Ht). auto. }
  apply Hfilter. destruct blocks as [|x l]; [|exact Hb].
  simpl forallb. rewrite andb_true_r. apply paragraph_top, shape_paragraph;
    [apply processInlineContent_nonempty|apply shape_processInlineContent].
Qed.

Lemma quote_top n : quoteShape n = true -> topShape n = true.
Proof.
  unfold topShape, blockShape. intros ->. rewrite !orb_true_r. reflexivity.
Qed.

Lemma shape_createHyperlink node : inlineShape (createHyperlink entryMap node) = true.
Proof.
  unfold createHyperlink.
  apply shape_buildHyperlink;
    [apply processInlineContent_nonempty|apply shape_processInlineContent].
Qed.

Lemma shape_wrapWithMark node markType :
  forallb inlineShape (wrapWithMark entryMap node markType) = true.
Proof.
  change (wrapWithMark entryMap node markType)
    with (wrapContent markType (processInlineContent entryMap node false)).
  apply shape_wrapContent, shape_processInlineContent.
Qed.

Lemma forallb_inline_top l : forallb inlineShape l = true -> forallb topShape l = true.
Proof.
  induction l as [|x l IH]; simpl; [reflexivity|]. intros H.
  apply andb_true_iff in H. destruct H as [Hx Hl].
  rewrite (inline_top x Hx), (IH Hl). reflexivity.
Qed.

Lemma shape_paragraph_option node :
  processedShape (ofOption (createParagraph entryMap node)) = true.
Proof.
  pose proof (shape_createParagraph node) as H.
  destruct (createParagraph entryMap node); simpl; [apply paragraph_top, H|reflexivity].
Qed.

Lemma shape_heading_option node level :
  (level = 2 \/ level = 3 \/ level = 4)%nat ->
  processedShape (ofOption (createHeading entryMap node level)) = true.
Proof.
  intros Hl. pose proof (shape_createHeading node level Hl) as H.
  destruct (createHeading entryMap node level); simpl; [apply heading_top, H|reflexivity].
Qed.

Lemma shape_list_option listType node :
  isListType listType = true ->
  processedShape (ofOption (createList entryMap listType node)) = true.
Proof.
  intros Ht. pose proof (shape_createList listType node Ht) as H.
  destruct (createList entryMap listType node); simpl in *; [apply list_top, H|reflexivity].
Qed.

Lemma shape_tableToText node : topShape (tableToText node) = true.
Proof. reflexivity. Qed.

Local Opaque createParagraph createHeading createList tableToText createEmbeddedAsset
  processFigure createHyperlink wrapWithMark buildBlockquote.

(** Whatever [processNode] returns follows the schema. *)
Lemma shape_processNode node : forall warnings,
  processedShape (fst (processNode assetMap entryMap preserveWhitespace node warnings))
  = true.
Proof.
  induction node as [text|text|tagName attrs childNodes IH] using Node_nested_ind;
    intros warnings.
  - simpl. destruct (_ && _); reflexivity.
  - reflexivity.
  - assert (Hchildren : forall w,
              forallb topShape
                (fst (processNodesWith (processNode assetMap entryMap preserveWhitespace)
                        childNodes [] w)) = true)
      by (intros w; apply shape_processNodesWith; [exact IH|reflexivity]).
    simpl.
    repeat match goal with
           | |- context [if ?c then _ else _] => destruct c
           end;
      try reflexivity;
      try apply shape_paragraph_option;
      try (apply shape_heading_option; auto);
      try (apply shape_list_option; reflexivity);
      try (simpl; apply shape_tableToText);
      try (simpl; apply inline_top, shape_createHyperlink);
      try (simpl; apply forallb_inline_top, shape_wrapWithMark).
    + specialize (Hchildren warnings).
      destruct (processNodesWith _ childNodes [] warnings) as [blocks w'].
      simpl in *. apply quote_top, shape_buildBlockquote, Hchildren.
    + pose proof (shape_createEmbeddedAsset (Element tagName attrs childNodes) warnings) as H.
      destruct (createEmbeddedAsset _ _ warnings) as [asset w']. exact H.
    + pose proof (shape_processFigure (Element tagName attrs childNodes) warnings) as H.
      destruct (processFigure _ _ _ warnings) as [results w']. exact H.
    + specialize (Hchildren warnings).
      destruct (processNodesWith _ childNodes [] warnings) as [results w']. exact Hchildren.
    + specialize (Hchildren warnings).
      destruct (processNodesWith _ childNodes [] warnings) as [results w']. exact Hchildren.
Qed.

Local Transparent createParagraph createHeading createList tableToText createEmbeddedAsset
  processFigure createHyperlink wrapWithMark buildBlockquote.

Lemma shape_processNodes nodes warnings :
  forallb topShape (fst (processNodes assetMap entryMap preserveWhitespace nodes warnings))
  = true.
Proof.
  unfold processNodes. apply shape_processNodesWith; [|reflexivity].
  apply Forall_forall. intros n _. apply shape_processNode.
Qed.

Lemma shape_transformNodes nodes :
  documentShape (fst (transformNodes assetMap entryMap preserveWhitespace nodes)) = true.
Proof.
  unfold transformNodes. pose proof (shape_processNodes nodes []) as H.
  destruct (processNodes _ _ _ nodes []) as [content warnings]. simpl in *.
  destruct content as [|x l]; [reflexivity|]. exact H.
Qed.

(** X13. The document of [transform] follows the schema of the Rich Text format
    for every input, whatever the parser gives: the children of the
    document are paragraphs, headings of level 2 to 4, lists, blockquotes,
    horizontal rules, embedded assets with a non-empty asset id, or inline
    nodes; a paragraph and a heading hold inline nodes only, at least one;
    a list holds list items only, each of them a paragraph followed by
    lists; a blockquote holds paragraphs only; a link holds inline nodes
    only, at least one, and an entry link has a non-empty entry id. *)
Theorem transform_follows_schema
    (parse : string -> list Node) (stripShortcodes preprocessGutenbergBlocks : string -> string)
    (stripShortcodesOption : bool) (wpHtml : JsValue) :
  documentShape
    (fst (transform assetMap entryMap preserveWhitespace parse stripShortcodes
            preprocessGutenbergBlocks stripShortcodesOption wpHtml)) = true.
Proof.
  unfold transform. destruct wpHtml as [| |b|n|html|]; try reflexivity.
  destruct (negb (Js.truthy html)); [reflexivity|]. apply shape_transformNodes.
Qed.

End Schema.

(** ** Text, marks and warnings *)

Lemma append_empty_r (s : string) : s +:+ "" = s.
Proof.
  induction s as [|c s IH]; [reflexivity|].
  change (String c (s +:+ "") = String c s). rewrite IH. reflexivity.
Qed.

Lemma append_assoc3 (a b c : string) : (a +:+ b) +:+ c = a +:+ (b +:+ c).
Proof.
  induction a as [|x a IH]; [reflexivity|].
  change (String x ((a +:+ b) +:+ c) = String x (a +:+ (b +:+ c))).
  rewrite IH. reflexivity.
Qed.

Lemma concat_empty_cons (x : string) (l : list string) :
  String.concat "" (x :: l) = x +:+ String.concat "" l.
Proof.
  destruct l; [|reflexivity].
  change (x = x +:+ ""). rewrite append_empty_r. reflexivity.
Qed.

Lemma concat_empty_app (l1 l2 : list string) :
  String.concat "" (l1 ++ l2)%list = String.concat "" l1 +:+ String.concat "" l2.
Proof.
  induction l1 as [|x l1 IH]; [reflexivity|].
  change ((x :: l1) ++ l2)%list with (x :: (l1 ++ l2)%list).
  rewrite !concat_empty_cons, IH, append_assoc3. reflexivity.
Qed.

Lemma plainText_app l1 l2 : plainText (l1 ++ l2)%list = plainText l1 +:+ plainText l2.
Proof.
  unfold plainText. rewrite flat_map_app, map_app. apply concat_empty_app.
Qed.

Lemma textRuns_addMark m x : map fst (textRuns (addMark m x)) = map fst (textRuns x).
Proof. destruct x; reflexivity. Qed.

Section InlineFacts2.

Variable entryMap : gmap string string.

Lemma plainText_ensureTextNode l : plainText (ensureTextNode l) = plainText l.
Proof. destruct l; reflexivity. Qed.

Lemma plainText_wrapContent markType l : plainText (wrapContent markType l) = plainText l.
Proof.
  destruct markType as [m|]; [|reflexivity]. unfold plainText. simpl. f_equal.
  induction l as [|x l IH]; simpl; [reflexivity|].
  rewrite !map_app, IH, textRuns_addMark. reflexivity.
Qed.

Lemma plainText_buildHyperlink href content :
  content <> [] -> plainText [buildHyperlink entryMap href content] = plainText content.
Proof.
  intros Hne. unfold plainText. simpl. rewrite app_nil_r.
  destruct content as [|x l]; [congruence|]. unfold buildHyperlink.
  destruct (extractWpPostIdFromUrl href) as [n|]; [|reflexivity].
  destruct (Js.truthy_num (Some n)); [|reflexivity].
  destruct (entryMap !! _) as [id|]; [|reflexivity].
  destruct (Js.truthy id); reflexivity.
Qed.

Lemma filter_nil_forallb {A} (p : A -> bool) (l : list A) :
  List.filter p l = [] -> forallb (fun x => negb (p x)) l = true.
Proof.
  induction l as [|x l IH]; simpl; [reflexivity|].
  destruct (p x); [discriminate|]. exact IH.
Qed.

Lemma forallb_flat_map_inv {A B} (p : B -> bool) (g : A -> list B) (l : list A) :
  forallb p (flat_map g l) = true -> Forall (fun x => forallb p (g x) = true) l.
Proof.
  induction l as [|x l IH]; simpl; [constructor|].
  rewrite forallb_app. intros H. apply andb_true_iff in H. destruct H as [Hx Hl].
  constructor; [exact Hx|apply IH, Hl].
Qed.

Lemma inlineChild_text (child : Node) :
  forallb (fun d => negb (Dom.tagIn (Dom.tag d) ["br"; "img"]))
    (child :: Dom.descendants child) = true ->
  plainText (inlineChild entryMap false child) = Dom.textContent child.
Proof.
  induction child as [text|text|tagName attrs childNodes IH] using Node_nested_ind;
    intros Hno.
  - simpl. destruct (Js.truthy text) eqn:Ht.
    + unfold plainText. simpl. reflexivity.
    + apply truthy_false in Ht. subst text. reflexivity.
  - reflexivity.
  - cbn [forallb Dom.descendants] in Hno. apply andb_true_iff in Hno.
    destruct Hno as [Htag Hbelow]. apply forallb_flat_map_inv in Hbelow.
    assert (Hchildren :
              plainText (flat_map (inlineChild entryMap false) childNodes)
              = String.concat "" (map Dom.textContent childNodes)).
    { clear Htag. induction childNodes as [|c cs IHcs]; [reflexivity|].
      inversion IH as [|? ? Hc Hcs]; subst. inversion Hbelow as [|? ? Hbc Hbcs]; subst.
      cbn [flat_map map]. rewrite plainText_app, concat_empty_cons.
      rewrite (Hc Hbc), (IHcs Hcs Hbcs). reflexivity. }
    cbn [Dom.tag Dom.tagIn existsb] in Htag.
    apply negb_true_iff in Htag. rewrite orb_false_r in Htag.
    apply orb_false_iff in Htag. destruct Htag as [Hbr Himg].
    cbn [inlineChild Dom.textContent andb]. rewrite Hbr, Himg.
    destruct (Dom.tagIn _ inlineMarkTags).
    + rewrite plainText_wrapContent, plainText_ensureTextNode. exact Hchildren.
    + destruct (String.eqb _ "a").
      * rewrite plainText_buildHyperlink by apply ensureTextNode_nonempty.
        rewrite plainText_ensureTextNode. exact Hchildren.
      * rewrite plainText_ensureTextNode. exact Hchildren.
Qed.

(** X14. No text is lost, added or reordered in inline content: without
    [br] and [img] elements below it, the values of the text runs that
    [processInlineContent] gives for an element, read in order and through
    the links, are the texts of the text nodes below the element, in
    document order. *)
Theorem processInlineContent_keeps_text tagName attrs childNodes :
  Dom.querySelectorAll ["br"; "img"] (Element tagName attrs childNodes) = [] ->
  plainText (processInlineContent entryMap (Element tagName attrs childNodes) false)
  = Dom.textContent (Element tagName attrs childNodes).
Proof.
  intros Hno. apply filter_nil_forallb, forallb_flat_map_inv in Hno.
  unfold processInlineContent. rewrite plainText_ensureTextNode.
  cbn [Dom.children Dom.textContent].
  induction childNodes as [|c cs IH]; [reflexivity|].
  inversion Hno as [|? ? Hc Hcs]; subst.
  cbn [flat_map map]. rewrite plainText_app, concat_empty_cons.
  rewrite (inlineChild_text c Hc), (IH Hcs). reflexivity.
Qed.

Lemma marks_addMark m x :
  In m inlineMarks ->
  Forall (fun run => Forall (fun k => In k inlineMarks) (snd run)) (textRuns x) ->
  Forall (fun run => Forall (fun k => In k inlineMarks) (snd run)) (textRuns (addMark m x)).
Proof.
  intros Hm Hx. destruct x as [value marks|t d content]; [|exact Hx].
  simpl in *. inversion Hx as [|? ? Hmarks _]; subst. constructor; [|constructor].
  simpl in *. apply Forall_app. split; [exact Hmarks|]. constructor; [exact Hm|constructor].
Qed.

Lemma marks_flat_map {A} (g : A -> list RichNode) (l : list A) :
  Forall (fun x => Forall (fun run => Forall (fun k => In k inlineMarks) (snd run))
                     (flat_map textRuns (g x))) l ->
  Forall (fun run => Forall (fun k => In k inlineMarks) (snd run))
    (flat_map textRuns (flat_map g l)).
Proof.
  induction 1 as [|x l Hx _ IH]; simpl; [constructor|].
  rewrite flat_map_app. apply Forall_app. split; assumption.
Qed.

Lemma marks_ensureTextNode l :
  Forall (fun run => Forall (fun k => In k inlineMarks) (snd run)) (flat_map textRuns l) ->
  Forall (fun run => Forall (fun k => In k inlineMarks) (snd run))
    (flat_map textRuns (ensureTextNode l)).
Proof.
  destruct l; [|auto]. intros _. simpl. constructor; constructor.
Qed.

Lemma marks_wrapContent tag l :
  Dom.tagIn tag inlineMarkTags = true ->
  Forall (fun run => Forall (fun k => In k inlineMarks) (snd run)) (flat_map textRuns l) ->
  Forall (fun run => Forall (fun k => In k inlineMarks) (snd run))
    (flat_map textRuns (wrapContent (getMarkType tag) l)).
Proof.
  intros Htag Hl.
  assert (Hm : forall m, getMarkType tag = Some m -> In m inlineMarks).
  { intros m. unfold getMarkType, Dom.tagIn, inlineMarkTags in *. simpl in Htag.
    repeat match goal with
           | |- context [String.eqb tag ?s] => destruct (String.eqb tag s)
           end; try discriminate;
      intros [= <-]; simpl; auto 6. }
  destruct (getMarkType tag) as [m|]; [|exact Hl]. specialize (Hm m eq_refl).
  simpl. induction l as [|x l IH]; simpl in *; [constructor|].
  apply Forall_app in Hl. destruct Hl as [Hx Hl].
  apply Forall_app. split; [apply marks_addMark; assumption|apply IH, Hl].
Qed.

Lemma marks_buildHyperlink href content :
  content <> [] ->
  Forall (fun run => Forall (fun k => In k inlineMarks) (snd run))
    (flat_map textRuns content) ->
  Forall (fun run => Forall (fun k => In k inlineMarks) (snd run))
    (textRuns (buildHyperlink entryMap href content)).
Proof.
  intros Hne Hc. destruct content as [|x l]; [congruence|]. unfold buildHyperlink.
  destruct (extractWpPostIdFromUrl href) as [n|]; [|exact Hc].
  destruct (Js.truthy_num (Some n)); [|exact Hc].
  destruct (entryMap !! _) as [id|]; [|exact Hc].
  destruct (Js.truthy id); exact Hc.
Qed.

Lemma marks_inlineChild (child : Node) : forall excludeNestedLists,
  Forall (fun run => Forall (fun k => In k inlineMarks) (snd run))
    (flat_map textRuns (inlineChild entryMap excludeNestedLists child)).
Proof.
  induction child as [text|text|tagName attrs childNodes IH] using Node_nested_ind;
    intros excl.
  - simpl. destruct (Js.truthy text); simpl; repeat constructor.
  - constructor.
  - assert (Hchildren : forall e,
              Forall (fun run => Forall (fun k => In k inlineMarks) (snd run))
                (flat_map textRuns
                   (ensureTextNode (flat_map (inlineChild entryMap e) childNodes)))).
    { intros e. apply marks_ensureTextNode, marks_flat_map.
      eapply Forall_impl; [exact IH|]. intros c Hc. apply Hc. }
    cbn [inlineChild].
    destruct (excl && _); [constructor|].
    destruct (Dom.tagIn _ inlineMarkTags) eqn:Htag;
      [apply marks_wrapContent; [exact Htag|apply Hchildren]|].
    destruct (String.eqb _ "a").
    { cbn [flat_map]. rewrite app_nil_r.
      apply marks_buildHyperlink; [apply ensureTextNode_nonempty|apply Hchildren]. }
    destruct (String.eqb _ "br"); [simpl; repeat constructor|].
    destruct (String.eqb _ "img"); [constructor|]. apply Hchildren.
Qed.

(** X15. The marks of inline content are bold, italic, underline and code: a
    [sub] or [sup] element inside a paragraph, a heading, a list item or a
    link leaves no mark on its text. *)
Theorem processInlineContent_marks node excludeNestedLists :
  Forall (fun run => Forall (fun k => In k inlineMarks) (snd run))
    (flat_map textRuns (processInlineContent entryMap node excludeNestedLists)).
Proof.
  unfold processInlineContent. apply marks_ensureTextNode, marks_flat_map.
  apply Forall_forall. intros c _. apply marks_inlineChild.
Qed.

End InlineFacts2.

Section WarningFacts.

Variable assetMap entryMap : gmap string string.
Variable preserveWhitespace : bool.

Lemma noisyCount_cons n nodes :
  noisyCount (n :: nodes) = (noisyCount [n] + noisyCount nodes)%nat.
Proof.
  unfold noisyCount. cbn [flat_map]. rewrite app_nil_r.
  rewrite List.filter_app, length_app. reflexivity.
Qed.

Lemma noisyCount_element tagName attrs childNodes :
  noisyCount [Element tagName attrs childNodes]
  = ((if noisy (Element tagName attrs childNodes) then 1 else 0)
     + noisyCount childNodes)%nat.
Proof.
  unfold noisyCount. cbn [flat_map Dom.descendants]. rewrite app_nil_r.
  cbn [List.filter]. destruct (noisy _); reflexivity.
Qed.

Lemma warn_createEmbeddedAsset imgNode warnings :
  (List.length (snd (createEmbeddedAsset assetMap imgNode warnings))
   <= S (List.length warnings))%nat.
Proof.
  unfold createEmbeddedAsset. destruct (lookupAsset assetMap (findWpId imgNode)); simpl.
  - lia.
  - rewrite length_app. simpl. lia.
Qed.

Lemma querySelector_img_noisy node img :
  Dom.querySelector "img" node = Some img ->
  (1 <= List.length (List.filter noisy (Dom.descendants node)))%nat.
Proof.
  unfold Dom.querySelector, Dom.querySelectorAll. intros H.
  induction (Dom.descendants node) as [|d l IH]; [discriminate|].
  cbn [List.filter] in *.
  destruct (Dom.tagIn (Dom.tag d) ["img"]) eqn:Himg.
  - assert (Hn : noisy d = true).
    { unfold noisy, noisyTags. cbn [Dom.tagIn existsb] in *.
      rewrite orb_false_r in Himg. rewrite Himg. rewrite orb_true_r. reflexivity. }
    rewrite Hn. simpl. lia.
  - specialize (IH H). destruct (noisy d); simpl; lia.
Qed.

Lemma warn_processFigure node warnings :
  (List.length (snd (processFigure assetMap entryMap node warnings))
   <= List.length warnings + List.length (List.filter noisy (Dom.descendants node)))%nat.
Proof.
  unfold processFigure.
  destruct (Dom.querySelector "img" node) as [img|] eqn:Himg.
  - pose proof (querySelector_img_noisy node img Himg) as Hone.
    pose proof (warn_createEmbeddedAsset img warnings) as Hw.
    destruct (createEmbeddedAsset assetMap img warnings) as [asset w]. simpl in *. lia.
  - simpl. lia.
Qed.

Lemma warn_processNodesWith
    (g : Node -> list string -> Processed * list string) (nodes : list Node) :
  Forall (fun n => forall w,
            (List.length (snd (g n w)) <= List.length w + noisyCount [n])%nat) nodes ->
  forall results warnings,
    (List.length (snd (processNodesWith g nodes results warnings))
     <= List.length warnings + noisyCount nodes)%nat.
Proof.
  induction 1 as [|n nodes Hn _ IH]; intros results warnings.
  - simpl. lia.
  - rewrite noisyCount_cons. cbn [processNodesWith].
    specialize (Hn warnings). destruct (g n warnings) as [processed w']. simpl in Hn.
    specialize (IH (pushProcessed results processed) w'). lia.
Qed.

Local Opaque createParagraph createHeading createList tableToText createEmbeddedAsset
  processFigure createHyperlink wrapWithMark buildBlockquote.

Lemma warn_processNode node : forall warnings,
  (List.length (snd (processNode assetMap entryMap preserveWhitespace node warnings))
   <= List.length warnings + noisyCount [node])%nat.
Proof.
  induction node as [text|text|tagName attrs childNodes IH] using Node_nested_ind;
    intros warnings.
  - simpl. destruct (_ && _); simpl; lia.
  - simpl. lia.
  - assert (Hchildren : forall w,
              (List.length
                 (snd (processNodesWith (processNode assetMap entryMap preserveWhitespace)
                         childNodes [] w))
               <= List.length w + noisyCount childNodes)%nat)
      by (intros w; apply warn_processNodesWith; exact IH).
    pose proof (warn_processFigure (Element tagName attrs childNodes) warnings) as Hfigure.
    pose proof (warn_createEmbeddedAsset (Element tagName attrs childNodes) warnings)
      as Hasset.
    change (List.length (List.filter noisy (Dom.descendants (Element tagName attrs childNodes))))
      with (noisyCount childNodes) in Hfigure.
    rewrite noisyCount_element.
    unfold noisy, noisyTags. cbn [Dom.tag Dom.tagIn existsb].
    specialize (Hchildren warnings).
    cbn [processNode Dom.tagIn existsb].
    destruct (processNodesWith _ childNodes [] warnings) as [results w'].
    destruct (createEmbeddedAsset _ _ warnings) as [asset wa].
    destruct (processFigure _ _ _ warnings) as [figure wf].
    cbn [snd] in *.
    repeat match goal with
           | |- context [if ?c then _ else _] => destruct c eqn:?
           end;
      cbn [snd orb]; rewrite ?length_app; cbn [List.length]; try lia.
    exfalso. cbn [orb] in *.
    destruct (String.eqb (Js.toLowerCase tagName) "video");
      destruct (String.eqb (Js.toLowerCase tagName) "audio"); discriminate.
Qed.

Local Transparent createParagraph createHeading createList tableToText createEmbeddedAsset
  processFigure createHyperlink wrapWithMark buildBlockquote.

(** X16. A transformation gives at most one warning for each [table], [img],
    [video], [audio] and [iframe] element of the parsed input; an input
    without these elements gives none. *)
Theorem transformNodes_warnings (rootChildNodes : list Node) :
  (List.length (snd (transformNodes assetMap entryMap preserveWhitespace rootChildNodes))
   <= noisyCount rootChildNodes)%nat.
Proof.
  unfold transformNodes, processNodes.
  pose proof (warn_processNodesWith
                (processNode assetMap entryMap preserveWhitespace) rootChildNodes) as H.
  specialize (H ltac:(apply Forall_forall; intros n _; apply warn_processNode) [] []).
  destruct (processNodesWith _ rootChildNodes [] []) as [content warnings].
  simpl in *. exact H.
Qed.

End WarningFacts.

(** ** Instances *)

(** An export with one author and a destination that accepts everything:
    the second run makes no request. *)
Lemma migrateContent_twice_witness :
  let wpData :=
    {| Migration.users :=
         [{| Migration.user_id := 1; Migration.user_name := "ann";
             Migration.user_slug := "ann"; Migration.user_description := "" |}];
       Migration.categories := [];
       Migration.tags := [];
       Migration.posts := [];
       Migration.pages := [] |} in
  let createEntry := fun (contentType : string) (fields : Migration.Fields) =>
    Migration.Ok (A := string) "e1" in
  let publish := fun (id : string) => Migration.Ok tt in
  let run :=
    Migration.migrateContent (fun _ => []) id id id createEntry publish 5%positive ∅ wpData in
  MigrationMoreSpec.alwaysSucceeds createEntry publish
  /\ Migration.calls (run (Migration.entryMap (run ∅))) = [].
Proof.
  intros wpData createEntry publish run.
  assert (H : MigrationMoreSpec.alwaysSucceeds createEntry publish).
  { split; [|reflexivity]. intros contentType fields. exists "e1".
    split; [reflexivity|discriminate]. }
  split; [exact H|].
  exact (proj1 (proj2 (proj2 (proj2
    (MigrationMore.migrateContent_twice (fun _ => []) id id id createEntry publish
       5%positive ∅ wpData ∅ H))))).
Defined.

(** A page with an unknown template: the field holds ['default']. *)
Lemma fields_respect_validations_witness :
  let page :=
    {| Migration.page_id := 3; Migration.page_title := "About";
       Migration.page_slug := "about"; Migration.page_content := "";
       Migration.page_parent := 0;
       Migration.page_template := "elementor_canvas";
       Migration.page_featured_media := 0; Migration.page_yoast := None |} in
  let post :=
    {| Migration.post_id := 7; Migration.post_title := "Hello";
       Migration.post_slug := "hello"; Migration.post_date := "";
       Migration.post_modified := ""; Migration.post_excerpt := "";
       Migration.post_content := ""; Migration.post_categories := [];
       Migration.post_tags := []; Migration.post_author := 0;
       Migration.post_featured_media := 0; Migration.post_yoast := None |} in
  In ("template", Migration.FString "default") (Migration.pageFields id ∅ page ∅ "s1")
  /\ exists t, Migration.FString "default" = Migration.FString t
               /\ In t MigrationMoreSpec.allowedTemplates.
Proof.
  intros page post.
  assert (H : In ("template", Migration.FString "default")
                (Migration.pageFields id ∅ page ∅ "s1")).
  { vm_compute. auto 10. }
  split; [exact H|].
  exact (proj1
    (MigrationMore.fields_respect_validations (fun _ => []) id id id ∅ ∅ page post "s1"
       "template" (Migration.FString "default") (or_introl H)) eq_refl).
Defined.

(** [<p>Hello <strong>big</strong> <a href="/x">world</a></p>] *)
Lemma processInlineContent_keeps_text_witness :
  let childNodes :=
    [TextNode "Hello "; Element "strong" [] [TextNode "big"]; TextNode " ";
     Element "a" [("href", "/x")] [TextNode "world"]] in
  Dom.querySelectorAll ["br"; "img"] (Element "p" [] childNodes) = []
  /\ plainText (processInlineContent ∅ (Element "p" [] childNodes) false)
     = "Hello big world".
Proof.
  intros childNodes.
  assert (H : Dom.querySelectorAll ["br"; "img"] (Element "p" [] childNodes) = [])
    by reflexivity.
  split; [exact H|].
  exact (processInlineContent_keeps_text ∅ "p" [] childNodes H).
Defined.

(** An export with a post in a category, by an author. *)
Lemma first_run_links_post_witness :
  let post :=
    {| Migration.post_id := 7; Migration.post_title := "Hello";
       Migration.post_slug := "hello"; Migration.post_date := "";
       Migration.post_modified := ""; Migration.post_excerpt := "";
       Migration.post_content := ""; Migration.post_categories := [3];
       Migration.post_tags := []; Migration.post_author := 1;
       Migration.post_featured_media := 0; Migration.post_yoast := None |} in
  let wpData :=
    {| Migration.users :=
         [{| Migration.user_id := 1; Migration.user_name := "ann";
             Migration.user_slug := "ann"; Migration.user_description := "" |}];
       Migration.categories :=
         [{| Migration.cat_id := 3; Migration.cat_name := "News";
             Migration.cat_slug := "news"; Migration.cat_description := "";
             Migration.cat_parent := 0 |}];
       Migration.tags := [];
       Migration.posts := [post];
       Migration.pages := [] |} in
  let createEntry := fun (contentType : string) (fields : Migration.Fields) =>
    Migration.Ok (A := string) "e1" in
  let publish := fun (id : string) => Migration.Ok tt in
  MigrationMoreSpec.alwaysSucceeds createEntry publish
  /\ In post (Migration.posts wpData)
  /\ NoDup (map Migration.post_id (Migration.posts wpData))
  /\ Js.truthy_opt ((∅ : gmap string string) !! Migration.mapKey "post_" 7) = false
  /\ exists fields,
       In (Migration.CreateEntry "blogPost" fields)
          (Migration.calls
             (Migration.migrateContent (fun _ => []) id id id createEntry publish
                5%positive ∅ wpData ∅))
       /\ In ("wpId", Migration.FNumber 7) fields.
Proof.
  intros post wpData createEntry publish.
  assert (Hok : MigrationMoreSpec.alwaysSucceeds createEntry publish).
  { split; [|reflexivity]. intros contentType fields. exists "e1".
    split; [reflexivity|discriminate]. }
  assert (Hin : In post (Migration.posts wpData)) by (left; reflexivity).
  assert (Hnodup : NoDup (map Migration.post_id (Migration.posts wpData)))
    by (repeat constructor; apply not_elem_of_nil).
  assert (Hnew : Js.truthy_opt ((∅ : gmap string string) !! Migration.mapKey "post_" 7)
                 = false) by reflexivity.
  split; [exact Hok|]. split; [exact Hin|]. split; [exact Hnodup|]. split; [exact Hnew|].
  destruct (MigrationMore.first_run_links_post (fun _ => []) id id id createEntry publish
              5%positive ∅ Hok wpData ∅ post Hin Hnodup Hnew)
    as (fields & Hcall & Hid & _).
  exists fields. split; [exact Hcall|exact Hid].
Defined.

(** Two categories, the second under the first. *)
Lemma first_run_links_parent_category_witness :
  let par :=
    {| Migration.cat_id := 3; Migration.cat_name := "News"; Migration.cat_slug := "news";
       Migration.cat_description := ""; Migration.cat_parent := 0 |} in
  let child :=
    {| Migration.cat_id := 4; Migration.cat_name := "Local"; Migration.cat_slug := "local";
       Migration.cat_description := ""; Migration.cat_parent := 3 |} in
  let wpData :=
    {| Migration.users := []; Migration.categories := [child; par];
       Migration.tags := []; Migration.posts := []; Migration.pages := [] |} in
  let createEntry := fun (contentType : string) (fields : Migration.Fields) =>
    Migration.Ok (A := string) "e1" in
  let publish := fun (id : string) => Migration.Ok tt in
  MigrationMoreSpec.alwaysSucceeds createEntry publish
  /\ NoDup (map Migration.cat_id (Migration.categories wpData))
  /\ exists entryId fields,
       In (Migration.CreateEntry "category" fields)
          (Migration.calls
             (Migration.migrateContent (fun _ => []) id id id createEntry publish
                5%positive ∅ wpData ∅))
       /\ In ("wpId", Migration.FNumber 4) fields
       /\ In ("parent", Migration.createLink entryId) fields.
Proof.
  intros par child wpData createEntry publish.
  assert (Hok : MigrationMoreSpec.alwaysSucceeds createEntry publish).
  { split; [|reflexivity]. intros contentType fields. exists "e1".
    split; [reflexivity|discriminate]. }
  assert (Hnodup : NoDup (map Migration.cat_id (Migration.categories wpData))).
  { repeat constructor; [|apply not_elem_of_nil].
    intros H. apply list_elem_of_In in H. simpl in H. destruct H as [H|[]]. discriminate. }
  split; [exact Hok|]. split; [exact Hnodup|].
  destruct (MigrationMore.first_run_links_parent_category (fun _ => []) id id id
              createEntry publish 5%positive ∅ Hok wpData ∅ par child
              ltac:(right; left; reflexivity) ltac:(left; reflexivity) Hnodup
              eq_refl ltac:(discriminate) ltac:(reflexivity) eq_refl)
    as (entryId & fields & _ & Hcall & Hid & Hparent).
  exists entryId, fields. split; [exact Hcall|]. split; [exact Hid|exact Hparent].
Defined.

(** Two pages, the second under the first. *)
Lemma first_run_links_parent_page_witness :
  let page := fun (id parent : Z) =>
    {| Migration.page_id := id; Migration.page_title := "About";
       Migration.page_slug := "about"; Migration.page_content := "";
       Migration.page_parent := parent; Migration.page_template := "default";
       Migration.page_featured_media := 0; Migration.page_yoast := None |} in
  let wpData :=
    {| Migration.users := []; Migration.categories := [];
       Migration.tags := []; Migration.posts := []; Migration.pages := [page 9 2; page 2 0] |} in
  let createEntry := fun (contentType : string) (fields : Migration.Fields) =>
    Migration.Ok (A := string) "e1" in
  let publish := fun (id : string) => Migration.Ok tt in
  MigrationMoreSpec.alwaysSucceeds createEntry publish
  /\ NoDup (map Migration.page_id (Migration.pages wpData))
  /\ exists entryId fields,
       In (Migration.CreateEntry "page" fields)
          (Migration.calls
             (Migration.migrateContent (fun _ => []) id id id createEntry publish
                5%positive ∅ wpData ∅))
       /\ In ("wpId", Migration.FNumber 9) fields
       /\ In ("parent", Migration.createLink entryId) fields.
Proof.
  intros page wpData createEntry publish.
  assert (Hok : MigrationMoreSpec.alwaysSucceeds createEntry publish).
  { split; [|reflexivity]. intros contentType fields. exists "e1".
    split; [reflexivity|discriminate]. }
  assert (Hnodup : NoDup (map Migration.page_id (Migration.pages wpData))).
  { repeat constructor; [|apply not_elem_of_nil].
    intros H. apply list_elem_of_In in H. simpl in H. destruct H as [H|[]]. discriminate. }
  split; [exact Hok|]. split; [exact Hnodup|].
  destruct (MigrationMore.first_run_links_parent_page (fun _ => []) id id id
              createEntry publish 5%positive ∅ Hok wpData ∅ (page 2 0) (page 9 2)
              ltac:(right; left; reflexivity) ltac:(left; reflexivity) Hnodup
              eq_refl ltac:(discriminate) ltac:(reflexivity) eq_refl)
    as (entryId & fields & _ & Hcall & Hid & Hparent).
  exists entryId, fields. split; [exact Hcall|]. split; [exact Hid|exact Hparent].
Defined.

(** The categories 1 (under 5), 5 (under 8) and 8 (top level): the loop
    visits 8, then 1, then 5, and the request for 1 has no parent link. *)
Lemma first_run_loses_parent_category_witness :
  let cat := fun (ident parent : Z) =>
    {| Migration.cat_id := ident; Migration.cat_name := "c"; Migration.cat_slug := "c";
       Migration.cat_description := ""; Migration.cat_parent := parent |} in
  let wpData :=
    {| Migration.users := []; Migration.categories := [cat 1 5; cat 5 8; cat 8 0];
       Migration.tags := []; Migration.posts := []; Migration.pages := [] |} in
  let createEntry := fun (contentType : string) (fields : Migration.Fields) =>
    Migration.Ok (A := string) "e1" in
  let publish := fun (entryId : string) => Migration.Ok tt in
  NoDup (map Migration.cat_id (Migration.categories wpData))
  /\ exists fields,
       In (Migration.CreateEntry "category" fields)
          (Migration.calls
             (Migration.migrateContent (fun _ => []) id id id createEntry publish
                5%positive ∅ wpData ∅))
       /\ In ("wpId", Migration.FNumber 1) fields
       /\ forall v, ~ In ("parent", v) fields.
Proof.
  intros cat wpData createEntry publish.
  assert (Hnodup : NoDup (map Migration.cat_id (Migration.categories wpData))).
  { repeat constructor; try apply not_elem_of_nil;
      intros H; apply list_elem_of_In in H; simpl in H;
      repeat (destruct H as [H|H]; try discriminate); exact H. }
  split; [exact Hnodup|].
  exact (MigrationMore.first_run_loses_parent_category (fun _ => []) id id id
           createEntry publish 5%positive ∅ wpData ∅ (cat 5 8) (cat 1 5)
           ltac:(right; left; reflexivity) ltac:(left; reflexivity) Hnodup
           eq_refl ltac:(reflexivity) eq_refl eq_refl).
Defined.

(** The pages 1 (under 5), 5 (under 8) and 8 (top level). *)
Lemma first_run_loses_parent_page_witness :
  let page := fun (ident parent : Z) =>
    {| Migration.page_id := ident; Migration.page_title := "About";
       Migration.page_slug := "about"; Migration.page_content := "";
       Migration.page_parent := parent; Migration.page_template := "default";
       Migration.page_featured_media := 0; Migration.page_yoast := None |} in
  let wpData :=
    {| Migration.users := []; Migration.categories := [];
       Migration.tags := []; Migration.posts := [];
       Migration.pages := [page 1 5; page 5 8; page 8 0] |} in
  let createEntry := fun (contentType : string) (fields : Migration.Fields) =>
    Migration.Ok (A := string) "e1" in
  let publish := fun (entryId : string) => Migration.Ok tt in
  MigrationMoreSpec.alwaysSucceeds createEntry publish
  /\ NoDup (map Migration.page_id (Migration.pages wpData))
  /\ exists fields,
       In (Migration.CreateEntry "page" fields)
          (Migration.calls
             (Migration.migrateContent (fun _ => []) id id id createEntry publish
                5%positive ∅ wpData ∅))
       /\ In ("wpId", Migration.FNumber 1) fields
       /\ forall v, ~ In ("parent", v) fields.
Proof.
  intros page wpData createEntry publish.
  assert (Hok : MigrationMoreSpec.alwaysSucceeds createEntry publish).
  { split; [|reflexivity]. intros contentType fields. exists "e1".
    split; [reflexivity|discriminate]. }
  assert (Hnodup : NoDup (map Migration.page_id (Migration.pages wpData))).
  { repeat constructor; try apply not_elem_of_nil;
      intros H; apply list_elem_of_In in H; simpl in H;
      repeat (destruct H as [H|H]; try discriminate); exact H. }
  split; [exact Hok|]. split; [exact Hnodup|].
  exact (MigrationMore.first_run_loses_parent_page (fun _ => []) id id id
           createEntry publish 5%positive ∅ Hok wpData ∅ (page 5 8) (page 1 5)
           ltac:(right; left; reflexivity) ltac:(left; reflexivity) Hnodup
           eq_refl ltac:(reflexivity) eq_refl eq_refl).
Defined.

(** ** The clean-up passes *)

Module PassesFacts.
Import Passes.

Lemma length_append (a b : string) :
  String.length (a +:+ b) = (String.length a + String.length b)%nat.
Proof.
  induction a as [|c a IH]; [reflexivity|].
  change (S (String.length (a +:+ b)) = S (String.length a + String.length b)).
  rewrite IH. reflexivity.
Qed.

Lemma append_cons (c : ascii) (a b : string) : String c a +:+ b = String c (a +:+ b).
Proof. reflexivity. Qed.

Lemma append_nil_l (s : string) : "" +:+ s = s.
Proof. reflexivity. Qed.

(** *** The scan *)

Lemma replaceFrom_skip anchored (a rest : string) :
  replaceFrom anchored (String.length a) (a +:+ rest) = replaceFrom anchored 0 rest.
Proof.
  induction a as [|c a IH]; [reflexivity|].
  rewrite append_cons. simpl. exact IH.
Qed.

Lemma replaceAll_nil anchored : replaceAll anchored "" = "".
Proof. reflexivity. Qed.

Lemma replaceAll_match anchored s replacement rest :
  proper anchored -> anchored s = Some (replacement, rest) ->
  replaceAll anchored s = replacement +:+ replaceAll anchored rest.
Proof.
  intros Hproper Hm. destruct (Hproper _ _ _ Hm) as (c & a & ->).
  unfold replaceAll. cbn [replaceFrom]. rewrite Hm. f_equal.
  rewrite length_append.
  replace (String.length a + String.length rest - String.length rest)%nat
    with (String.length a) by lia.
  apply replaceFrom_skip.
Qed.

Lemma replaceAll_miss anchored c r :
  anchored (String c r) = None ->
  replaceAll anchored (String c r) = String c (replaceAll anchored r).
Proof. intros Hm. unfold replaceAll. cbn [replaceFrom]. rewrite Hm. reflexivity. Qed.

Lemma matchesNowhere_cons anchored c r :
  matchesNowhere anchored (String c r) ->
  anchored (String c r) = None /\ matchesNowhere anchored r.
Proof.
  intros H. split; [apply (H "" (String c r)); reflexivity|].
  intros before rest ->. apply (H (String c before) rest). reflexivity.
Qed.

Lemma matchesNowhere_intro anchored c r :
  anchored (String c r) = None -> matchesNowhere anchored r ->
  matchesNowhere anchored (String c r).
Proof.
  intros Hhead Hr before rest Heq. destruct before as [|x before].
  - change (String c r = rest) in Heq. subst rest. exact Hhead.
  - rewrite append_cons in Heq. injection Heq as _ Heq. apply (Hr before rest Heq).
Qed.

(** Where the pattern matches nowhere the pass changes nothing. *)
Lemma replaceAll_unchanged anchored s :
  matchesNowhere anchored s -> replaceAll anchored s = s.
Proof.
  induction s as [|c r IH]; intros H; [reflexivity|].
  apply matchesNowhere_cons in H. destruct H as [Hhead Hr].
  rewrite replaceAll_miss by exact Hhead. rewrite IH by exact Hr. reflexivity.
Qed.

(** *** What the patterns need *)

Lemma breakOn_spec c s before after :
  breakOn c s = Some (before, after) ->
  s = before +:+ String c after /\ contains c before = false.
Proof.
  revert before after. induction s as [|x r IH]; intros before after H; [discriminate|].
  simpl in H. destruct (Ascii.eqb x c) eqn:Hx.
  - apply Ascii.eqb_eq in Hx. subst x. injection H as <- <-. split; reflexivity.
  - destruct (breakOn c r) as [[b a]|]; [|discriminate]. injection H as <- <-.
    destruct (IH b a eq_refl) as [-> Hb]. split; [reflexivity|].
    simpl. rewrite Hx. exact Hb.
Qed.

Lemma breakOn_none c s : breakOn c s = None <-> contains c s = false.
Proof.
  induction s as [|x r IH]; simpl; [tauto|].
  destruct (Ascii.eqb x c); simpl.
  - split; discriminate.
  - rewrite <- IH. destruct (breakOn c r) as [[b a]|]; split; congruence.
Qed.

Lemma contains_append c a b : contains c (a +:+ b) = contains c a || contains c b.
Proof.
  induction a as [|x a IH]; [reflexivity|].
  rewrite append_cons. simpl. rewrite IH. apply orb_assoc.
Qed.

Lemma foldCase_bracket (b : ascii) :
  Ascii.eqb (foldCase "[") (foldCase b) = true -> b = "["%char.
Proof.
  destruct b as [[] [] [] [] [] [] [] []]; vm_compute; intros H;
    try discriminate; reflexivity.
Qed.

Lemma stripPrefix_suffix p s rest :
  Js.stripPrefix p s = Some rest -> s = p +:+ rest.
Proof.
  revert s. induction p as [|a p IH]; intros s H; simpl in H.
  - injection H as ->. reflexivity.
  - destruct s as [|b s]; [discriminate|].
    destruct (Ascii.eqb a b) eqn:Hab; [|discriminate].
    apply Ascii.eqb_eq in Hab. subst b. rewrite append_cons. f_equal. apply IH, H.
Qed.

Lemma stripPrefix_append p x : Js.stripPrefix p (p +:+ x) = Some x.
Proof.
  induction p as [|a p IH]; [destruct x; reflexivity|].
  rewrite append_cons. simpl. rewrite Ascii.eqb_refl. exact IH.
Qed.

Lemma stripPrefixCI_suffix p s rest :
  stripPrefixCI p s = Some rest ->
  exists a, s = a +:+ rest /\ String.length a = String.length p.
Proof.
  revert s. induction p as [|x p IH]; intros s H; simpl in H.
  - injection H as ->. exists "". split; reflexivity.
  - destruct s as [|b s]; [discriminate|].
    destruct (Ascii.eqb (foldCase x) (foldCase b)); [|discriminate].
    destruct (IH s H) as (a & -> & Hlen). exists (String b a).
    split; [reflexivity|simpl; rewrite Hlen; reflexivity].
Qed.

Lemma lazyUntil_suffix closing s content rest :
  (forall t r, closing t = Some r -> exists a, t = a +:+ r) ->
  lazyUntil closing s = Some (content, rest) -> exists a, s = a +:+ rest.
Proof.
  intros Hclosing. revert content. induction s as [|c r IH]; intros content H; simpl in H.
  - destruct (closing "") as [r'|] eqn:Hc; [|discriminate].
    injection H as _ <-. apply Hclosing, Hc.
  - destruct (closing (String c r)) as [r'|] eqn:Hc.
    + injection H as _ <-. apply Hclosing, Hc.
    + destruct (isLineTerminator c); [discriminate|].
      destruct (lazyUntil closing r) as [[content' rest']|]; [|discriminate].
      injection H as _ <-. destruct (IH content' eq_refl) as [a ->].
      exists (String c a). reflexivity.
Qed.

Lemma closingTag_suffix name t r :
  closingTag name t = Some r -> exists a, t = a +:+ r.
Proof.
  unfold closingTag. intros H.
  destruct (Js.stripPrefix "[/" t) as [r1|] eqn:H1; [|discriminate].
  destruct (stripPrefixCI name r1) as [r2|] eqn:H2; [|discriminate].
  apply stripPrefix_suffix in H1, H. destruct (stripPrefixCI_suffix _ _ _ H2) as (a & Ha & _).
  subst t r1 r2. exists ("[/" +:+ a +:+ "]").
  rewrite !append_assoc3. reflexivity.
Qed.

Lemma tryCaptures_suffix word body k found rest :
  tryCaptures word body k = Some (found, rest) -> exists a, body = a +:+ rest.
Proof.
  induction k as [|k IH]; simpl; [discriminate|].
  destruct (lazyUntil _ body) as [[content rest']|] eqn:Hl.
  - intros [= <- <-]. eapply lazyUntil_suffix; [|exact Hl]. apply closingTag_suffix.
  - exact IH.
Qed.

Lemma untilCommentEnd_suffix s rest :
  untilCommentEnd s = Some rest -> exists a, s = a +:+ rest.
Proof.
  revert rest. induction s as [|c r IH]; intros rest H; [discriminate|].
  cbn [untilCommentEnd] in H.
  destruct (Js.stripPrefix "-->" (String c r)) as [rest'|] eqn:Hp.
  - injection H as <-. exists "-->". apply stripPrefix_suffix, Hp.
  - destruct (Ascii.eqb c ">"); [discriminate|].
    destruct (IH rest H) as [a ->]. exists (String c a). reflexivity.
Qed.

(** *** Where the patterns match *)

Lemma anchoredAny_head s found :
  anchoredAny s = Some found ->
  exists run rest, s = String "[" (run +:+ String "]" rest) /\ run <> ""
                   /\ contains "]" run = false /\ found = ("", rest).
Proof.
  destruct s as [|c r]; [discriminate|].
  destruct c as [[] [] [] [] [] [] [] []]; try discriminate.
  unfold anchoredAny. destruct (breakOn "]" r) as [[run rest]|] eqn:Hb; [|discriminate].
  destruct run as [|x run]; [discriminate|]. intros [= <-].
  destruct (breakOn_spec _ _ _ _ Hb) as [-> Hrun].
  exists (String x run), rest. repeat split; [discriminate|exact Hrun].
Qed.

Lemma anchoredSelfClosing_head s found :
  anchoredSelfClosing s = Some found ->
  exists a rest, s = String "[" (a +:+ rest) /\ found = ("", rest).
Proof.
  destruct s as [|c r]; [discriminate|].
  destruct c as [[] [] [] [] [] [] [] []]; try discriminate.
  unfold anchoredSelfClosing.
  destruct (breakOn "]" r) as [[run rest]|] eqn:Hb; [|discriminate].
  destruct (_ && _); [|discriminate]. intros [= <-].
  destruct (breakOn_spec _ _ _ _ Hb) as [-> _]. exists (run +:+ "]"), rest.
  rewrite append_assoc3. split; reflexivity.
Qed.

Lemma anchoredPair_head s content rest :
  anchoredPair s = Some (content, rest) -> exists a, s = String "[" (a +:+ rest).
Proof.
  destruct s as [|c r]; [discriminate|].
  destruct c as [[] [] [] [] [] [] [] []]; try discriminate.
  unfold anchoredPair.
  destruct (breakOn "]" r) as [[run body]|] eqn:Hb; [|discriminate].
  intros H. destruct (tryCaptures_suffix _ _ _ _ _ H) as [a ->].
  destruct (breakOn_spec _ _ _ _ Hb) as [-> _].
  exists (run +:+ String "]" a). rewrite append_assoc3. reflexivity.
Qed.

Lemma anchoredCaption_head s content rest :
  anchoredCaption s = Some (content, rest) -> exists a, s = String "[" (a +:+ rest).
Proof.
  unfold anchoredCaption.
  destruct (stripPrefixCI "[caption" s) as [r|] eqn:Hp; [|discriminate].
  destruct (breakOn "]" r) as [[run body]|] eqn:Hb; [|discriminate].
  intros H. destruct s as [|b s']; [discriminate|].
  assert (Hb0 : b = "["%char).
  { cbn [stripPrefixCI] in Hp.
    destruct (Ascii.eqb (foldCase "[") (foldCase b)) eqn:E; [|discriminate].
    apply foldCase_bracket, E. }
  subst b.
  destruct (stripPrefixCI_suffix _ _ _ Hp) as (p & Hs & Hlen).
  destruct p as [|p0 p]; [discriminate Hlen|].
  rewrite append_cons in Hs. injection Hs as _ ->.
  destruct (breakOn_spec _ _ _ _ Hb) as [Hr _].
  assert (Hbody : exists a, body = a +:+ rest).
  { eapply lazyUntil_suffix; [|exact H]. intros t r0 Ht.
    destruct (stripPrefixCI_suffix _ _ _ Ht) as (a & Ha & _). exists a. exact Ha. }
  destruct Hbody as [a ->]. exists (p +:+ run +:+ String "]" a).
  f_equal. rewrite Hr, !append_assoc3. reflexivity.
Qed.

Lemma anchoredBlock_head keyword s found :
  anchoredBlock keyword s = Some found ->
  exists r a rest, Js.stripPrefix "<!--" s = Some r /\ s = String "<" (a +:+ rest)
                   /\ found = ("", rest).
Proof.
  unfold anchoredBlock.
  destruct (Js.stripPrefix "<!--" s) as [r|] eqn:Hp; [|discriminate].
  destruct (Js.stripPrefix keyword (Js.trimStart r)) as [[|c r']|] eqn:Hk; try discriminate.
  destruct (Ascii.eqb c ">"); [discriminate|].
  destruct (untilCommentEnd r') as [rest|] eqn:Hu; [|discriminate]. intros [= <-].
  exists r. apply stripPrefix_suffix in Hp, Hk.
  destruct (untilCommentEnd_suffix _ _ Hu) as [a ->].
  assert (Htrim : exists w, r = w +:+ Js.trimStart r).
  { clear. induction r as [|x r IH]; [exists ""; reflexivity|].
    simpl. destruct (Js.isWhiteSpace x); [|exists ""; reflexivity].
    destruct IH as [w Hw]. exists (String x w). rewrite append_cons, <- Hw. reflexivity. }
  destruct Htrim as [w Hw]. rewrite Hk in Hw. subst s. rewrite Hw.
  exists ("!--" +:+ w +:+ keyword +:+ String c a), rest.
  split; [reflexivity|]. split; [|reflexivity].
  rewrite !append_assoc3. reflexivity.
Qed.

Lemma anchoredAny_proper : proper anchoredAny.
Proof.
  intros s replacement rest H.
  destruct (anchoredAny_head _ _ H) as (run & rest' & -> & _ & _ & [= _ <-]).
  exists "["%char, (run +:+ "]"). rewrite append_assoc3. reflexivity.
Qed.

Lemma anchoredSelfClosing_proper : proper anchoredSelfClosing.
Proof.
  intros s replacement rest H.
  destruct (anchoredSelfClosing_head _ _ H) as (a & rest' & -> & [= _ <-]).
  exists "["%char, a. reflexivity.
Qed.

Lemma anchoredPair_proper : proper anchoredPair.
Proof.
  intros s replacement rest H. destruct (anchoredPair_head _ _ _ H) as [a ->].
  exists "["%char, a. reflexivity.
Qed.

Lemma anchoredCaption_proper : proper anchoredCaption.
Proof.
  intros s replacement rest H. destruct (anchoredCaption_head _ _ _ H) as [a ->].
  exists "["%char, a. reflexivity.
Qed.

Lemma anchoredBlock_proper keyword : proper (anchoredBlock keyword).
Proof.
  intros s replacement rest H.
  destruct (anchoredBlock_head _ _ _ H) as (r & a & rest' & _ & -> & [= _ <-]).
  exists "<"%char, a. reflexivity.
Qed.

(** A pattern that starts with the code unit [h] matches nowhere in a
    string without [h]. *)
Lemma matchesNowhere_without (h : ascii) anchored s :
  (forall t found, anchored t = Some found -> exists r, t = String h r) ->
  contains h s = false -> matchesNowhere anchored s.
Proof.
  intros Hhead Hs before rest ->.
  destruct (anchored rest) as [found|] eqn:Hm; [|reflexivity].
  destruct (Hhead _ _ Hm) as [r ->].
  rewrite contains_append in Hs. simpl in Hs. rewrite Ascii.eqb_refl in Hs.
  rewrite orb_true_r in Hs. discriminate.
Qed.

(** *** [stripShortcodes] *)

Lemma anchoredAny_needs_bracket s : contains "]" s = false -> matchesNowhere anchoredAny s.
Proof.
  intros Hs before rest ->.
  destruct (anchoredAny rest) as [found|] eqn:Hm; [|reflexivity].
  destruct (anchoredAny_head _ _ Hm) as (run & rest' & -> & _).
  rewrite contains_append in Hs. simpl in Hs. rewrite contains_append in Hs.
  simpl in Hs. rewrite !orb_true_r in Hs. discriminate.
Qed.

Lemma anchoredAny_other c r : c <> "["%char -> anchoredAny (String c r) = None.
Proof.
  intros Hc. destruct c as [[] [] [] [] [] [] [] []]; try reflexivity.
  exfalso. apply Hc. reflexivity.
Qed.

Lemma anchoredAny_kept c r :
  anchoredAny (String c r) = None ->
  anchoredAny (String c (replaceAll anchoredAny r)) = None.
Proof.
  intros Hnone. destruct (Ascii.eqb_spec c "[") as [->|Hc]; [|apply anchoredAny_other, Hc].
  destruct (breakOn "]" r) as [[run rest]|] eqn:Hb.
  - destruct run as [|x run].
    + destruct (breakOn_spec _ _ _ _ Hb) as [-> _]. rewrite append_nil_l.
      rewrite replaceAll_miss by reflexivity. reflexivity.
    + unfold anchoredAny in Hnone. rewrite Hb in Hnone. discriminate.
  - apply breakOn_none in Hb.
    rewrite (replaceAll_unchanged _ _ (anchoredAny_needs_bracket r Hb)). exact Hnone.
Qed.

Lemma replaceAll_anchoredAny_clean (n : nat) : forall s,
  (String.length s <= n)%nat -> matchesNowhere anchoredAny (replaceAll anchoredAny s).
Proof.
  induction n as [|n IH]; intros s Hlen.
  - destruct s; [|simpl in Hlen; lia]. intros before rest Heq.
    destruct before, rest; try discriminate; reflexivity.
  - destruct s as [|c r].
    + intros before rest Heq. destruct before, rest; try discriminate; reflexivity.
    + destruct (anchoredAny (String c r)) as [[replacement rest]|] eqn:Hm.
      * rewrite (replaceAll_match _ _ _ _ anchoredAny_proper Hm).
        destruct (anchoredAny_head _ _ Hm) as (run & rest' & Hs & _ & _ & [= -> <-]).
        rewrite append_nil_l. apply IH.
        injection Hs as _ ->. simpl in Hlen. rewrite length_append in Hlen.
        simpl in Hlen. lia.
      * rewrite (replaceAll_miss _ _ _ Hm). apply matchesNowhere_intro.
        -- apply anchoredAny_kept, Hm.
        -- apply IH. simpl in Hlen. lia.
Qed.

(** X17. The last pass leaves no shortcode behind: in what [stripShortcodes]
    returns, the pattern of the last pass, a [[] followed by at least one
    code unit other than []] and by a []], matches nowhere. *)
Theorem stripShortcodes_leaves_no_shortcode (html : string) :
  matchesNowhere anchoredAny (stripShortcodes html).
Proof.
  unfold stripShortcodes. eapply replaceAll_anchoredAny_clean. reflexivity.
Qed.

(** X18. HTML without a [[] goes through [stripShortcodes] unchanged. *)
Theorem stripShortcodes_without_bracket (html : string) :
  contains "[" html = false -> stripShortcodes html = html.
Proof.
  intros H. unfold stripShortcodes.
  rewrite (replaceAll_unchanged anchoredCaption html).
  2:{ apply (matchesNowhere_without "[" _ _); [|exact H]. intros t [content rest] Ht.
      destruct (anchoredCaption_head _ _ _ Ht) as [a ->]. eexists. reflexivity. }
  rewrite (replaceAll_unchanged anchoredSelfClosing html).
  2:{ apply (matchesNowhere_without "[" _ _); [|exact H]. intros t found Ht.
      destruct (anchoredSelfClosing_head _ _ Ht) as (a & rest & -> & _).
      eexists. reflexivity. }
  rewrite (replaceAll_unchanged anchoredPair html).
  2:{ apply (matchesNowhere_without "[" _ _); [|exact H]. intros t [content rest] Ht.
      destruct (anchoredPair_head _ _ _ Ht) as [a ->]. eexists. reflexivity. }
  apply replaceAll_unchanged.
  apply (matchesNowhere_without "[" _ _); [|exact H]. intros t found Ht.
  destruct (anchoredAny_head _ _ Ht) as (run & rest & -> & _). eexists. reflexivity.
Qed.

(** *** [preprocessGutenbergBlocks] *)

Lemma occurs_append p before rest r :
  Js.stripPrefix p rest = Some r -> occurs p (before +:+ rest) = true.
Proof.
  intros Hp. unfold occurs. induction before as [|x before IH].
  - rewrite append_nil_l. destruct rest; simpl; rewrite Hp; reflexivity.
  - rewrite append_cons. simpl.
    destruct (Js.stripPrefix p (String x (before +:+ rest))); [reflexivity|exact IH].
Qed.

(** X19. HTML without [<!--] goes through [preprocessGutenbergBlocks]
    unchanged. *)
Theorem preprocessGutenbergBlocks_without_comment (html : string) :
  occurs "<!--" html = false -> preprocessGutenbergBlocks html = html.
Proof.
  intros H. unfold preprocessGutenbergBlocks.
  assert (Hnowhere : forall keyword, matchesNowhere (anchoredBlock keyword) html).
  { intros keyword before rest ->.
    destruct (anchoredBlock keyword rest) as [found|] eqn:Hm; [|reflexivity].
    destruct (anchoredBlock_head _ _ _ Hm) as (r & _ & _ & Hp & _).
    rewrite (occurs_append _ before _ _ Hp) in H. discriminate. }
  rewrite (replaceAll_unchanged _ _ (Hnowhere "wp:")).
  apply replaceAll_unchanged, Hnowhere.
Qed.

Lemma untilCommentEnd_found a rest :
  contains ">" a = false -> untilCommentEnd (a +:+ "-->" +:+ rest) = Some rest.
Proof.
  induction a as [|c a IH]; intros Ha; [reflexivity|].
  simpl in Ha. apply orb_false_iff in Ha. destruct Ha as [Hc Ha].
  rewrite append_cons. cbn [untilCommentEnd].
  destruct (Js.stripPrefix "-->" (String c (a +:+ "-->" +:+ rest))) as [r0|] eqn:Hp.
  - exfalso. apply stripPrefix_suffix in Hp.
    change ("-->" +:+ r0) with (String "-" (String "-" (String ">" r0))) in Hp.
    injection Hp as _ Hp. destruct a as [|x [|y a]].
    + rewrite append_nil_l in Hp. discriminate Hp.
    + rewrite append_cons, append_nil_l in Hp. discriminate Hp.
    + rewrite !append_cons in Hp. injection Hp as _ Hy _.
      simpl in Ha. rewrite Hy in Ha. simpl in Ha. rewrite orb_true_r in Ha. discriminate.
  - rewrite Hc. apply IH, Ha.
Qed.

Lemma anchoredBlock_comment keyword name rest :
  keyword = "wp:" \/ keyword = "/wp:" ->
  contains ">" name = false ->
  anchoredBlock keyword ("<!-- " +:+ keyword +:+ name +:+ " -->" +:+ rest) = Some ("", rest).
Proof.
  intros Hk Hname.
  assert (Hend : forall c r', name +:+ " -->" +:+ rest = String c r' ->
                   Ascii.eqb c ">" = false /\ untilCommentEnd r' = Some rest).
  { intros c r' Heq. destruct name as [|x name].
    - injection Heq as <- <-. split; reflexivity.
    - rewrite append_cons in Heq. injection Heq as <- <-.
      simpl in Hname. apply orb_false_iff in Hname. destruct Hname as [Hx Hname].
      split; [exact Hx|].
      replace (name +:+ " -->" +:+ rest) with ((name +:+ " ") +:+ "-->" +:+ rest)
        by (rewrite append_assoc3; reflexivity).
      apply untilCommentEnd_found. rewrite contains_append, Hname. reflexivity. }
  destruct (name +:+ " -->" +:+ rest) as [|c r'] eqn:Hs.
  - destruct name; discriminate Hs.
  - destruct (Hend c r' eq_refl) as [Hc Hu].
    change ("<!-- " +:+ keyword +:+ String c r')
      with ("<!--" +:+ String " " (keyword +:+ String c r')).
    unfold anchoredBlock. rewrite stripPrefix_append.
    destruct Hk as [-> | ->].
    + change (Js.trimStart (String " " ("wp:" +:+ String c r')))
        with ("wp:" +:+ String c r').
      rewrite stripPrefix_append, Hc, Hu. reflexivity.
    + change (Js.trimStart (String " " ("/wp:" +:+ String c r')))
        with ("/wp:" +:+ String c r').
      rewrite stripPrefix_append, Hc, Hu. reflexivity.
Qed.

(** A pattern that starts with [h] leaves a prefix without [h] as it is. *)
Lemma replaceAll_prefix_kept (h : ascii) anchored prefix rest :
  (forall t found, anchored t = Some found -> exists r, t = String h r) ->
  contains h prefix = false ->
  replaceAll anchored (prefix +:+ rest) = prefix +:+ replaceAll anchored rest.
Proof.
  intros Hhead. induction prefix as [|c prefix IH]; intros Hp; [reflexivity|].
  simpl in Hp. apply orb_false_iff in Hp. destruct Hp as [Hc Hp].
  rewrite !append_cons. rewrite replaceAll_miss.
  - rewrite IH by exact Hp. reflexivity.
  - destruct (anchored (String c (prefix +:+ rest))) as [found|] eqn:Hm; [|reflexivity].
    destruct (Hhead _ _ Hm) as [r [= -> _]]. rewrite Ascii.eqb_refl in Hc. discriminate.
Qed.

(** X20. The comments of a block are removed: an opening comment
    [<!-- wp:name -->] and a closing comment [<!-- /wp:name -->], where
    [name] (the name of the block and its attributes) has no [<] and no [>],
    leave nothing at the head of the HTML. *)
Theorem preprocessGutenbergBlocks_removes_block (name rest : string) :
  contains "<" name = false -> contains ">" name = false ->
  preprocessGutenbergBlocks ("<!-- wp:" +:+ name +:+ " -->" +:+ rest)
  = preprocessGutenbergBlocks rest
  /\ preprocessGutenbergBlocks ("<!-- /wp:" +:+ name +:+ " -->" +:+ rest)
     = preprocessGutenbergBlocks rest.
Proof.
  intros Hlt Hgt. unfold preprocessGutenbergBlocks. split.
  - change ("<!-- wp:" +:+ name +:+ " -->" +:+ rest)
      with ("<!-- " +:+ "wp:" +:+ name +:+ " -->" +:+ rest).
    rewrite (replaceAll_match (anchoredBlock "wp:") _ "" rest
               (anchoredBlock_proper "wp:")
               (anchoredBlock_comment "wp:" name rest (or_introl eq_refl) Hgt)).
    reflexivity.
  - change ("<!-- /wp:" +:+ name +:+ " -->" +:+ rest)
      with (String "<" ("!-- /wp:" +:+ name +:+ " -->" +:+ rest)).
    rewrite replaceAll_miss.
    2:{ unfold anchoredBlock. simpl. reflexivity. }
    replace ("!-- /wp:" +:+ name +:+ " -->" +:+ rest)
      with (("!-- /wp:" +:+ name +:+ " -->") +:+ rest)
      by (rewrite !append_assoc3; reflexivity).
    rewrite (replaceAll_prefix_kept "<" (anchoredBlock "wp:")).
    + rewrite <- append_cons.
      replace (String "<" ("!-- /wp:" +:+ name +:+ " -->")
               +:+ replaceAll (anchoredBlock "wp:") rest)
        with ("<!-- " +:+ "/wp:" +:+ name +:+ " -->"
              +:+ replaceAll (anchoredBlock "wp:") rest)
        by (rewrite !append_cons, !append_assoc3; reflexivity).
      rewrite (replaceAll_match (anchoredBlock "/wp:") _ "" _
                 (anchoredBlock_proper "/wp:")
                 (anchoredBlock_comment "/wp:" name _ (or_intror eq_refl) Hgt)).
      reflexivity.
    + intros t found Ht. destruct (anchoredBlock_head _ _ _ Ht) as (r & a & rest' & _ & -> & _).
      eexists. reflexivity.
    + rewrite !contains_append, Hlt. reflexivity.
Qed.

End PassesFacts.

(** ** Instances for the clean-up passes *)

Lemma stripShortcodes_without_bracket_witness :
  contains "[" "<p>Hello</p>" = false
  /\ Passes.stripShortcodes "<p>Hello</p>" = "<p>Hello</p>".
Proof.
  assert (H : contains "[" "<p>Hello</p>" = false) by reflexivity.
  split; [exact H|].
  exact (PassesFacts.stripShortcodes_without_bracket "<p>Hello</p>" H).
Defined.

Lemma preprocessGutenbergBlocks_without_comment_witness :
  occurs "<!--" "<p>Hello</p>" = false
  /\ Passes.preprocessGutenbergBlocks "<p>Hello</p>" = "<p>Hello</p>".
Proof.
  assert (H : occurs "<!--" "<p>Hello</p>" = false) by reflexivity.
  split; [exact H|].
  exact (PassesFacts.preprocessGutenbergBlocks_without_comment "<p>Hello</p>" H).
Defined.

(** [<!-- wp:paragraph --><p>Hi</p>] *)
Lemma preprocessGutenbergBlocks_removes_block_witness :
  contains "<" "paragraph" = false /\ contains ">" "paragraph" = false
  /\ Passes.preprocessGutenbergBlocks ("<!-- wp:" +:+ "paragraph" +:+ " -->" +:+ "<p>Hi</p>")
     = Passes.preprocessGutenbergBlocks "<p>Hi</p>".
Proof.
  assert (Hlt : contains "<" "paragraph" = false) by reflexivity.
  assert (Hgt : contains ">" "paragraph" = false) by reflexivity.
  split; [exact Hlt|]. split; [exact Hgt|].
  exact (proj1 (PassesFacts.preprocessGutenbergBlocks_removes_block
                  "paragraph" "<p>Hi</p>" Hlt Hgt)).
Defined.
